(** * Host harnesses for Go WASI reactor modules

    A shallow embedding of the two harnesses of the repository:
    the TypeScript harness ([js-harness/src/index.ts]: [createReactor],
    the [Reactor] class and the [createMinimalWASI] shim) and the Go
    harness on wazero ([wazero-go/reactor.go]: [NewReactor], [StartMain],
    [LoopOnce], [Run], [RunWithCallback]).

    Layout: the data model and the operations first (modules [Js] and
    [Wazero]), then the lemmas about them. *)

From Stdlib Require Import ZArith Lia List String Ascii.
From stdpp Require Import base option list strings pretty gmap.
From coqutil Require Import Byte Word.LittleEndianList.

Set Default Proof Using "Type".

(* ===================================================================== *)
(** ** JavaScript values shared by the TypeScript harness *)
(* ===================================================================== *)

Module Js.

(** A JavaScript string is a sequence of UTF-16 code units. *)
Abbreviation JsString := (list Z).

(** Code units of an ASCII literal. *)
Definition lit (s : string) : JsString :=
  map (fun a => Z.of_N (N_of_ascii a)) (list_ascii_of_string s).

(** What a [throw] carries.  [ErrorObj msg] is [new Error(msg)], the only
    exception the harness constructs itself; the others are raised by the
    platform: dereferencing [null]/[undefined] (TypeError), an
    out-of-range DataView or [TypedArray.prototype.set] access
    (RangeError), [crypto.getRandomValues] on more than 65536 bytes
    (QuotaExceededError), a WebAssembly trap or link failure. *)
Inductive Thrown : Type :=
| ErrorObj (message : string)
| TypeError
| RangeError
| QuotaExceededError
| RuntimeError
| LinkError.

(** Completion of a statement list: normal, or abrupt by [throw]. *)
Inductive Completion (A : Type) : Type :=
| Normal (a : A)
| Throw (e : Thrown).
Arguments Normal {A} a.
Arguments Throw {A} e.

Definition completes_normally {A} (c : Completion A) : bool :=
  match c with Normal _ => true | Throw _ => false end.

(** Code of the harness over a mutable store [S].  A throw keeps the
    store as it is at the throw: what was written before stays written. *)
Definition JS (S A : Type) : Type := S -> Completion A * S.

Definition ret {S A} (a : A) : JS S A := fun s => (Normal a, s).
Definition throw {S A} (e : Thrown) : JS S A := fun s => (Throw e, s).
Definition bind {S A B} (m : JS S A) (k : A -> JS S B) : JS S B :=
  fun s => match m s with
           | (Normal a, s') => k a s'
           | (Throw e, s') => (Throw e, s')
           end.
Definition get {S} : JS S S := fun s => (Normal s, s).
Definition modify {S} (f : S -> S) : JS S unit := fun s => (Normal tt, f s).

Declare Scope js_scope.
Delimit Scope js_scope with js.
Notation "'let*' x ':=' m 'in' k" := (bind m (fun x => k))
  (at level 10, x pattern, m at level 100, k at level 200) : js_scope.
Notation "m ;; k" := (bind m (fun _ => k))
  (at level 100, k at level 200, right associativity) : js_scope.
Local Open Scope js_scope.

(** [for (const x of xs) body(x)] with a loop-carried accumulator. *)
Fixpoint for_of {S A B} (xs : list A) (acc : B) (body : B -> A -> JS S B)
  : JS S B :=
  match xs with
  | [] => ret acc
  | x :: xs' => let* acc' := body acc x in for_of xs' acc' body
  end.

(* --------------------------------------------------------------------- *)
(** *** ArrayBuffers, typed arrays and DataViews *)
(* --------------------------------------------------------------------- *)

Abbreviation Buffer := (list byte).

(** The store of ArrayBuffers: the buffer of the guest's exported
    [WebAssembly.Memory], and the buffers the host allocates while it
    serves a call ([Uint8Array.prototype.slice] allocates one). *)
Inductive BufId : Type :=
| MemoryBuffer
| Scratch (n : nat).

Record Heap : Type := mkHeap {
  memory_buffer : Buffer;
  scratch : list Buffer;
}.

Definition heap_get (h : Heap) (b : BufId) : Buffer :=
  match b with
  | MemoryBuffer => memory_buffer h
  | Scratch n => default [] (scratch h !! n)
  end.

Definition heap_set (h : Heap) (b : BufId) (bs : Buffer) : Heap :=
  match b with
  | MemoryBuffer => mkHeap bs (scratch h)
  | Scratch n => mkHeap (memory_buffer h) (<[n := bs]> (scratch h))
  end.

Definition heap_alloc (h : Heap) (bs : Buffer) : BufId * Heap :=
  (Scratch (length (scratch h)), mkHeap (memory_buffer h) (scratch h ++ [bs])).

(** Overwrite [bs] at offset [off]; the caller has checked the bounds. *)
Definition splice (off : nat) (bs : Buffer) (buf : Buffer) : Buffer :=
  take off buf ++ bs ++ drop (off + length bs) buf.

(** Bytes [off, off+n) of a buffer. *)
Definition span (off n : nat) (buf : Buffer) : Buffer :=
  take n (drop off buf).

(** [WebAssembly.Memory]: an object whose [buffer] is an ArrayBuffer. *)
Record Memory : Type := mkMemory { buffer : BufId }.

(** The mutable state the shim of [createMinimalWASI] works on: its
    closure variable [memory], the ArrayBuffers, what the two output
    sinks have been called with (one entry per call, oldest first), the
    two clocks, and the bytes the platform's random source delivers. *)
Record Host : Type := mkHost {
  memory : option Memory;
  heap : Heap;
  stdout : list JsString;
  stderr : list JsString;
  date_now : Z;
  performance_now_ns : Z;
  entropy : nat -> byte;
  entropy_pos : nat;
}.

Definition with_memory (m : option Memory) (h : Host) : Host :=
  mkHost m (heap h) (stdout h) (stderr h) (date_now h)
         (performance_now_ns h) (entropy h) (entropy_pos h).
Definition with_heap (hp : Heap) (h : Host) : Host :=
  mkHost (memory h) hp (stdout h) (stderr h) (date_now h)
         (performance_now_ns h) (entropy h) (entropy_pos h).
Definition with_stdout (l : list JsString) (h : Host) : Host :=
  mkHost (memory h) (heap h) l (stderr h) (date_now h)
         (performance_now_ns h) (entropy h) (entropy_pos h).
Definition with_stderr (l : list JsString) (h : Host) : Host :=
  mkHost (memory h) (heap h) (stdout h) l (date_now h)
         (performance_now_ns h) (entropy h) (entropy_pos h).
Definition with_entropy_pos (n : nat) (h : Host) : Host :=
  mkHost (memory h) (heap h) (stdout h) (stderr h) (date_now h)
         (performance_now_ns h) (entropy h) n.

(** The host with the guest's memory holding [buf]. *)
Definition mem_update (h : Host) (buf : Buffer) : Host :=
  with_heap (mkHeap buf (scratch (heap h))) h.

(** [h'] is [h] but for the buffers the host allocated on the way. *)
Definition same_but_scratch (h h' : Host) : Prop :=
  h' = with_heap (mkHeap (memory_buffer (heap h)) (scratch (heap h'))) h.

(** [memory!.buffer]: the non-null assertion is erased by the compiler,
    so a [null] (or [undefined]) [memory] makes the property read throw. *)
Definition memory_buffer_of : JS Host BufId :=
  fun h => match memory h with
           | Some m => (Normal (buffer m), h)
           | None => (Throw TypeError, h)
           end.

(** The byte offsets [off .. off+width) fit the buffer (DataView's check:
    a negative index or one past the end is a RangeError). *)
Definition in_bounds (off width : Z) (buf : Buffer) : bool :=
  (0 <=? off)%Z && (off + width <=? Z.of_nat (length buf))%Z.

(** [view.setUintN(off, v, true)]: all [n] bytes or a RangeError. *)
Definition view_set (n : nat) (view : BufId) (off v : Z) : JS Host unit :=
  fun h =>
    let buf := heap_get (heap h) view in
    if in_bounds off (Z.of_nat n) buf
    then (Normal tt,
          with_heap (heap_set (heap h) view
                       (splice (Z.to_nat off) (le_split n v) buf)) h)
    else (Throw RangeError, h).

(** [view.getUintN(off, true)]. *)
Definition view_get (n : nat) (view : BufId) (off : Z) : JS Host Z :=
  fun h =>
    let buf := heap_get (heap h) view in
    if in_bounds off (Z.of_nat n) buf
    then (Normal (le_combine (span (Z.to_nat off) n buf)), h)
    else (Throw RangeError, h).

Definition setUint8 := view_set 1.
Definition setUint16 := view_set 2.
Definition setUint32 := view_set 4.
Definition setBigUint64 := view_set 8.
Definition getUint32 := view_get 4.

(** [arr.set(src, off)]: RangeError unless the source fits at [off]. *)
Definition u8_set (arr : BufId) (src : list byte) (off : Z) : JS Host unit :=
  fun h =>
    let buf := heap_get (heap h) arr in
    if in_bounds off (Z.of_nat (length src)) buf
    then (Normal tt,
          with_heap (heap_set (heap h) arr (splice (Z.to_nat off) src buf)) h)
    else (Throw RangeError, h).

(** [arr[i] = v]: an index outside the array is ignored, no exception. *)
Definition u8_put (arr : BufId) (i v : Z) : JS Host unit :=
  fun h =>
    let buf := heap_get (heap h) arr in
    if in_bounds i 1 buf
    then (Normal tt,
          with_heap (heap_set (heap h) arr
                       (splice (Z.to_nat i) [byte.of_Z v] buf)) h)
    else (Normal tt, h).

(** Relative index of [slice]: negative counts from the end, and the
    result is clamped to [0, len]. *)
Definition clamp_index (i len : Z) : Z :=
  if (i <? 0)%Z then Z.max (len + i) 0 else Z.min i len.

(** [arr.slice(start, end)]: a NEW array over a NEW buffer holding a copy
    of the clamped range.  Never throws. *)
Definition slice_bytes (start end_ : Z) (buf : Buffer) : Buffer :=
  let len := Z.of_nat (length buf) in
  let k := clamp_index start len in
  let final := clamp_index end_ len in
  let count := Z.max (final - k) 0 in
  span (Z.to_nat k) (Z.to_nat count) buf.

Definition u8_slice (arr : BufId) (start end_ : Z) : JS Host BufId :=
  fun h =>
    let '(id, hp) :=
      heap_alloc (heap h) (slice_bytes start end_ (heap_get (heap h) arr)) in
    (Normal id, with_heap hp h).

(** The bytes an array currently holds (what [decoder.decode] reads). *)
Definition u8_bytes (arr : BufId) : JS Host (list byte) :=
  fun h => (Normal (heap_get (heap h) arr), h).

(** [crypto.getRandomValues(arr)]: QuotaExceededError above 65536 bytes,
    otherwise [arr]'s own buffer is overwritten with fresh random bytes. *)
Definition getRandomValues (arr : BufId) : JS Host unit :=
  fun h =>
    let buf := heap_get (heap h) arr in
    if (65536 <? Z.of_nat (length buf))%Z
    then (Throw QuotaExceededError, h)
    else
      let fresh := map (fun i => entropy h (entropy_pos h + i))
                       (seq 0 (length buf)) in
      (Normal tt,
       with_entropy_pos (entropy_pos h + length buf)
         (with_heap (heap_set (heap h) arr fresh) h)).

(* --------------------------------------------------------------------- *)
(** *** TextEncoder and TextDecoder (UTF-8, as the Encoding Standard) *)
(* --------------------------------------------------------------------- *)

Local Open Scope Z_scope.

Definition is_high_surrogate (c : Z) : bool := (0xD800 <=? c) && (c <=? 0xDBFF).
Definition is_low_surrogate (c : Z) : bool := (0xDC00 <=? c) && (c <=? 0xDFFF).

(** Code units to scalar values; an unpaired surrogate becomes U+FFFD. *)
Fixpoint scalar_values (s : JsString) : list Z :=
  match s with
  | [] => []
  | c :: rest =>
      if is_high_surrogate c then
        match rest with
        | d :: rest' =>
            if is_low_surrogate d
            then (0x10000 + (c - 0xD800) * 0x400 + (d - 0xDC00))
                   :: scalar_values rest'
            else 0xFFFD :: scalar_values rest
        | [] => [0xFFFD]
        end
      else if is_low_surrogate c then 0xFFFD :: scalar_values rest
      else c :: scalar_values rest
  end.

Definition utf8_of_scalar (cp : Z) : list byte :=
  if cp <? 0x80 then [byte.of_Z cp]
  else if cp <? 0x800 then
    [byte.of_Z (Z.lor 0xC0 (Z.shiftr cp 6));
     byte.of_Z (Z.lor 0x80 (Z.land cp 0x3F))]
  else if cp <? 0x10000 then
    [byte.of_Z (Z.lor 0xE0 (Z.shiftr cp 12));
     byte.of_Z (Z.lor 0x80 (Z.land (Z.shiftr cp 6) 0x3F));
     byte.of_Z (Z.lor 0x80 (Z.land cp 0x3F))]
  else
    [byte.of_Z (Z.lor 0xF0 (Z.shiftr cp 18));
     byte.of_Z (Z.lor 0x80 (Z.land (Z.shiftr cp 12) 0x3F));
     byte.of_Z (Z.lor 0x80 (Z.land (Z.shiftr cp 6) 0x3F));
     byte.of_Z (Z.lor 0x80 (Z.land cp 0x3F))].

(** [encoder.encode(s)]. *)
Definition encode (s : JsString) : list byte :=
  flat_map utf8_of_scalar (scalar_values s).

(** State of the UTF-8 decoder inside a multi-byte sequence. *)
Record Pending : Type := mkPending {
  needed : Z;       (* continuation bytes still expected *)
  code_point : Z;
  lower : Z;        (* bounds for the next continuation byte *)
  upper : Z;
}.

(** A byte read with no sequence pending. *)
Definition utf8_lead (b : Z) : list Z * option Pending :=
  if b <=? 0x7F then ([b], None)
  else if (0xC2 <=? b) && (b <=? 0xDF)
  then ([], Some (mkPending 1 (Z.land b 0x1F) 0x80 0xBF))
  else if (0xE0 <=? b) && (b <=? 0xEF)
  then ([], Some (mkPending 2 (Z.land b 0xF)
                    (if b =? 0xE0 then 0xA0 else 0x80)
                    (if b =? 0xED then 0x9F else 0xBF)))
  else if (0xF0 <=? b) && (b <=? 0xF4)
  then ([], Some (mkPending 3 (Z.land b 0x7)
                    (if b =? 0xF0 then 0x90 else 0x80)
                    (if b =? 0xF4 then 0x8F else 0xBF)))
  else ([0xFFFD], None).

(** The decoder in replacement mode: every malformed sequence yields one
    U+FFFD, and the byte that broke a sequence is read again as a lead. *)
Fixpoint utf8_decode (bs : list byte) (st : option Pending) : list Z :=
  match bs with
  | [] => match st with None => [] | Some _ => [0xFFFD] end
  | x :: rest =>
      let b := byte.unsigned x in
      match st with
      | None =>
          let '(out, st') := utf8_lead b in out ++ utf8_decode rest st'
      | Some p =>
          if (lower p <=? b) && (b <=? upper p) then
            let cp := Z.lor (Z.shiftl (code_point p) 6) (Z.land b 0x3F) in
            if needed p =? 1 then cp :: utf8_decode rest None
            else utf8_decode rest (Some (mkPending (needed p - 1) cp 0x80 0xBF))
          else
            let '(out, st') := utf8_lead b in
            0xFFFD :: out ++ utf8_decode rest st'
      end
  end.

Definition utf16_of_scalar (cp : Z) : JsString :=
  if cp <? 0x10000 then [cp]
  else [0xD800 + Z.shiftr (cp - 0x10000) 10;
        0xDC00 + Z.land (cp - 0x10000) 0x3FF].

(** A leading U+FEFF is dropped (the decoder's [ignoreBOM] is false). *)
Definition strip_bom (cps : list Z) : list Z :=
  match cps with
  | c :: rest => if c =? 0xFEFF then rest else cps
  | [] => []
  end.

(** [decoder.decode(bytes)]: never throws ([fatal] is false). *)
Definition decode (bs : list byte) : JsString :=
  flat_map utf16_of_scalar (strip_bom (utf8_decode bs None)).

(* --------------------------------------------------------------------- *)
(** *** [createMinimalWASI]: the system-interface shim *)
(* --------------------------------------------------------------------- *)

(** The [options] argument; the two sinks are the recorders of [Host]. *)
Record WasiOptions : Type := mkWasiOptions {
  opt_args : option (list JsString);
  (** [env], as [Object.entries] enumerates it *)
  opt_env : option (list (JsString * JsString));
}.

(** The constants the closures of [createMinimalWASI] capture. *)
Record Shim : Type := mkShim {
  args : list JsString;
  envArray : list JsString;
}.

Definition createMinimalWASI (options : WasiOptions) : Shim :=
  let args := default [lit "reactor"] (opt_args options) in
  let env := default [] (opt_env options) in
  let envArray := map (fun '(k, v) => k ++ lit "=" ++ v) env in
  mkShim args envArray.

(** [setMemory]: assigns the closure variable [memory].  The harness
    passes [exports.memory], which is [undefined] when the module has no
    such export; [None] stands for both [null] and [undefined]. *)
Definition setMemory (mem : option Memory) : JS Host unit :=
  modify (with_memory mem).

(** The bodies of [args_sizes_get] and [environ_sizes_get] are the same
    code, over [args] and over [envArray]. *)
Definition sizes_get (strs : list JsString) (count_ptr buf_size_ptr : Z)
  : JS Host Z :=
  let* view := memory_buffer_of in
  setUint32 view count_ptr (Z.of_nat (length strs)) ;;
  let bufSize :=
    fold_left (fun bufSize arg => bufSize + (Z.of_nat (length (encode arg)) + 1))
              strs 0 in
  setUint32 view buf_size_ptr bufSize ;;
  ret 0.

(** The bodies of [args_get] and [environ_get]: the loop carries the
    index [i] and [bufOffset]. *)
Definition strings_get_round (view mem : BufId) (ptrs_ptr : Z)
    (acc : Z * Z) (arg : JsString) : JS Host (Z * Z) :=
  let '(i, bufOffset) := acc in
  setUint32 view (ptrs_ptr + i * 4) bufOffset ;;
  let encoded := encode arg in
  u8_set mem encoded bufOffset ;;
  u8_put mem (bufOffset + Z.of_nat (length encoded)) 0 ;;
  ret (i + 1, bufOffset + (Z.of_nat (length encoded) + 1)).

Definition strings_get (strs : list JsString) (ptrs_ptr buf_ptr : Z)
  : JS Host Z :=
  let* view := memory_buffer_of in
  let* mem := memory_buffer_of in
  for_of strs (0, buf_ptr) (strings_get_round view mem ptrs_ptr) ;;
  ret 0.

Definition args_sizes_get (sh : Shim) := sizes_get (args sh).
Definition args_get (sh : Shim) := strings_get (args sh).
Definition environ_sizes_get (sh : Shim) := sizes_get (envArray sh).
Definition environ_get (sh : Shim) := strings_get (envArray sh).

Definition clock_time_get (clock_id _precision time_ptr : Z) : JS Host Z :=
  let* view := memory_buffer_of in
  let* h := get in
  let time := if clock_id =? 0 then date_now h * 1000000
              else performance_now_ns h in
  setBigUint64 view time_ptr time ;;
  ret 0.

(** The sinks: [stdout(text)] and [stderr(text)]. *)
Definition call_stdout (text : JsString) : JS Host unit :=
  modify (fun h => with_stdout (stdout h ++ [text]) h).
Definition call_stderr (text : JsString) : JS Host unit :=
  modify (fun h => with_stderr (stderr h ++ [text]) h).

(** One round of the loop of [fd_write]; it carries [written] and [text].
    ([written] is a JavaScript number: the sum is exact below 2^53.) *)
Definition fd_write_iov (view mem : BufId) (iovs_ptr : Z)
    (acc : Z * JsString) (i : Z) : JS Host (Z * JsString) :=
  let '(written, text) := acc in
  let* ptr := getUint32 view (iovs_ptr + i * 8) in
  let* len := getUint32 view (iovs_ptr + i * 8 + 4) in
  let* piece := u8_slice mem ptr (ptr + len) in
  let* bytes := u8_bytes piece in
  ret (written + len, text ++ decode bytes).

Definition fd_write (fd iovs_ptr iovs_len nwritten_ptr : Z) : JS Host Z :=
  let* view := memory_buffer_of in
  let* mem := memory_buffer_of in
  let* (written, text) :=
    for_of (seqZ 0 iovs_len) (0, []) (fd_write_iov view mem iovs_ptr) in
  (if fd =? 1 then call_stdout text
   else if fd =? 2 then call_stderr text
   else ret tt) ;;
  setUint32 view nwritten_ptr written ;;
  ret 0.

Definition fd_close (_fd : Z) : JS Host Z := ret 0.

Definition fd_fdstat_get (fd stat_ptr : Z) : JS Host Z :=
  let* view := memory_buffer_of in
  (if fd <=? 2 then setUint8 view stat_ptr 2
   else setUint8 view stat_ptr 6) ;;
  setUint16 view (stat_ptr + 2) 0 ;;
  setBigUint64 view (stat_ptr + 8) 0xFFFFFFFFFFFFFFFF ;;
  setBigUint64 view (stat_ptr + 16) 0xFFFFFFFFFFFFFFFF ;;
  ret 0.

Definition fd_fdstat_set_flags (_fd _flags : Z) : JS Host Z := ret 0.
Definition fd_seek (_fd _offset _whence _newoffset_ptr : Z) : JS Host Z := ret 0.
Definition fd_read (_fd _iovs_ptr _iovs_len _nread_ptr : Z) : JS Host Z := ret 0.
Definition fd_prestat_get (_fd _prestat_ptr : Z) : JS Host Z := ret 8.
Definition fd_prestat_dir_name (_fd _path_ptr _path_len : Z) : JS Host Z := ret 8.

(** [throw new Error(`exit(${code})`)]: the return type is [void]; the
    call never completes normally. *)
Definition exit_message (code : Z) : string :=
  ("exit(" +:+ pretty code +:+ ")")%string.
Definition proc_exit (code : Z) : JS Host Z :=
  throw (ErrorObj (exit_message code)).

Definition random_get (buf_ptr buf_len : Z) : JS Host Z :=
  let* mem := memory_buffer_of in
  let* piece := u8_slice mem buf_ptr (buf_ptr + buf_len) in
  getRandomValues piece ;;
  ret 0.

Definition poll_oneoff (_in_ptr _out_ptr _nsubscriptions _nevents_ptr : Z)
  : JS Host Z := ret 0.
Definition sched_yield : JS Host Z := ret 0.

(** A call of the guest into the import namespace
    [wasi_snapshot_preview1], with its arguments. *)
Inductive WasiCall : Type :=
| Args_sizes_get (argc_ptr argv_buf_size_ptr : Z)
| Args_get (argv_ptr argv_buf_ptr : Z)
| Environ_sizes_get (environ_count_ptr environ_buf_size_ptr : Z)
| Environ_get (environ_ptr environ_buf_ptr : Z)
| Clock_time_get (clock_id precision time_ptr : Z)
| Fd_write (fd iovs_ptr iovs_len nwritten_ptr : Z)
| Fd_close (fd : Z)
| Fd_fdstat_get (fd stat_ptr : Z)
| Fd_fdstat_set_flags (fd flags : Z)
| Fd_seek (fd offset whence newoffset_ptr : Z)
| Fd_read (fd iovs_ptr iovs_len nread_ptr : Z)
| Fd_prestat_get (fd prestat_ptr : Z)
| Fd_prestat_dir_name (fd path_ptr path_len : Z)
| Proc_exit (code : Z)
| Random_get (buf_ptr buf_len : Z)
| Poll_oneoff (in_ptr out_ptr nsubscriptions nevents_ptr : Z)
| Sched_yield.

(** The table [wasiImports]: call name to handler. *)
Definition wasiImports (sh : Shim) (c : WasiCall) : JS Host Z :=
  match c with
  | Args_sizes_get a b => args_sizes_get sh a b
  | Args_get a b => args_get sh a b
  | Environ_sizes_get a b => environ_sizes_get sh a b
  | Environ_get a b => environ_get sh a b
  | Clock_time_get a b c => clock_time_get a b c
  | Fd_write a b c d => fd_write a b c d
  | Fd_close a => fd_close a
  | Fd_fdstat_get a b => fd_fdstat_get a b
  | Fd_fdstat_set_flags a b => fd_fdstat_set_flags a b
  | Fd_seek a b c d => fd_seek a b c d
  | Fd_read a b c d => fd_read a b c d
  | Fd_prestat_get a b => fd_prestat_get a b
  | Fd_prestat_dir_name a b c => fd_prestat_dir_name a b c
  | Proc_exit code => proc_exit code
  | Random_get a b => random_get a b
  | Poll_oneoff a b c d => poll_oneoff a b c d
  | Sched_yield => sched_yield
  end.

(* --------------------------------------------------------------------- *)
(** *** The guest, seen from the host *)
(* --------------------------------------------------------------------- *)

(** What one call of an exported function does: it calls imports (an
    import that throws unwinds the guest and reaches the caller of the
    export), loads and stores in its linear memory, and finally returns
    or traps. *)
Inductive Guest (R : Type) : Type :=
| Return (r : R)
| Import (c : WasiCall) (k : Z -> Guest R)
| Store (off : nat) (bs : list byte) (k : Guest R)
| Load (k : Buffer -> Guest R)
| Trap.
Arguments Return {R} r.
Arguments Import {R} c k.
Arguments Store {R} off bs k.
Arguments Load {R} k.
Arguments Trap {R}.

Definition guest_store (off : nat) (bs : list byte) : JS Host unit :=
  modify (fun h =>
    with_heap (heap_set (heap h) MemoryBuffer
                 (splice off bs (heap_get (heap h) MemoryBuffer))) h).

Fixpoint run_guest {R} (imports : WasiCall -> JS Host Z) (p : Guest R)
  : JS Host R :=
  match p with
  | Return r => ret r
  | Import c k => let* errno := imports c in run_guest imports (k errno)
  | Store off bs k => guest_store off bs ;; run_guest imports k
  | Load k => let* h := get in
              run_guest imports (k (heap_get (heap h) MemoryBuffer))
  | Trap => throw RuntimeError
  end.

(** The guest program [p], started on host [h], invokes
    [proc_exit(code)] with the host in state [h']: everything it does
    before completes normally. *)
Inductive invokes_exit {R} (imports : WasiCall -> JS Host Z)
  : Guest R -> Host -> Z -> Host -> Prop :=
| invokes_exit_here code k h :
    invokes_exit imports (Import (Proc_exit code) k) h code h
| invokes_exit_import c k h errno h1 code h' :
    imports c h = (Normal errno, h1) ->
    invokes_exit imports (k errno) h1 code h' ->
    invokes_exit imports (Import c k) h code h'
| invokes_exit_store off bs k h code h' :
    invokes_exit imports k (snd (guest_store off bs h)) code h' ->
    invokes_exit imports (Store off bs k) h code h'
| invokes_exit_load k h code h' :
    invokes_exit imports (k (heap_get (heap h) MemoryBuffer)) h code h' ->
    invokes_exit imports (Load k) h code h'.

(** [new Error(...)], the class of the harness's own errors. *)
Definition is_plain_error (e : Thrown) : bool :=
  match e with ErrorObj _ => true | _ => false end.

(** What the harness does that an observer can count, oldest first. *)
Inductive Event : Type :=
| CallSetMemory
| CallInitialize
| CallStartMain
| CallOnTick
| CallTick
| AwaitResolved               (* [await Promise.resolve()] *)
| CallWait (ms : Z)           (* [await wait(ms)] *)
| BusyWait (ms : Z).          (* the spin loop of [runSync] *)

#[global] Instance Event_eq_dec : EqDecision Event.
Proof. solve_decision. Defined.

Section Reactor.

(** The guest's state besides its linear memory. *)
Variable G : Type.

(** A property of [instance.exports]. *)
Inductive Export : Type :=
| FuncExport (body : G -> Guest (Z * G))
| MemoryExport (m : Memory)
| OtherExport.

(** A compiled module: whether it links against the imports it is given,
    and what it exports. *)
Record Module : Type := mkModule {
  links : bool;
  module_exports : gmap string Export;
}.

(** [instance.exports]: the exported functions close over the imports
    the instance was linked with. *)
Record Exports : Type := mkExports {
  imports : WasiCall -> JS Host Z;
  props : gmap string Export;
}.

(** Everything mutable: the guest, the shim's state, the private field
    [mainStarted] of the [Reactor], and the log of the harness's calls. *)
Record Machine : Type := mkMachine {
  guest : G;
  host : Host;
  mainStarted : bool;
  calls : list Event;
}.

Definition logged (ev : Event) (m : Machine) : Machine :=
  mkMachine (guest m) (host m) (mainStarted m) (calls m ++ [ev]).
Definition log (ev : Event) : JS Machine unit := modify (logged ev).
Definition set_mainStarted (b : bool) : JS Machine unit :=
  modify (fun m => mkMachine (guest m) (host m) b (calls m)).

(** Host-side code run from the harness. *)
Definition on_host {A} (c : JS Host A) : JS Machine A :=
  fun m => let '(r, h) := c (host m) in
           (r, mkMachine (guest m) h (mainStarted m) (calls m)).

(** [typeof exports.name === "function"]. *)
Definition is_function (e : Exports) (name : string) : bool :=
  match props e !! name with
  | Some (FuncExport _) => true
  | _ => false
  end.

(** [exports.memory], unchecked: [undefined] unless it is a Memory. *)
Definition exports_memory (e : Exports) : option Memory :=
  match props e !! "memory"%string with
  | Some (MemoryExport m) => Some m
  | _ => None
  end.

(** [exports.name()]: calling what is not a function is a TypeError;
    an exception leaves the guest's own state as it was. *)
Definition call_export (e : Exports) (name : string) : JS Machine Z :=
  fun m =>
    match props e !! name with
    | Some (FuncExport body) =>
        match run_guest (imports e) (body (guest m)) (host m) with
        | (Normal (v, g), h) =>
            (Normal v, mkMachine g h (mainStarted m) (calls m))
        | (Throw ex, h) =>
            (Throw ex, mkMachine (guest m) h (mainStarted m) (calls m))
        end
    | _ => (Throw TypeError, m)
    end.

Record ReactorOptions : Type := mkReactorOptions {
  opt_wasiImports : WasiCall -> JS Host Z;
  opt_setMemory : option (option Memory -> JS Host unit);
  opt_onTick : option (JS Host unit);
  opt_debug : bool;
}.

(** The immutable fields of a [Reactor]. *)
Record Reactor : Type := mkReactor {
  exports : Exports;
  debug : bool;
  onTick : option (JS Host unit);
}.

(** [WebAssembly.instantiate(wasmModule, { wasi_snapshot_preview1 })]. *)
Definition instantiate (wasmModule : Module) (imp : WasiCall -> JS Host Z)
  : JS Machine Exports :=
  if links wasmModule then ret (mkExports imp (module_exports wasmModule))
  else throw LinkError.

Definition createReactor (wasmModule : Module) (options : ReactorOptions)
  : JS Machine Reactor :=
  let* exports := instantiate wasmModule (opt_wasiImports options) in
  if negb (is_function exports "_initialize") then
    throw (ErrorObj "Module does not export _initialize (not a WASI reactor?)")
  else if negb (is_function exports "go_start_main") then
    throw (ErrorObj
      "Module does not export go_start_main (not built with modified Go runtime?)")
  else if negb (is_function exports "go_tick") then
    throw (ErrorObj
      "Module does not export go_tick (not built with modified Go runtime?)")
  else
    match opt_setMemory options with
    | Some setMemory =>
        log CallSetMemory ;; on_host (setMemory (exports_memory exports))
    | None => ret tt
    end ;;
    log CallInitialize ;;
    call_export exports "_initialize" ;;
    set_mainStarted false ;;
    ret (mkReactor exports (opt_debug options) (opt_onTick options)).

Definition startMain (r : Reactor) : JS Machine unit :=
  let* m := get in
  if mainStarted m then ret tt
  else
    log CallStartMain ;;
    call_export (exports r) "go_start_main" ;;
    set_mainStarted true.

Definition loopOnce (r : Reactor) : JS Machine Z :=
  log CallTick ;;
  call_export (exports r) "go_tick".

(** [this.onTick?.()]. *)
Definition call_onTick (r : Reactor) : JS Machine unit :=
  match onTick r with
  | Some f => log CallOnTick ;; on_host f
  | None => ret tt
  end.

(** A round of a [while (true)] loop either leaves it or starts over. *)
Inductive Round : Type := Leave | Again.

(** [while (true) body], cut after [fuel] rounds: [None] when the fuel
    is used up before the loop is left. *)
Fixpoint while_true {S} (fuel : nat) (body : JS S Round)
  : S -> option (Completion unit * S) :=
  fun s =>
    match fuel with
    | O => None
    | S fuel' =>
        match body s with
        | (Normal Leave, s') => Some (Normal tt, s')
        | (Normal Again, s') => while_true fuel' body s'
        | (Throw e, s') => Some (Throw e, s')
        end
    end.

(** A statement, then a [while (true)] loop. *)
Definition then_loop {S} (first : JS S unit) (fuel : nat) (body : JS S Round)
  : S -> option (Completion unit * S) :=
  fun s =>
    match first s with
    | (Normal _, s') => while_true fuel body s'
    | (Throw e, s') => Some (Throw e, s')
    end.

Definition runSync_round (r : Reactor) : JS Machine Round :=
  call_onTick r ;;
  let* result := loopOnce r in
  if result =? -1 then ret Leave
  else
    (if 0 <? result then log (BusyWait result) else ret tt) ;;
    ret Again.

Definition runSync (r : Reactor) (fuel : nat) :=
  then_loop (startMain r) fuel (runSync_round r).

(** The default [wait]: [setTimeout(resolve, ms)]. *)
Definition default_wait (ms : Z) : JS Host unit := ret tt.

Definition runAsync_round (r : Reactor) (wait : Z -> JS Host unit)
  : JS Machine Round :=
  call_onTick r ;;
  let* result := loopOnce r in
  if result =? -1 then ret Leave
  else if result =? 0 then
    log AwaitResolved ;;
    ret Again
  else
    (if 0 <? result then log (CallWait result) ;; on_host (wait result)
     else ret tt) ;;
    ret Again.

Definition runAsync (r : Reactor) (wait : Z -> JS Host unit) (fuel : nat) :=
  then_loop (startMain r) fuel (runAsync_round r wait).

(** The operations a caller has on a [Reactor]. *)
Inductive Operation : Type :=
| DoStartMain
| DoLoopOnce
| DoRunSync (fuel : nat)
| DoRunAsync (wait : Z -> JS Host unit) (fuel : nat).

(** The machine after an operation, whether it returned or threw;
    [None] when a run does not come back within its fuel. *)
Definition perform (r : Reactor) (op : Operation) (m : Machine)
  : option Machine :=
  match op with
  | DoStartMain => Some (snd (startMain r m))
  | DoLoopOnce => Some (snd (loopOnce r m))
  | DoRunSync fuel => option_map snd (runSync r fuel m)
  | DoRunAsync wait fuel => option_map snd (runAsync r wait fuel m)
  end.

Fixpoint perform_all (r : Reactor) (ops : list Operation) (m : Machine)
  : option Machine :=
  match ops with
  | [] => Some m
  | op :: ops' =>
      match perform r op m with
      | Some m' => perform_all r ops' m'
      | None => None
      end
  end.

(** The guest answers one round with [v]: the callback completes, then
    the tick entry point returns [v]. *)
Definition tick_answers (r : Reactor) (m : Machine) (v : Z) (m' : Machine)
  : Prop :=
  exists m1, call_onTick r m = (Normal tt, m1) /\ loopOnce r m1 = (Normal v, m').

(** What the callback step of a round adds to the log. *)
Definition onTick_events (r : Reactor) : list Event :=
  match onTick r with Some _ => [CallOnTick] | None => [] end.

(** How often an event occurs in a log. *)
Definition occurrences (ev : Event) (l : list Event) : nat :=
  length (filter (fun e => e = ev) l).

End Reactor.

Arguments onTick_events {G} r.
Arguments is_function {G} e name.
Arguments exports_memory {G} e.
Arguments links {G} m.
Arguments module_exports {G} m.
Arguments props {G} e.
Arguments imports {G} e.
Arguments FuncExport {G} body.
Arguments MemoryExport {G} m.
Arguments OtherExport {G}.
Arguments mkModule {G} links module_exports.
Arguments mkExports {G} imports props.
Arguments mkMachine {G} guest host mainStarted calls.
Arguments guest {G} m.
Arguments host {G} m.
Arguments mainStarted {G} m.
Arguments calls {G} m.
Arguments logged {G} ev m.
Arguments log {G} ev.
Arguments on_host {G A} c.
Arguments call_export {G} e name.
Arguments mkReactor {G} exports debug onTick.
Arguments exports {G} r.
Arguments onTick {G} r.
Arguments createReactor {G} wasmModule options.
Arguments startMain {G} r.
Arguments loopOnce {G} r.
Arguments call_onTick {G} r.
Arguments runSync_round {G} r.
Arguments runSync {G} r fuel.
Arguments runAsync_round {G} r wait.
Arguments runAsync {G} r wait fuel.
Arguments tick_answers {G} r m v m'.
Arguments perform {G} r op m.
Arguments perform_all {G} r ops m.
Arguments set_mainStarted {G} b.

Local Close Scope Z_scope.

End Js.

(* ===================================================================== *)
(** ** The Go harness on wazero *)
(* ===================================================================== *)

Module Wazero.

Local Open Scope Z_scope.

(** Go [error] values the harness returns. *)
Inductive GoError : Type :=
| Canceled                                   (* context.Canceled *)
| DeadlineExceeded                           (* context.DeadlineExceeded *)
| ErrorsNew (msg : string)                   (* errors.New(msg) *)
| Errorf (prefix : string) (cause : GoError) (* fmt.Errorf(prefix + ": %w", cause) *)
| CallError (msg : string).                  (* an error of the wazero API *)

(** A [context.Context]: whether [Done()] is closed at the [n]-th time
    the harness looks at it, and what [Err()] then returns. *)
Record Context : Type := mkContext {
  done : nat -> bool;
  ctx_err : GoError;
}.

(** [context.Background()]. *)
Definition Background : Context := mkContext (fun _ => false) Canceled.

(** [LoopResult(int32(x))] of a [uint64] stack value. *)
Definition int32 (x : Z) : Z := (x + 2 ^ 31) mod 2 ^ 32 - 2 ^ 31.

Definition LoopIdle : Z := -1.
Definition LoopReady : Z := 0.

Inductive Event : Type :=
| CallInitialize
| CallStartMain
| CallOnTick
| CallTick
| TimerFired (ms : Z)         (* [<-timer.C] after [time.NewTimer] *)
| TimerStopped (ms : Z)       (* [timer.Stop()] after cancellation *)
| ModClose.

#[global] Instance Event_eq_dec : EqDecision Event.
Proof. solve_decision. Defined.

(** How a Go function ends: it returns, or it panics. *)
Inductive Outcome (A : Type) : Type :=
| Returns (a : A)
| Panics.
Arguments Returns {A} a.
Arguments Panics {A}.

Section Reactor.

(** The state of the instantiated guest. *)
Variable G : Type.

(** [api.Function.Call(ctx)]: the results and the error. *)
Definition Function : Type := G -> (list Z * option GoError) * G.

(** What [NewReactor] gets from the runtime for the bytes it is given:
    the outcome of the three wazero steps, the exported functions by
    name, and the instance's initial state. *)
Record Wasm : Type := mkWasm {
  wasi_instantiate : option GoError;
  compile_module : option GoError;
  instantiate_module : option GoError;
  exported_functions : gmap string Function;
  (** whether the module exports a memory; the harness never asks *)
  exported_memory : bool;
  initial : G;
}.

Record Reactor : Type := mkReactor {
  initialize : Function;
  goStartMain : Function;
  goTick : Function;
}.

(** The mutable state: the guest, how often the context has been looked
    at, and the log of the harness's calls, oldest first. *)
Record Machine : Type := mkMachine {
  guest : G;
  polls : nat;
  calls : list Event;
}.

Definition log (ev : Event) (m : Machine) : Machine :=
  mkMachine (guest m) (polls m) (calls m ++ [ev]).

(** [f.Call(ctx)]. *)
Definition Call (ev : Event) (f : Function) (m : Machine)
  : (list Z * option GoError) * Machine :=
  let '(r, g) := f (guest m) in
  (r, mkMachine g (polls m) (calls m ++ [ev])).

(** One look at [ctx.Done()]. *)
Definition poll (ctx : Context) (m : Machine) : bool * Machine :=
  (done ctx (polls m), mkMachine (guest m) (S (polls m)) (calls m)).

Definition NewReactor (wasm : Wasm)
  : (option Reactor * option GoError) * Machine :=
  let m := mkMachine (initial wasm) 0 [] in
  match wasi_instantiate wasm with
  | Some err => ((None, Some (Errorf "instantiate WASI" err)), m)
  | None =>
  match compile_module wasm with
  | Some err => ((None, Some (Errorf "compile module" err)), m)
  | None =>
  match instantiate_module wasm with
  | Some err => ((None, Some (Errorf "instantiate module" err)), m)
  | None =>
  match exported_functions wasm !! "_initialize"%string with
  | None =>
      ((None, Some (ErrorsNew
          "module does not export _initialize (not a WASI reactor?)")),
       log ModClose m)
  | Some initialize =>
  match exported_functions wasm !! "go_start_main"%string with
  | None =>
      ((None, Some (ErrorsNew
          "module does not export go_start_main (not built with modified Go runtime?)")),
       log ModClose m)
  | Some goStartMain =>
  match exported_functions wasm !! "go_tick"%string with
  | None =>
      ((None, Some (ErrorsNew
          "module does not export go_tick (not built with modified Go runtime?)")),
       log ModClose m)
  | Some goTick =>
      let reactor := mkReactor initialize goStartMain goTick in
      match Call CallInitialize initialize m with
      | ((_, Some err), m') =>
          ((None, Some (Errorf "call _initialize" err)), log ModClose m')
      | ((_, None), m') => ((Some reactor, None), m')
      end
  end end end end end end.

Definition StartMain (r : Reactor) (m : Machine) : option GoError * Machine :=
  let '((_, err), m') := Call CallStartMain (goStartMain r) m in
  (err, m').

(** [results[0]] panics (index out of range) on an empty result list. *)
Definition LoopOnce (r : Reactor) (m : Machine)
  : Outcome (Z * option GoError) * Machine :=
  match Call CallTick (goTick r) m with
  | ((_, Some err), m') => (Returns (LoopIdle, Some err), m')
  | ((results, None), m') =>
      match results with
      | x :: _ => (Returns (int32 x, None), m')
      | [] => (Panics, m')
      end
  end.

(** The [select] on [ctx.Done()] and [timer.C] after a positive result:
    [Some err] when the context wins, [None] when the timer fires. *)
Definition wait_timer (ctx : Context) (result : Z) (m : Machine)
  : option GoError * Machine :=
  let '(cancelled, m) := poll ctx m in
  if cancelled then (Some (ctx_err ctx), log (TimerStopped result) m)
  else (None, log (TimerFired result) m).

(** The [for] loop of [Run].  The [switch] has no [default]: a result
    that matches no [case] falls out of it and the loop starts over.
    [None]: the fuel is used up before the loop returns. *)
Fixpoint Run_for (fuel : nat) (ctx : Context) (r : Reactor) (m : Machine)
  : option (Outcome (option GoError) * Machine) :=
  match fuel with
  | O => None
  | S fuel' =>
      let '(cancelled, m) := poll ctx m in
      if cancelled then Some (Returns (Some (ctx_err ctx)), m)
      else
        match LoopOnce r m with
        | (Panics, m) => Some (Panics, m)
        | (Returns (_, Some err), m) =>
            Some (Returns (Some (Errorf "loop once" err)), m)
        | (Returns (result, None), m) =>
            if result =? LoopIdle then Some (Returns None, m)
            else if result =? LoopReady then Run_for fuel' ctx r m
            else if 0 <? result then
              match wait_timer ctx result m with
              | (Some err, m) => Some (Returns (Some err), m)
              | (None, m) => Run_for fuel' ctx r m
              end
            else Run_for fuel' ctx r m
        end
  end.

Definition Run (fuel : nat) (ctx : Context) (r : Reactor) (m : Machine)
  : option (Outcome (option GoError) * Machine) :=
  match StartMain r m with
  | (Some err, m') => Some (Returns (Some (Errorf "start main" err)), m')
  | (None, m') => Run_for fuel ctx r m'
  end.

(** [onTick()] when [onTick != nil]: host-side work between rounds. *)
Definition call_onTick (onTick : option (G -> G)) (m : Machine) : Machine :=
  match onTick with
  | Some f => mkMachine (f (guest m)) (polls m) (calls m ++ [CallOnTick])
  | None => m
  end.

(** The [for] loop of [RunWithCallback]. *)
Fixpoint RunWithCallback_for (fuel : nat) (ctx : Context)
    (onTick : option (G -> G)) (r : Reactor) (m : Machine)
  : option (Outcome (option GoError) * Machine) :=
  match fuel with
  | O => None
  | S fuel' =>
      let '(cancelled, m) := poll ctx m in
      if cancelled then Some (Returns (Some (ctx_err ctx)), m)
      else
        let m := call_onTick onTick m in
        match LoopOnce r m with
        | (Panics, m) => Some (Panics, m)
        | (Returns (_, Some err), m) =>
            Some (Returns (Some (Errorf "loop once" err)), m)
        | (Returns (result, None), m) =>
            if result =? LoopIdle then Some (Returns None, m)
            else if result =? LoopReady
            then RunWithCallback_for fuel' ctx onTick r m
            else if 0 <? result then
              match wait_timer ctx result m with
              | (Some err, m) => Some (Returns (Some err), m)
              | (None, m) => RunWithCallback_for fuel' ctx onTick r m
              end
            else RunWithCallback_for fuel' ctx onTick r m
        end
  end.

Definition RunWithCallback (fuel : nat) (ctx : Context)
    (onTick : option (G -> G)) (r : Reactor) (m : Machine)
  : option (Outcome (option GoError) * Machine) :=
  match StartMain r m with
  | (Some err, m') => Some (Returns (Some (Errorf "start main" err)), m')
  | (None, m') => RunWithCallback_for fuel ctx onTick r m'
  end.

(** The machine after a tick that left the guest in [g]. *)
Definition ticked (g : G) (m : Machine) : Machine :=
  mkMachine g (polls m) (calls m ++ [CallTick]).

(** The machine after one look at the context. *)
Definition polled (m : Machine) : Machine :=
  mkMachine (guest m) (S (polls m)) (calls m).

(** The tick entry point, called in state [g], returns [v]. *)
Definition tick_returns (r : Reactor) (g : G) (v : Z) (g' : G) : Prop :=
  exists x rest, goTick r g = ((x :: rest, None), g') /\ int32 x = v.

(** How often an event occurs in a log. *)
Definition occurrences (ev : Event) (l : list Event) : nat :=
  length (filter (fun e => e = ev) l).

End Reactor.

Arguments mkWasm {G} _ _ _ _ _ _.
Arguments wasi_instantiate {G} w.
Arguments compile_module {G} w.
Arguments instantiate_module {G} w.
Arguments exported_functions {G} w.
Arguments exported_memory {G} w.
Arguments initial {G} w.
Arguments mkReactor {G} initialize goStartMain goTick.
Arguments initialize {G} r.
Arguments goStartMain {G} r.
Arguments goTick {G} r.
Arguments mkMachine {G} guest polls calls.
Arguments guest {G} m.
Arguments polls {G} m.
Arguments calls {G} m.
Arguments log {G} ev m.
Arguments Call {G} ev f m.
Arguments poll {G} ctx m.
Arguments NewReactor {G} wasm.
Arguments StartMain {G} r m.
Arguments LoopOnce {G} r m.
Arguments wait_timer {G} ctx result m.
Arguments Run_for {G} fuel ctx r m.
Arguments Run {G} fuel ctx r m.
Arguments call_onTick {G} onTick m.
Arguments RunWithCallback_for {G} fuel ctx onTick r m.
Arguments RunWithCallback {G} fuel ctx onTick r m.
Arguments tick_returns {G} r g v g'.
Arguments ticked {G} g m.
Arguments polled {G} m.

Local Close Scope Z_scope.

End Wazero.

(* ===================================================================== *)
(** ** Guests and hosts to run the harnesses on *)
(* ===================================================================== *)

Module Scripted.

Local Open Scope Z_scope.

(** A guest that answers the successive ticks from a script and traps
    when the script is used up. *)
Definition state : Type := list Z.

Definition js_noop (g : state) : Js.Guest (Z * state) := Js.Return (0, g).
Definition js_tick (g : state) : Js.Guest (Z * state) :=
  match g with
  | v :: rest => Js.Return (v, rest)
  | [] => Js.Trap
  end.

Definition js_exports : gmap string (Js.Export state) :=
  {[ "memory"%string := Js.MemoryExport (Js.mkMemory Js.MemoryBuffer);
     "_initialize"%string := Js.FuncExport js_noop;
     "go_start_main"%string := Js.FuncExport js_noop;
     "go_tick"%string := Js.FuncExport js_tick ]}.

Definition js_module : Js.Module state := Js.mkModule true js_exports.

(** A host with [size] zero bytes of guest memory and [memory] unset. *)
Definition js_host (size : nat) : Js.Host :=
  Js.mkHost None (Js.mkHeap (repeat Byte.x00 size) []) [] [] 0 0
            (fun n => byte.of_Z (Z.of_nat n + 1)) 0.

(** The same host after [setMemory(exports.memory)]. *)
Definition js_host_ready (size : nat) : Js.Host :=
  Js.with_memory (Some (Js.mkMemory Js.MemoryBuffer)) (js_host size).

(** A memory of [size] bytes, zero but for the given writes. *)
Definition memory_with (writes : list (nat * list byte)) (size : nat)
  : list byte :=
  fold_left (fun buf w => Js.splice (fst w) (snd w) buf) writes
            (repeat Byte.x00 size).

Definition js_host_holding (writes : list (nat * list byte)) (size : nat)
  : Js.Host :=
  Js.mem_update (js_host_ready size) (memory_with writes size).

Definition js_machine (script : state) : Js.Machine state :=
  Js.mkMachine script (js_host 64) false [].

Definition shim : Js.Shim := Js.createMinimalWASI (Js.mkWasiOptions None None).

Definition js_options : Js.ReactorOptions :=
  Js.mkReactorOptions (Js.wasiImports shim) (Some Js.setMemory) None false.

Definition js_reactor : Js.Reactor state :=
  Js.mkReactor (Js.mkExports (Js.wasiImports shim) js_exports) false None.

(** A guest whose tick writes a line and then calls [proc_exit(3)];
    were the call to return, the tick would report idle. *)
Definition js_exiting_tick (g : state) : Js.Guest (Z * state) :=
  Js.Import (Js.Fd_write 1 0 0 8)
    (fun _ => Js.Import (Js.Proc_exit 3) (fun _ => Js.Return (-1, g))).

Definition js_exiting_reactor : Js.Reactor state :=
  Js.mkReactor
    (Js.mkExports (Js.wasiImports shim)
       (<["go_tick"%string := Js.FuncExport js_exiting_tick]> js_exports))
    false None.

(** A reactor over the scripted guest whose per-tick callback fails
    with [new Error("exit(3)")]. *)
Definition js_failing_callback_reactor : Js.Reactor state :=
  Js.mkReactor (Js.mkExports (Js.wasiImports shim) js_exports) false
    (Some (Js.throw (Js.ErrorObj "exit(3)"))).

(** The same guest under wazero: results are [uint64] stack values. *)
Definition go_noop : Wazero.Function state := fun g => (([], None), g).
Definition go_tick : Wazero.Function state := fun g =>
  match g with
  | v :: rest => (([v mod 2 ^ 32], None), rest)
  | [] => (([], Some (Wazero.CallError "wasm error: unreachable")), [])
  end.

Definition go_functions : gmap string (Wazero.Function state) :=
  {[ "_initialize"%string := go_noop;
     "go_start_main"%string := go_noop;
     "go_tick"%string := go_tick ]}.

Definition go_wasm (script : state) : Wazero.Wasm state :=
  Wazero.mkWasm None None None go_functions true script.

Definition go_reactor : Wazero.Reactor state :=
  Wazero.mkReactor go_noop go_noop go_tick.

Definition go_machine (script : state) : Wazero.Machine state :=
  Wazero.mkMachine script 0 [].

Local Close Scope Z_scope.

End Scripted.

(* ===================================================================== *)
(** ** The guest contract *)
(* ===================================================================== *)

Module Contract.

(** The three entry points both harnesses look up, in the order in
    which they look them up. *)
Definition required_functions : list string :=
  ["_initialize"; "go_start_main"; "go_tick"]%string.

(** [name] occurs in [msg]. *)
Fixpoint occurs_in (name msg : string) : bool :=
  String.prefix name msg
  || match msg with
     | EmptyString => false
     | String _ rest => occurs_in name rest
     end.

(** [msg] names the export [name] and no other required entry point. *)
Definition names_only (msg name : string) : bool :=
  occurs_in name msg
  && forallb (fun other => String.eqb other name || negb (occurs_in other msg))
       required_functions.

(** The first required entry point that [has] does not hold of. *)
Definition first_missing (has : string -> bool) : option string :=
  List.find (fun name => negb (has name)) required_functions.

(** What [createReactor] and [NewReactor] see of a module's functions. *)
Definition js_has {G} (wasmModule : Js.Module G) (name : string) : bool :=
  Js.is_function (Js.mkExports (fun _ => Js.ret 0%Z) (Js.module_exports wasmModule))
                 name.
Definition go_has {G} (wasm : Wazero.Wasm G) (name : string) : bool :=
  bool_decide (is_Some (Wazero.exported_functions wasm !! name)).

(** Modules to instantiate: the scripted guest without one export. *)
Definition js_module_without (name : string) : Js.Module Scripted.state :=
  Js.mkModule true (delete name Scripted.js_exports).

Definition go_wasm_without (name : string) : Wazero.Wasm Scripted.state :=
  Wazero.mkWasm None None None (delete name Scripted.go_functions) true [(-1)%Z].

Definition go_wasm_without_memory : Wazero.Wasm Scripted.state :=
  Wazero.mkWasm None None None Scripted.go_functions false [(-1)%Z].

End Contract.

(* ===================================================================== *)
(** ** What a guest reads in its memory after a call *)
(* ===================================================================== *)

Module Layout.

Local Open Scope Z_scope.

(** The 32-bit little-endian integer at [off]. *)
Definition u32_at (buf : list byte) (off : Z) : Z :=
  le_combine (Js.span (Z.to_nat off) 4 buf).

(** The bytes before the first NUL. *)
Fixpoint until_nul (bs : list byte) : list byte :=
  match bs with
  | [] => []
  | b :: rest => if Byte.eqb b Byte.x00 then [] else b :: until_nul rest
  end.

(** The NUL-terminated byte string at [ptr]. *)
Definition cstring_at (buf : list byte) (ptr : Z) : list byte :=
  until_nul (drop (Z.to_nat ptr) buf).

(** Bytes one string takes in the buffer: its encoding and a NUL. *)
Definition encoded_size (s : Js.JsString) : Z :=
  Z.of_nat (length (Js.encode s)) + 1.

Definition total_size (strs : list Js.JsString) : Z :=
  foldr (fun s acc => encoded_size s + acc) 0 strs.

(** Where the [k]-th string starts, relative to the buffer pointer. *)
Definition string_offset (strs : list Js.JsString) (k : nat) : Z :=
  total_size (take k strs).

(** The buffer after one round of the loop of [strings_get]: the
    pointer, the encoded string, the NUL. *)
Definition round_buffer (ptrs_ptr i off : Z) (s : Js.JsString)
    (buf : list byte) : list byte :=
  Js.splice (Z.to_nat (off + Z.of_nat (length (Js.encode s)))) [Byte.x00]
    (Js.splice (Z.to_nat off) (Js.encode s)
       (Js.splice (Z.to_nat (ptrs_ptr + i * 4)) (le_split 4 off) buf)).

(** Reading [n] strings back through the pointer array at [ptrs_ptr]. *)
Definition read_back (buf : list byte) (ptrs_ptr : Z) (n : nat)
  : list (list byte) :=
  map (fun i => cstring_at buf (u32_at buf (ptrs_ptr + 4 * Z.of_nat i)))
      (seq 0 n).

(** The [i]-th iovec of the array at [iovs_ptr]: pointer and length. *)
Definition iovec_ptr (buf : list byte) (iovs_ptr i : Z) : Z :=
  u32_at buf (iovs_ptr + i * 8).
Definition iovec_len (buf : list byte) (iovs_ptr i : Z) : Z :=
  u32_at buf (iovs_ptr + i * 8 + 4).

(** The memory span the [i]-th iovec refers to. *)
Definition iovec_span (buf : list byte) (iovs_ptr i : Z) : list byte :=
  Js.span (Z.to_nat (iovec_ptr buf iovs_ptr i))
          (Z.to_nat (iovec_len buf iovs_ptr i)) buf.

(** What [slice] hands over for the [i]-th iovec: the span, cut at the
    end of the memory. *)
Definition iovec_slice (buf : list byte) (iovs_ptr i : Z) : list byte :=
  Js.slice_bytes (iovec_ptr buf iovs_ptr i)
    (iovec_ptr buf iovs_ptr i + iovec_len buf iovs_ptr i) buf.

(** The text [fd_write] builds from iovecs [0 .. n): each slice decoded
    on its own, the results concatenated in order. *)
Definition iovec_text (buf : list byte) (iovs_ptr n : Z) : Js.JsString :=
  flat_map (fun i => Js.decode (iovec_slice buf iovs_ptr i)) (seqZ 0 n).

(** The concatenation of the spans of iovecs [0 .. n), in order. *)
Definition iovec_concat (buf : list byte) (iovs_ptr n : Z) : list byte :=
  flat_map (iovec_span buf iovs_ptr) (seqZ 0 n).

(** The sum of their lengths. *)
Definition iovec_total (buf : list byte) (iovs_ptr n : Z) : Z :=
  foldr (fun i acc => iovec_len buf iovs_ptr i + acc) 0 (seqZ 0 n).

Local Close Scope Z_scope.

End Layout.

(* ===================================================================== *)
(** ** The module configuration [NewReactor] builds *)
(* ===================================================================== *)

Module Setup.

(** An [io.Reader] or [io.Writer]: one of the process's own streams, or
    one the caller supplied. *)
Inductive Stream : Type :=
| OsStdin
| OsStdout
| OsStderr
| Given (id : nat).

(** [Config]; a [nil] interface or slice is [None] or [[]]. *)
Record Config : Type := mkConfig {
  Stdin : option Stream;
  Stdout : option Stream;
  Stderr : option Stream;
  Args : list string;
  Env : list string;
  FS : option nat;
}.

(** What [NewReactor] asks of [wazero.NewModuleConfig()]: the three
    streams, the arguments, the [WithEnv(key, value)] calls in the order
    they are made, and the filesystem if one is mounted. *)
Record ModuleConfig : Type := mkModuleConfig {
  with_stdin : Stream;
  with_stdout : Stream;
  with_stderr : Stream;
  with_args : list string;
  with_env : list (string * string);
  with_fs : option nat;
}.

(** The inner loop over one entry of [cfg.Env], from index [i] with
    [fuel] indices left: at the first ['='] it calls
    [WithEnv(env[:i], env[i+1:])] and breaks. *)
Fixpoint env_scan (env : string) (i fuel : nat) : option (string * string) :=
  match fuel with
  | O => None
  | S fuel' =>
      match String.get i env with
      | Some c =>
          if Ascii.eqb c "="
          then Some (String.substring 0 i env,
                     String.substring (i + 1) (String.length env - (i + 1)) env)
          else env_scan env (i + 1) fuel'
      | None => None
      end
  end.

Definition env_call (env : string) : option (string * string) :=
  env_scan env 0 (String.length env).

Definition module_config (cfg : option Config) : ModuleConfig :=
  let cfg := default (mkConfig None None None [] [] None) cfg in
  let stdin := default OsStdin (Stdin cfg) in
  let stdout := default OsStdout (Stdout cfg) in
  let stderr := default OsStderr (Stderr cfg) in
  let args := match Args cfg with
              | [] => ["reactor"%string]
              | _ => Args cfg
              end in
  mkModuleConfig stdin stdout stderr args (omap env_call (Env cfg)) (FS cfg).

End Setup.

(* ===================================================================== *)
(** ** Guests that answer a sequence of ticks *)
(* ===================================================================== *)

Module Answers.

Local Open Scope Z_scope.

(** Under wazero: started in state [g], the tick entry point returns the
    values [vs] one call after the other and leaves the guest in [g']. *)
Fixpoint go_answers {G} (r : Wazero.Reactor G) (g : G) (vs : list Z) (g' : G)
  : Prop :=
  match vs with
  | [] => g = g'
  | v :: vs' =>
      exists g1, Wazero.tick_returns r g v g1 /\ go_answers r g1 vs' g'
  end.

(** What the loop of [Run] adds to the log for the answers [vs]. *)
Definition go_round_events (v : Z) : list Wazero.Event :=
  Wazero.CallTick :: (if 0 <? v then [Wazero.TimerFired v] else []).

(** Under [runSync]: round after round the callback completes and the
    tick answers the next of [vs]; a positive answer is followed by the
    busy wait. *)
Fixpoint sync_answers {G} (r : Js.Reactor G) (m : Js.Machine G) (vs : list Z)
    (m' : Js.Machine G) : Prop :=
  match vs with
  | [] => m = m'
  | v :: vs' =>
      exists m1,
        Js.tick_answers r m v m1
        /\ sync_answers r (if 0 <? v then Js.logged (Js.BusyWait v) m1 else m1)
                        vs' m'
  end.

Definition sync_round_events {G} (r : Js.Reactor G) (v : Z) : list Js.Event :=
  Js.onTick_events r ++ Js.CallTick
    :: (if 0 <? v then [Js.BusyWait v] else []).

(** Under [runAsync]: round after round the callback completes and the
    tick answers the next of [vs]; a zero is followed by the
    [await Promise.resolve()], a positive answer by a [wait] that
    resolves. *)
Fixpoint async_answers {G} (r : Js.Reactor G) (wait : Z -> Js.JS Js.Host unit)
    (m : Js.Machine G) (vs : list Z) (m' : Js.Machine G) : Prop :=
  match vs with
  | [] => m = m'
  | v :: vs' =>
      exists m1 m2,
        Js.tick_answers r m v m1
        /\ (if v =? 0 then m2 = Js.logged Js.AwaitResolved m1
            else if 0 <? v
            then Js.on_host (wait v) (Js.logged (Js.CallWait v) m1)
                 = (Js.Normal tt, m2)
            else m2 = m1)
        /\ async_answers r wait m2 vs' m'
  end.

Definition async_round_events {G} (r : Js.Reactor G) (v : Z) : list Js.Event :=
  Js.onTick_events r ++ Js.CallTick
    :: (if v =? 0 then [Js.AwaitResolved]
        else if 0 <? v then [Js.CallWait v] else []).

End Answers.

(* ===================================================================== *)
(** ** Fields of other widths in the guest's memory *)
(* ===================================================================== *)

Module Fields.

Local Open Scope Z_scope.

(** The little-endian integer of [n] bytes at [off]. *)
Definition uint_at (n : nat) (buf : list byte) (off : Z) : Z :=
  le_combine (Js.span (Z.to_nat off) n buf).

Definition u8_at := uint_at 1.
Definition u16_at := uint_at 2.
Definition u64_at := uint_at 8.

(** The nanoseconds [clock_time_get] stores for a clock id. *)
Definition clock_value (clock_id : Z) (h : Js.Host) : Z :=
  if clock_id =? 0 then Js.date_now h * 1000000 else Js.performance_now_ns h.

End Fields.

(* ===================================================================== *)
(** ** How the calls of the shim can end *)
(* ===================================================================== *)

Module Faults.




(** Host code that, once the [memory] reference is set, leaves it as it
    is, throws nothing but [e], and returns only values in [P]. *)
Definition ends_with {A} (e : Js.Thrown) (P : A -> Prop)
    (c : Js.JS Js.Host A) : Prop :=
  forall h,
    Js.memory h <> None ->
    Js.memory (snd (c h)) = Js.memory h
    /\ match fst (c h) with
       | Js.Throw e' => e' = e
       | Js.Normal a => P a
       end.

End Faults.

(* ===================================================================== *)
(** ** The scheduler loop of the TypeScript harness *)
(* ===================================================================== *)

Section JsScheduler.

Import Js.
Local Open Scope Z_scope.

Context {G : Type}.
Variable r : Reactor G.

Ltac round_of H :=
  destruct H as (m1 & Hcb & Htick);
  unfold runAsync_round, runSync_round, bind;
  rewrite Hcb, Htick.

Lemma runAsync_round_idle wait m m' :
  tick_answers r m (-1) m' -> runAsync_round r wait m = (Normal Leave, m').
Proof. intros H. round_of H. reflexivity. Qed.

Lemma runAsync_round_ready wait m m' :
  tick_answers r m 0 m' ->
  runAsync_round r wait m = (Normal Again, logged AwaitResolved m').
Proof. intros H. round_of H. reflexivity. Qed.

Lemma runAsync_round_timer wait v m m' m'' :
  0 < v ->
  tick_answers r m v m' ->
  on_host (wait v) (logged (CallWait v) m') = (Normal tt, m'') ->
  runAsync_round r wait m = (Normal Again, m'').
Proof.
  intros Hv H Hw. round_of H.
  destruct (Z.eqb_spec v (-1)); [lia|].
  destruct (Z.eqb_spec v 0); [lia|].
  destruct (Z.ltb_spec 0 v); [|lia].
  unfold log, modify; simpl. rewrite Hw. reflexivity.
Qed.

Lemma runAsync_round_other wait v m m' :
  v < 0 -> v <> -1 ->
  tick_answers r m v m' ->
  runAsync_round r wait m = (Normal Again, m').
Proof.
  intros Hv Hv' H. round_of H.
  destruct (Z.eqb_spec v (-1)); [lia|].
  destruct (Z.eqb_spec v 0); [lia|].
  destruct (Z.ltb_spec 0 v); [lia|].
  reflexivity.
Qed.

Lemma runSync_round_idle m m' :
  tick_answers r m (-1) m' -> runSync_round r m = (Normal Leave, m').
Proof. intros H. round_of H. reflexivity. Qed.

Lemma runSync_round_other v m m' :
  v < 0 -> v <> -1 ->
  tick_answers r m v m' ->
  runSync_round r m = (Normal Again, m').
Proof.
  intros Hv Hv' H. round_of H.
  destruct (Z.eqb_spec v (-1)); [lia|].
  destruct (Z.ltb_spec 0 v); [lia|].
  reflexivity.
Qed.

(** A round that throws ends the loop with that exception. *)
Lemma while_true_throw {S} (body : JS S Round) fuel s e s' :
  body s = (Throw e, s') ->
  while_true (Datatypes.S fuel) body s = Some (Throw e, s').
Proof. intros H. simpl. rewrite H. reflexivity. Qed.

Lemma while_true_again {S} (body : JS S Round) fuel s s' :
  body s = (Normal Again, s') ->
  while_true (Datatypes.S fuel) body s = while_true fuel body s'.
Proof. intros H. simpl. rewrite H. reflexivity. Qed.

Lemma while_true_leave {S} (body : JS S Round) fuel s s' :
  body s = (Normal Leave, s') ->
  while_true (Datatypes.S fuel) body s = Some (Normal tt, s').
Proof. intros H. simpl. rewrite H. reflexivity. Qed.

(** What the pieces of a round add to the log. *)
Lemma on_host_calls {A} (c : JS Host A) (m : Machine G) :
  calls (snd (on_host c m)) = calls m.
Proof. unfold on_host. destruct (c (host m)); reflexivity. Qed.

Lemma call_export_calls (e : Exports G) name (m : Machine G) :
  calls (snd (call_export e name m)) = calls m.
Proof.
  unfold call_export. destruct (props e !! name) as [[body| |]|]; try reflexivity.
  destruct (run_guest _ _ _) as [[[v g]|ex] h]; reflexivity.
Qed.

Lemma loopOnce_calls (m : Machine G) :
  calls (snd (loopOnce r m)) = calls m ++ [CallTick].
Proof.
  unfold loopOnce, bind, log, modify.
  pose proof (call_export_calls (exports r) "go_tick" (logged CallTick m)) as H.
  destruct (call_export _ _ _) as [[v|e] m']; exact H.
Qed.

Lemma call_onTick_calls (m : Machine G) :
  calls (snd (call_onTick r m)) = calls m ++ onTick_events r.
Proof.
  unfold call_onTick, onTick_events. destruct (onTick r) as [f|]; simpl.
  - unfold bind, log, modify.
    pose proof (on_host_calls f (logged CallOnTick m)) as H.
    destruct (on_host f _) as [[v|e] m']; exact H.
  - symmetry. apply app_nil_r.
Qed.

Lemma tick_answers_calls m v m' :
  tick_answers r m v m' -> calls m' = calls m ++ onTick_events r ++ [CallTick].
Proof.
  intros (m1 & Hcb & Htick).
  pose proof (call_onTick_calls m) as H1. rewrite Hcb in H1.
  pose proof (loopOnce_calls m1) as H2. rewrite Htick in H2.
  simpl in *. rewrite H2, H1, <- app_assoc. reflexivity.
Qed.

End JsScheduler.

(* ===================================================================== *)
(** ** The scheduler loop of the Go harness *)
(* ===================================================================== *)

Section GoScheduler.

Import Wazero.
Local Open Scope Z_scope.

Context {G : Type}.
Variable r : Reactor G.
Variable ctx : Context.

Lemma LoopOnce_returns m v g' :
  tick_returns r (guest m) v g' ->
  LoopOnce r m = (Returns (v, None), ticked g' m).
Proof.
  intros (x & rest & Hx & Hv). unfold LoopOnce, Call.
  rewrite Hx, Hv. reflexivity.
Qed.

Lemma Run_for_idle fuel m g' :
  done ctx (polls m) = false ->
  tick_returns r (guest m) (-1) g' ->
  Run_for (S fuel) ctx r m = Some (Returns None, ticked g' (polled m)).
Proof.
  intros Hd Ht. simpl. unfold poll. rewrite Hd. fold (polled m).
  rewrite (LoopOnce_returns (polled m) (-1) g' Ht). reflexivity.
Qed.

Lemma Run_for_ready fuel m g' :
  done ctx (polls m) = false ->
  tick_returns r (guest m) 0 g' ->
  Run_for (S fuel) ctx r m = Run_for fuel ctx r (ticked g' (polled m)).
Proof.
  intros Hd Ht. simpl. unfold poll. rewrite Hd. fold (polled m).
  rewrite (LoopOnce_returns (polled m) 0 g' Ht). reflexivity.
Qed.

Lemma Run_for_timer fuel m v g' :
  0 < v ->
  done ctx (polls m) = false ->
  done ctx (S (polls m)) = false ->
  tick_returns r (guest m) v g' ->
  Run_for (S fuel) ctx r m
  = Run_for fuel ctx r (log (TimerFired v) (polled (ticked g' (polled m)))).
Proof.
  intros Hv Hd Hd' Ht. simpl. unfold poll. rewrite Hd. fold (polled m).
  rewrite (LoopOnce_returns (polled m) v g' Ht).
  destruct (Z.eqb_spec v LoopIdle); [unfold LoopIdle in *; lia|].
  destruct (Z.eqb_spec v LoopReady); [unfold LoopReady in *; lia|].
  destruct (Z.ltb_spec 0 v); [|lia].
  unfold wait_timer, poll. simpl. rewrite Hd'. reflexivity.
Qed.

Lemma Run_for_other fuel m v g' :
  v < 0 -> v <> -1 ->
  done ctx (polls m) = false ->
  tick_returns r (guest m) v g' ->
  Run_for (S fuel) ctx r m = Run_for fuel ctx r (ticked g' (polled m)).
Proof.
  intros Hv Hv' Hd Ht. simpl. unfold poll. rewrite Hd. fold (polled m).
  rewrite (LoopOnce_returns (polled m) v g' Ht).
  destruct (Z.eqb_spec v LoopIdle); [unfold LoopIdle in *; lia|].
  destruct (Z.eqb_spec v LoopReady); [unfold LoopReady in *; lia|].
  destruct (Z.ltb_spec 0 v); [lia|]. reflexivity.
Qed.

Lemma RunWithCallback_for_other fuel onTick m v g' :
  v < 0 -> v <> -1 ->
  done ctx (polls m) = false ->
  tick_returns r (guest (call_onTick onTick m)) v g' ->
  RunWithCallback_for (S fuel) ctx onTick r m
  = RunWithCallback_for fuel ctx onTick r
      (ticked g' (call_onTick onTick (polled m))).
Proof.
  intros Hv Hv' Hd Ht. simpl. unfold poll. rewrite Hd.
  fold (polled m).
  assert (Hg : guest (call_onTick onTick (polled m))
               = guest (call_onTick onTick m))
    by (destruct onTick; reflexivity).
  rewrite <- Hg in Ht.
  rewrite (LoopOnce_returns _ v g' Ht).
  destruct (Z.eqb_spec v LoopIdle); [unfold LoopIdle in *; lia|].
  destruct (Z.eqb_spec v LoopReady); [unfold LoopReady in *; lia|].
  destruct (Z.ltb_spec 0 v); [lia|]. reflexivity.
Qed.

End GoScheduler.

(* ===================================================================== *)
(** ** Tick results and the four loops *)
(* ===================================================================== *)

Section TickProtocol.

Local Open Scope Z_scope.

(** Claim C1, as the code has it.  A tick result that is negative and not
    [-1] matches no branch of [runSync], [runAsync], [Run] or
    [RunWithCallback]: the round ends without an error and without a
    wait, and the loop starts its next round (in Go after the
    cancellation check at the top of the round) from the state the tick
    left, so the tick entry point is invoked again. *)
Theorem invalid_tick_result_starts_next_round
    {GJ : Type} (rj : Js.Reactor GJ) (wait : Z -> Js.JS Js.Host unit)
    (mj mj' : Js.Machine GJ)
    {GG : Type} (rg : Wazero.Reactor GG) (ctx : Wazero.Context)
    (onTick : option (GG -> GG)) (mg : Wazero.Machine GG) (g' g'' : GG)
    (v : Z) (fuel : nat) :
  v < 0 -> v <> -1 ->
  Js.tick_answers rj mj v mj' ->
  Wazero.done ctx (Wazero.polls mg) = false ->
  Wazero.tick_returns rg (Wazero.guest mg) v g' ->
  Wazero.tick_returns rg (Wazero.guest (Wazero.call_onTick onTick mg)) v g'' ->
  Js.while_true (S fuel) (Js.runSync_round rj) mj
    = Js.while_true fuel (Js.runSync_round rj) mj'
  /\ Js.while_true (S fuel) (Js.runAsync_round rj wait) mj
    = Js.while_true fuel (Js.runAsync_round rj wait) mj'
  /\ Wazero.Run_for (S fuel) ctx rg mg
    = Wazero.Run_for fuel ctx rg (Wazero.ticked g' (Wazero.polled mg))
  /\ Wazero.RunWithCallback_for (S fuel) ctx onTick rg mg
    = Wazero.RunWithCallback_for fuel ctx onTick rg
        (Wazero.ticked g'' (Wazero.call_onTick onTick (Wazero.polled mg))).
Proof.
  intros Hneg Hne Hj Hd Hg Hg'. repeat split.
  - apply while_true_again. eapply runSync_round_other; eauto.
  - apply while_true_again. eapply runAsync_round_other; eauto.
  - eapply Run_for_other; eauto.
  - eapply RunWithCallback_for_other; eauto.
Qed.

Lemma scripted_js_tick_answers v rest calls0 :
  Js.tick_answers Scripted.js_reactor
    (Js.mkMachine (v :: rest) (Scripted.js_host 64) true calls0) v
    (Js.mkMachine rest (Scripted.js_host 64) true (calls0 ++ [Js.CallTick])).
Proof. eexists. split; reflexivity. Qed.

Lemma scripted_go_tick_returns v rest :
  - 2 ^ 31 <= v < 2 ^ 31 ->
  Wazero.tick_returns Scripted.go_reactor (v :: rest) v rest.
Proof.
  intros Hv. exists (v mod 2 ^ 32), []. split; [reflexivity|].
  unfold Wazero.int32.
  destruct (Z_lt_le_dec v 0).
  - rewrite <- (Z.mod_add v 1 (2 ^ 32)) by lia.
    rewrite (Z.mod_small (v + 1 * 2 ^ 32)) by lia.
    replace (v + 1 * 2 ^ 32 + 2 ^ 31) with (v + 2 ^ 31 + 1 * 2 ^ 32) by lia.
    rewrite Z.mod_add by lia. rewrite Z.mod_small by lia. lia.
  - rewrite (Z.mod_small v) by lia. rewrite Z.mod_small by lia. lia.
Qed.

Lemma invalid_tick_result_starts_next_round_witness :
  let mj := Js.mkMachine [-2; -1] (Scripted.js_host 64) true [Js.CallStartMain] in
  let mj' := Js.mkMachine [-1] (Scripted.js_host 64) true
               [Js.CallStartMain; Js.CallTick] in
  let mg := Wazero.mkMachine [-2; -1] 0 [Wazero.CallStartMain] in
  (-2 < 0 /\ -2 <> -1
   /\ Js.tick_answers Scripted.js_reactor mj (-2) mj'
   /\ Wazero.done Wazero.Background (Wazero.polls mg) = false
   /\ Wazero.tick_returns Scripted.go_reactor (Wazero.guest mg) (-2) [-1])
  /\ Js.while_true 2 (Js.runSync_round Scripted.js_reactor) mj
    = Js.while_true 1 (Js.runSync_round Scripted.js_reactor) mj'
  /\ Js.while_true 2 (Js.runAsync_round Scripted.js_reactor Js.default_wait) mj
    = Js.while_true 1 (Js.runAsync_round Scripted.js_reactor Js.default_wait) mj'
  /\ Wazero.Run_for 2 Wazero.Background Scripted.go_reactor mg
    = Wazero.Run_for 1 Wazero.Background Scripted.go_reactor
        (Wazero.ticked [-1] (Wazero.polled mg))
  /\ Wazero.RunWithCallback_for 2 Wazero.Background None Scripted.go_reactor mg
    = Wazero.RunWithCallback_for 1 Wazero.Background None Scripted.go_reactor
        (Wazero.ticked [-1] (Wazero.call_onTick None (Wazero.polled mg))).
Proof.
  intros mj mj' mg.
  assert (H1 : -2 < 0) by lia.
  assert (H2 : -2 <> -1) by lia.
  assert (H3 : Js.tick_answers Scripted.js_reactor mj (-2) mj')
    by (eexists; split; reflexivity).
  assert (H4 : Wazero.done Wazero.Background (Wazero.polls mg) = false)
    by reflexivity.
  assert (H5 : Wazero.tick_returns Scripted.go_reactor (Wazero.guest mg) (-2) [-1])
    by (exists 4294967294, []; split; reflexivity).
  exact (conj (conj H1 (conj H2 (conj H3 (conj H4 H5))))
           (invalid_tick_result_starts_next_round
              Scripted.js_reactor Js.default_wait mj mj'
              Scripted.go_reactor Wazero.Background None mg [-1] [-1] (-2) 1
              H1 H2 H3 H4 H5 H5)).
Defined.

(** Claim C1 fails on the code: a guest whose first tick returns [-2] and
    whose second returns [-1] is run to a successful end by all four
    loops, with the tick entry point invoked twice and no error. *)
Lemma tick_result_minus_two_is_not_fatal :
  Wazero.tick_returns Scripted.go_reactor [-2; -1] (-2) [-1]
  /\ Wazero.Run 9 Wazero.Background Scripted.go_reactor
       (Scripted.go_machine [-2; -1])
     = Some (Wazero.Returns None,
             Wazero.mkMachine [] 2
               [Wazero.CallStartMain; Wazero.CallTick; Wazero.CallTick])
  /\ Wazero.RunWithCallback 9 Wazero.Background None Scripted.go_reactor
       (Scripted.go_machine [-2; -1])
     = Some (Wazero.Returns None,
             Wazero.mkMachine [] 2
               [Wazero.CallStartMain; Wazero.CallTick; Wazero.CallTick])
  /\ Js.runSync Scripted.js_reactor 9 (Scripted.js_machine [-2; -1])
     = Some (Js.Normal tt,
             Js.mkMachine [] (Scripted.js_host 64) true
               [Js.CallStartMain; Js.CallTick; Js.CallTick])
  /\ Js.runAsync Scripted.js_reactor Js.default_wait 9
       (Scripted.js_machine [-2; -1])
     = Some (Js.Normal tt,
             Js.mkMachine [] (Scripted.js_host 64) true
               [Js.CallStartMain; Js.CallTick; Js.CallTick]).
Proof.
  split; [apply scripted_go_tick_returns; lia|].
  repeat split; reflexivity.
Qed.

End TickProtocol.

(* ===================================================================== *)
(** ** The tick sequence 0, 0, 5, -1 *)
(* ===================================================================== *)

Section TickSequence.

Local Open Scope Z_scope.

Lemma startMain_calls {G} (r : Js.Reactor G) m m' :
  Js.startMain r m = (Js.Normal tt, m') ->
  Js.calls m' = Js.calls m
                ++ (if Js.mainStarted m then [] else [Js.CallStartMain]).
Proof.
  unfold Js.startMain, Js.bind, Js.get. destruct (Js.mainStarted m) eqn:Hs.
  - unfold Js.ret. intros [= <-]. symmetry. apply app_nil_r.
  - unfold Js.log, Js.modify, Js.set_mainStarted, Js.modify.
    pose proof (call_export_calls (Js.exports r) "go_start_main"
                  (Js.logged Js.CallStartMain m)) as H.
    destruct (Js.call_export _ _ _) as [[v|e] m1]; [|discriminate].
    intros [= <-]. exact H.
Qed.

Lemma occurrences_app (ev : Js.Event) l1 l2 :
  Js.occurrences ev (l1 ++ l2) = (Js.occurrences ev l1 + Js.occurrences ev l2)%nat.
Proof. unfold Js.occurrences. rewrite filter_app, length_app. reflexivity. Qed.

Lemma go_occurrences_app (ev : Wazero.Event) l1 l2 :
  Wazero.occurrences ev (l1 ++ l2)
  = (Wazero.occurrences ev l1 + Wazero.occurrences ev l2)%nat.
Proof. unfold Wazero.occurrences. rewrite filter_app, length_app. reflexivity. Qed.

(** Claim C2.  A guest whose successive ticks return 0, 0, 5 and -1 is
    run to completion by [runAsync] and by [Run] with exactly four
    invocations of the tick entry point: the next tick follows each 0 at
    once ([runAsync] passes one [await Promise.resolve()]), the 5 is
    followed by one wait of 5 milliseconds, and after the -1 the run
    returns successfully and the log ends with that fourth tick. *)
Theorem tick_sequence_0_0_5_idle
    {GJ : Type} (rj : Js.Reactor GJ) (wait : Z -> Js.JS Js.Host unit)
    (m0 m1 m2 m3 m4 m5 m6 : Js.Machine GJ)
    {GG : Type} (rg : Wazero.Reactor GG) (ctx : Wazero.Context)
    (mg : Wazero.Machine GG) (rs : list Z) (g1 g2 g3 g4 g5 : GG)
    (extra : nat) :
  Js.startMain rj m0 = (Js.Normal tt, m1) ->
  Js.tick_answers rj m1 0 m2 ->
  Js.tick_answers rj (Js.logged Js.AwaitResolved m2) 0 m3 ->
  Js.tick_answers rj (Js.logged Js.AwaitResolved m3) 5 m4 ->
  Js.on_host (wait 5) (Js.logged (Js.CallWait 5) m4) = (Js.Normal tt, m5) ->
  Js.tick_answers rj m5 (-1) m6 ->
  (forall n, Wazero.done ctx n = false) ->
  Wazero.goStartMain rg (Wazero.guest mg) = ((rs, None), g1) ->
  Wazero.tick_returns rg g1 0 g2 ->
  Wazero.tick_returns rg g2 0 g3 ->
  Wazero.tick_returns rg g3 5 g4 ->
  Wazero.tick_returns rg g4 (-1) g5 ->
  let cb := Js.onTick_events rj in
  Js.runAsync rj wait (4 + extra) m0 = Some (Js.Normal tt, m6)
  /\ Js.calls m6
     = Js.calls m1
       ++ cb ++ [Js.CallTick; Js.AwaitResolved]
       ++ cb ++ [Js.CallTick; Js.AwaitResolved]
       ++ cb ++ [Js.CallTick; Js.CallWait 5]
       ++ cb ++ [Js.CallTick]
  /\ Js.occurrences Js.CallTick (Js.calls m6)
     = (Js.occurrences Js.CallTick (Js.calls m0) + 4)%nat
  /\ Wazero.Run (4 + extra) ctx rg mg
     = Some (Wazero.Returns None,
             Wazero.mkMachine g5 (Wazero.polls mg + 5)
               (Wazero.calls mg
                ++ [Wazero.CallStartMain; Wazero.CallTick; Wazero.CallTick;
                    Wazero.CallTick; Wazero.TimerFired 5; Wazero.CallTick]))
  /\ Wazero.occurrences Wazero.CallTick
       (Wazero.calls mg
        ++ [Wazero.CallStartMain; Wazero.CallTick; Wazero.CallTick;
            Wazero.CallTick; Wazero.TimerFired 5; Wazero.CallTick])
     = (Wazero.occurrences Wazero.CallTick (Wazero.calls mg) + 4)%nat.
Proof.
  intros Hs T1 T2 T3 Hw T4 Hd Gs U1 U2 U3 U4 cb.
  assert (Hcalls : Js.calls m6
     = Js.calls m1
       ++ cb ++ [Js.CallTick; Js.AwaitResolved]
       ++ cb ++ [Js.CallTick; Js.AwaitResolved]
       ++ cb ++ [Js.CallTick; Js.CallWait 5]
       ++ cb ++ [Js.CallTick]).
  { rewrite (tick_answers_calls rj _ _ _ T4).
    pose proof (on_host_calls (wait 5) (Js.logged (Js.CallWait 5) m4)) as H5.
    rewrite Hw in H5. simpl in H5. rewrite H5.
    rewrite (tick_answers_calls rj _ _ _ T3). simpl.
    rewrite (tick_answers_calls rj _ _ _ T2). simpl.
    rewrite (tick_answers_calls rj _ _ _ T1).
    fold cb. repeat rewrite <- app_assoc. reflexivity. }
  split; [|split; [exact Hcalls|split; [|split]]].
  - unfold Js.runAsync, Js.then_loop. rewrite Hs.
    change (4 + extra)%nat with (S (S (S (S extra)))).
    rewrite (while_true_again _ _ _ _ (runAsync_round_ready rj wait _ _ T1)).
    rewrite (while_true_again _ _ _ _ (runAsync_round_ready rj wait _ _ T2)).
    rewrite (while_true_again _ _ _ _
               (runAsync_round_timer rj wait 5 _ _ _ eq_refl T3 Hw)).
    apply while_true_leave. apply runAsync_round_idle. exact T4.
  - rewrite Hcalls, (startMain_calls rj _ _ Hs).
    repeat rewrite occurrences_app.
    assert (Hcb : Js.occurrences Js.CallTick cb = 0%nat)
      by (unfold cb, Js.onTick_events; destruct (Js.onTick rj); reflexivity).
    rewrite Hcb.
    assert (Hst : Js.occurrences Js.CallTick
              (if Js.mainStarted m0 then [] else [Js.CallStartMain]) = 0%nat)
      by (destruct (Js.mainStarted m0); reflexivity).
    rewrite Hst.
    repeat match goal with
    | |- context [Js.occurrences ?e (?a :: ?l)] =>
        let n := eval vm_compute in (Js.occurrences e (a :: l)) in
        change (Js.occurrences e (a :: l)) with n
    end.
    lia.
  - unfold Wazero.Run, Wazero.StartMain, Wazero.Call. rewrite Gs.
    change (4 + extra)%nat with (S (S (S (S extra)))).
    rewrite (Run_for_ready rg ctx _ _ g2) by (auto using Hd).
    rewrite (Run_for_ready rg ctx _ _ g3) by (auto using Hd).
    rewrite (Run_for_timer rg ctx _ _ 5 g4) by (auto using Hd; lia).
    rewrite (Run_for_idle rg ctx _ _ g5) by (auto using Hd).
    unfold Wazero.ticked, Wazero.polled, Wazero.log. simpl.
    repeat rewrite <- app_assoc. simpl.
    do 3 f_equal. lia.
  - rewrite go_occurrences_app. reflexivity.
Qed.

Lemma tick_sequence_0_0_5_idle_witness :
  let rj := Scripted.js_reactor in
  let h := Scripted.js_host 64 in
  let m0 := Scripted.js_machine [0; 0; 5; -1] in
  let m1 := Js.mkMachine [0; 0; 5; -1] h true [Js.CallStartMain] in
  let m2 := Js.mkMachine [0; 5; -1] h true [Js.CallStartMain; Js.CallTick] in
  let m3 := Js.mkMachine [5; -1] h true
              [Js.CallStartMain; Js.CallTick; Js.AwaitResolved; Js.CallTick] in
  let m4 := Js.mkMachine [-1] h true
              [Js.CallStartMain; Js.CallTick; Js.AwaitResolved; Js.CallTick;
               Js.AwaitResolved; Js.CallTick] in
  let m5 := Js.logged (Js.CallWait 5) m4 in
  let m6 := Js.mkMachine [] h true
              [Js.CallStartMain; Js.CallTick; Js.AwaitResolved; Js.CallTick;
               Js.AwaitResolved; Js.CallTick; Js.CallWait 5; Js.CallTick] in
  let rg := Scripted.go_reactor in
  let mg := Scripted.go_machine [0; 0; 5; -1] in
  (Js.startMain rj m0 = (Js.Normal tt, m1)
   /\ Js.tick_answers rj m1 0 m2
   /\ Js.tick_answers rj (Js.logged Js.AwaitResolved m2) 0 m3
   /\ Js.tick_answers rj (Js.logged Js.AwaitResolved m3) 5 m4
   /\ Js.on_host (Js.default_wait 5) (Js.logged (Js.CallWait 5) m4)
      = (Js.Normal tt, m5)
   /\ Js.tick_answers rj m5 (-1) m6
   /\ (forall n, Wazero.done Wazero.Background n = false)
   /\ Wazero.goStartMain rg (Wazero.guest mg) = (([], None), [0; 0; 5; -1])
   /\ Wazero.tick_returns rg [0; 0; 5; -1] 0 [0; 5; -1]
   /\ Wazero.tick_returns rg [0; 5; -1] 0 [5; -1]
   /\ Wazero.tick_returns rg [5; -1] 5 [-1]
   /\ Wazero.tick_returns rg [-1] (-1) [])
  /\ Js.runAsync rj Js.default_wait 4 m0 = Some (Js.Normal tt, m6)
  /\ Js.occurrences Js.CallTick (Js.calls m6) = 4%nat
  /\ Wazero.Run 4 Wazero.Background rg mg
     = Some (Wazero.Returns None,
             Wazero.mkMachine [] 5
               [Wazero.CallStartMain; Wazero.CallTick; Wazero.CallTick;
                Wazero.CallTick; Wazero.TimerFired 5; Wazero.CallTick]).
Proof.
  intros rj h m0 m1 m2 m3 m4 m5 m6 rg mg.
  assert (H1 : Js.startMain rj m0 = (Js.Normal tt, m1)) by reflexivity.
  assert (H2 : Js.tick_answers rj m1 0 m2) by (eexists; split; reflexivity).
  assert (H3 : Js.tick_answers rj (Js.logged Js.AwaitResolved m2) 0 m3)
    by (eexists; split; reflexivity).
  assert (H4 : Js.tick_answers rj (Js.logged Js.AwaitResolved m3) 5 m4)
    by (eexists; split; reflexivity).
  assert (H5 : Js.on_host (Js.default_wait 5) (Js.logged (Js.CallWait 5) m4)
               = (Js.Normal tt, m5)) by reflexivity.
  assert (H6 : Js.tick_answers rj m5 (-1) m6) by (eexists; split; reflexivity).
  assert (H7 : forall n, Wazero.done Wazero.Background n = false)
    by (intros n; reflexivity).
  assert (H8 : Wazero.goStartMain rg (Wazero.guest mg)
               = (([], None), [0; 0; 5; -1])) by reflexivity.
  assert (H9 : Wazero.tick_returns rg [0; 0; 5; -1] 0 [0; 5; -1])
    by (exists 0, []; split; reflexivity).
  assert (H10 : Wazero.tick_returns rg [0; 5; -1] 0 [5; -1])
    by (exists 0, []; split; reflexivity).
  assert (H11 : Wazero.tick_returns rg [5; -1] 5 [-1])
    by (exists 5, []; split; reflexivity).
  assert (H12 : Wazero.tick_returns rg [-1] (-1) [])
    by (exists 4294967295, []; split; reflexivity).
  pose proof (tick_sequence_0_0_5_idle rj Js.default_wait m0 m1 m2 m3 m4 m5 m6
                rg Wazero.Background mg [] _ _ _ _ _ 0
                H1 H2 H3 H4 H5 H6 H7 H8 H9 H10 H11 H12)
    as (R1 & _ & R3 & R4 & _).
  split; [repeat split; assumption|].
  split; [exact R1|]. split; [exact R3|]. exact R4.
Defined.

End TickSequence.

(* ===================================================================== *)
(** ** Instantiation and the required exports *)
(* ===================================================================== *)

Section GuestContract.

Import Contract.

Lemma first_missing_cases (has : string -> bool) name :
  first_missing has = Some name ->
  (name = "_initialize"%string /\ has "_initialize"%string = false)
  \/ (name = "go_start_main"%string /\ has "_initialize"%string = true
      /\ has "go_start_main"%string = false)
  \/ (name = "go_tick"%string /\ has "_initialize"%string = true
      /\ has "go_start_main"%string = true /\ has "go_tick"%string = false).
Proof.
  unfold first_missing, required_functions. simpl.
  destruct (has "_initialize"%string) eqn:E1; simpl;
    [|intros [= <-]; left; auto].
  destruct (has "go_start_main"%string) eqn:E2; simpl;
    [|intros [= <-]; right; left; auto].
  destruct (has "go_tick"%string) eqn:E3; simpl;
    [discriminate|intros [= <-]; right; right; auto].
Qed.

Lemma first_missing_none (has : string -> bool) :
  first_missing has = None ->
  has "_initialize"%string = true /\ has "go_start_main"%string = true
  /\ has "go_tick"%string = true.
Proof.
  unfold first_missing, required_functions. simpl.
  destruct (has "_initialize"%string); simpl; [|discriminate].
  destruct (has "go_start_main"%string); simpl; [|discriminate].
  destruct (has "go_tick"%string); simpl; [auto|discriminate].
Qed.

Lemma go_has_true {G} (w : Wazero.Wasm G) name :
  go_has w name = true -> exists f, Wazero.exported_functions w !! name = Some f.
Proof.
  unfold go_has. intros H. apply bool_decide_eq_true in H.
  destruct H as [f Hf]. eauto.
Qed.

Lemma go_has_false {G} (w : Wazero.Wasm G) name :
  go_has w name = false -> Wazero.exported_functions w !! name = None.
Proof.
  unfold go_has. intros H. apply bool_decide_eq_false in H.
  destruct (Wazero.exported_functions w !! name) eqn:E; [|reflexivity].
  exfalso. apply H. eauto.
Qed.

Lemma bind_eq_normal {S A B} (c : Js.JS S A) (k : A -> Js.JS S B) s a s' :
  c s = (Js.Normal a, s') -> Js.bind c k s = k a s'.
Proof. intros H. unfold Js.bind. rewrite H. reflexivity. Qed.

(** Code that only appends to the log of calls. *)
Lemma bind_grows {G A B} (c : Js.JS (Js.Machine G) A)
    (k : A -> Js.JS (Js.Machine G) B) :
  (forall m, Js.calls m `prefix_of` Js.calls (snd (c m))) ->
  (forall a m, Js.calls m `prefix_of` Js.calls (snd (k a m))) ->
  forall m, Js.calls m `prefix_of` Js.calls (snd (Js.bind c k m)).
Proof.
  intros Hc Hk m. unfold Js.bind. specialize (Hc m).
  destruct (c m) as [[a|e] m']; simpl in *; [|exact Hc].
  etransitivity; [exact Hc|apply Hk].
Qed.

Lemma call_export_grows {G} (e : Js.Exports G) name m :
  Js.calls m `prefix_of` Js.calls (snd (Js.call_export e name m)).
Proof. rewrite call_export_calls. reflexivity. Qed.

Lemma logged_event_stays {G A} ev (rest : Js.JS (Js.Machine G) A) m :
  (forall m, Js.calls m `prefix_of` Js.calls (snd (rest m))) ->
  ev ∈ Js.calls (snd (Js.bind (Js.log ev) (fun _ => rest) m)).
Proof.
  intros Hrest. unfold Js.bind, Js.log, Js.modify.
  destruct (Hrest (Js.logged ev m)) as [l Hl]. rewrite Hl.
  unfold Js.logged. simpl. set_solver.
Qed.

(** Claim C3, as the code has it.  For each of the three required
    function exports ([_initialize], [go_start_main], [go_tick]):
    instantiating a module in which it is the first one missing fails
    with an error whose message names that export and no other, and the
    initializer is not invoked (the JS machine is untouched; the Go log
    holds only the closing of the module).  The memory export is not
    among the checks: with the three functions present and no memory
    exported, both harnesses go on to invoke the initializer (the JS
    harness after a [setMemory] callback that returns). *)
Theorem missing_entry_point_fails_instantiation
    {GJ : Type} (wasmModule : Js.Module GJ) (options : Js.ReactorOptions)
    (m : Js.Machine GJ)
    {GG : Type} (wasm : Wazero.Wasm GG) :
  Js.links wasmModule = true ->
  Wazero.wasi_instantiate wasm = None ->
  Wazero.compile_module wasm = None ->
  Wazero.instantiate_module wasm = None ->
  (forall name, first_missing (js_has wasmModule) = Some name ->
     exists msg,
       Js.createReactor wasmModule options m = (Js.Throw (Js.ErrorObj msg), m)
       /\ names_only msg name = true)
  /\ (forall name, first_missing (go_has wasm) = Some name ->
     exists msg,
       Wazero.NewReactor wasm
       = ((None, Some (Wazero.ErrorsNew msg)),
          Wazero.mkMachine (Wazero.initial wasm) 0 [Wazero.ModClose])
       /\ names_only msg name = true)
  /\ (first_missing (js_has wasmModule) = None ->
      Js.module_exports wasmModule !! "memory"%string = None ->
      (forall f mem h, Js.opt_setMemory options = Some f ->
                       exists h', f mem h = (Js.Normal tt, h')) ->
      Js.CallInitialize ∈ Js.calls (snd (Js.createReactor wasmModule options m)))
  /\ (first_missing (go_has wasm) = None ->
      Wazero.exported_memory wasm = false ->
      Wazero.CallInitialize ∈ Wazero.calls (snd (Wazero.NewReactor wasm))).
Proof.
  intros Hlinks Hw Hc Hi. repeat split.
  - intros name Hm. apply first_missing_cases in Hm.
    unfold js_has, Js.is_function in Hm. simpl in Hm.
    unfold Js.createReactor, Js.bind, Js.instantiate. rewrite Hlinks.
    unfold Js.ret at 1. unfold Js.is_function. simpl.
    destruct Hm as [(-> & E1)|[(-> & E1 & E2)|(-> & E1 & E2 & E3)]].
    + rewrite E1. simpl. eexists. split; reflexivity.
    + rewrite E1, E2. simpl. eexists. split; reflexivity.
    + rewrite E1, E2, E3. simpl. eexists. split; reflexivity.
  - intros name Hm. apply first_missing_cases in Hm.
    unfold Wazero.NewReactor. rewrite Hw, Hc, Hi.
    destruct Hm as [(-> & E1)|[(-> & E1 & E2)|(-> & E1 & E2 & E3)]].
    + rewrite (go_has_false _ _ E1). eexists. split; reflexivity.
    + destruct (go_has_true _ _ E1) as [f1 ->].
      rewrite (go_has_false _ _ E2). eexists. split; reflexivity.
    + destruct (go_has_true _ _ E1) as [f1 ->].
      destruct (go_has_true _ _ E2) as [f2 ->].
      rewrite (go_has_false _ _ E3). eexists. split; reflexivity.
  - intros Hm Hmem Hset. apply first_missing_none in Hm.
    destruct Hm as (E1 & E2 & E3).
    set (e := Js.mkExports (Js.opt_wasiImports options)
                (Js.module_exports wasmModule)).
    assert (F1 : Js.is_function e "_initialize" = true) by exact E1.
    assert (F2 : Js.is_function e "go_start_main" = true) by exact E2.
    assert (F3 : Js.is_function e "go_tick" = true) by exact E3.
    unfold Js.createReactor. unfold Js.bind at 1.
    unfold Js.instantiate. rewrite Hlinks. unfold Js.ret at 1.
    fold e. rewrite F1, F2, F3. cbv [negb].
    assert (Hpre : exists m',
               match Js.opt_setMemory options with
               | Some setMemory =>
                   Js.bind (Js.log Js.CallSetMemory)
                     (fun _ => Js.on_host (setMemory (Js.exports_memory e)))
               | None => Js.ret tt
               end m = (Js.Normal tt, m')).
    { destruct (Js.opt_setMemory options) as [f|] eqn:Ef.
      - unfold Js.bind, Js.log, Js.modify, Js.on_host. simpl.
        destruct (Hset f (Js.exports_memory e) (Js.host m) eq_refl) as [h' ->].
        eauto.
      - eexists. reflexivity. }
    destruct Hpre as [m' Hpre].
    rewrite (bind_eq_normal _ _ _ _ _ Hpre).
    apply logged_event_stays.
    intros m1. apply bind_grows; [apply call_export_grows|].
    intros _ m2. apply bind_grows; [|intros; reflexivity].
    intros m3. reflexivity.
  - intros Hm Hmem. apply first_missing_none in Hm.
    destruct Hm as (E1 & E2 & E3).
    unfold Wazero.NewReactor. rewrite Hw, Hc, Hi.
    destruct (go_has_true _ _ E1) as [f1 ->].
    destruct (go_has_true _ _ E2) as [f2 ->].
    destruct (go_has_true _ _ E3) as [f3 ->].
    unfold Wazero.Call. simpl.
    destruct (f1 (Wazero.initial wasm)) as [[rs [err|]] g]; simpl; set_solver.
Qed.

Lemma missing_entry_point_fails_instantiation_witness :
  let m := Scripted.js_machine [-1]%Z in
  (Js.links (js_module_without "go_tick") = true
   /\ Wazero.wasi_instantiate (go_wasm_without "go_tick") = None
   /\ Wazero.compile_module (go_wasm_without "go_tick") = None
   /\ Wazero.instantiate_module (go_wasm_without "go_tick") = None
   /\ first_missing (js_has (js_module_without "go_tick")) = Some "go_tick"%string
   /\ first_missing (go_has (go_wasm_without "go_tick")) = Some "go_tick"%string)
  /\ (exists msg,
        Js.createReactor (js_module_without "go_tick") Scripted.js_options m
        = (Js.Throw (Js.ErrorObj msg), m)
        /\ names_only msg "go_tick" = true)
  /\ (exists msg,
        Wazero.NewReactor (go_wasm_without "go_tick")
        = ((None, Some (Wazero.ErrorsNew msg)),
           Wazero.mkMachine [-1]%Z 0 [Wazero.ModClose])
        /\ names_only msg "go_tick" = true)
  /\ Js.CallInitialize
       ∈ Js.calls (snd (Js.createReactor (js_module_without "memory")
                          Scripted.js_options m))
  /\ Wazero.CallInitialize
       ∈ Wazero.calls (snd (Wazero.NewReactor go_wasm_without_memory)).
Proof.
  intros m.
  assert (Hset : forall f mem h, Js.opt_setMemory Scripted.js_options = Some f ->
                   exists h', f mem h = (Js.Normal tt, h'))
    by (intros f mem h [= <-]; eexists; reflexivity).
  assert (H1 : Js.links (js_module_without "go_tick") = true) by reflexivity.
  assert (H2 : Wazero.wasi_instantiate (go_wasm_without "go_tick") = None)
    by reflexivity.
  assert (H3 : Wazero.compile_module (go_wasm_without "go_tick") = None)
    by reflexivity.
  assert (H4 : Wazero.instantiate_module (go_wasm_without "go_tick") = None)
    by reflexivity.
  assert (H5 : first_missing (js_has (js_module_without "go_tick"))
               = Some "go_tick"%string) by (vm_compute; reflexivity).
  assert (H6 : first_missing (go_has (go_wasm_without "go_tick"))
               = Some "go_tick"%string) by (vm_compute; reflexivity).
  destruct (missing_entry_point_fails_instantiation
              (js_module_without "go_tick") Scripted.js_options m
              (go_wasm_without "go_tick") H1 H2 H3 H4)
    as (A1 & A2 & _ & _).
  destruct (missing_entry_point_fails_instantiation
              (js_module_without "memory") Scripted.js_options m
              go_wasm_without_memory eq_refl eq_refl eq_refl eq_refl)
    as (_ & _ & A3 & A4).
  split; [repeat split; assumption|].
  split; [exact (A1 _ H5)|].
  split; [exact (A2 _ H6)|].
  split.
  - apply A3; [vm_compute; reflexivity..|exact Hset].
  - apply A4; vm_compute; reflexivity.
Defined.

(** Claim C3 fails on the code for the fourth export: a module that has
    the three functions and no memory export is instantiated without an
    error by both harnesses, and its initializer is invoked ([setMemory]
    receives [undefined]). *)
Lemma missing_memory_export_is_accepted :
  let m := Scripted.js_machine [-1]%Z in
  let res := Js.createReactor (js_module_without "memory") Scripted.js_options m in
  Js.module_exports (js_module_without "memory") !! "memory"%string = None
  /\ Js.completes_normally (fst res) = true
  /\ Js.calls (snd res) = [Js.CallSetMemory; Js.CallInitialize]
  /\ Js.memory (Js.host (snd res)) = None
  /\ Wazero.exported_memory go_wasm_without_memory = false
  /\ Wazero.NewReactor go_wasm_without_memory
     = ((Some Scripted.go_reactor, None),
        Wazero.mkMachine [-1]%Z 0 [Wazero.CallInitialize]).
Proof. repeat split; vm_compute; reflexivity. Qed.

End GuestContract.

(* ===================================================================== *)
(** ** How often the start-main entry point is invoked *)
(* ===================================================================== *)

Section StartMainOnce.

(** The TypeScript harness guards the call: once [mainStarted] is set,
    [startMain] does nothing. *)
Lemma js_startMain_guarded {G} (r : Js.Reactor G) m :
  Js.mainStarted m = true -> Js.startMain r m = (Js.Normal tt, m).
Proof.
  intros H. unfold Js.startMain, Js.bind, Js.get. rewrite H. reflexivity.
Qed.

(** A [startMain] that completes leaves the flag set. *)
Lemma js_startMain_sets_flag {G} (r : Js.Reactor G) m m' :
  Js.startMain r m = (Js.Normal tt, m') -> Js.mainStarted m' = true.
Proof.
  unfold Js.startMain, Js.bind, Js.get.
  destruct (Js.mainStarted m) eqn:Hs.
  - intros [= <-]. exact Hs.
  - unfold Js.log, Js.modify.
    destruct (Js.call_export _ _ _) as [[v|e] m1]; [|discriminate].
    intros [= <-]. reflexivity.
Qed.

(** So a second [startMain], and with it every later [runSync] or
    [runAsync], does not invoke [go_start_main] again. *)
Lemma js_startMain_twice {G} (r : Js.Reactor G) m m' :
  Js.startMain r m = (Js.Normal tt, m') ->
  Js.startMain r m' = (Js.Normal tt, m').
Proof.
  intros H. apply js_startMain_guarded. eapply js_startMain_sets_flag; eauto.
Qed.

(** Code that neither touches [mainStarted] nor invokes
    [go_start_main]. *)
Local Abbreviation quiet c :=
  (forall m, Js.mainStarted (snd (c m)) = Js.mainStarted m
             /\ Js.occurrences Js.CallStartMain (Js.calls (snd (c m)))
                = Js.occurrences Js.CallStartMain (Js.calls m)).

Lemma quiet_ret {G A} (a : A) : quiet (@Js.ret (Js.Machine G) A a).
Proof. intros m. split; reflexivity. Qed.

Lemma quiet_bind {G A B} (c : Js.JS (Js.Machine G) A)
    (k : A -> Js.JS (Js.Machine G) B) :
  quiet c -> (forall a, quiet (k a)) -> quiet (Js.bind c k).
Proof.
  intros Hc Hk m. unfold Js.bind. specialize (Hc m).
  destruct (c m) as [[a|e] m1]; simpl in *; [|exact Hc].
  destruct (Hk a m1) as [K1 K2]. destruct Hc as [C1 C2].
  split; congruence.
Qed.

Lemma quiet_log {G} ev :
  ev <> Js.CallStartMain -> quiet (@Js.log G ev).
Proof.
  intros Hev m. split; [reflexivity|].
  unfold Js.log, Js.modify, Js.logged, Js.occurrences. simpl.
  rewrite filter_app, length_app.
  rewrite filter_cons_False by exact Hev. rewrite filter_nil. simpl. lia.
Qed.

Lemma quiet_on_host {G A} (c : Js.JS Js.Host A) : quiet (@Js.on_host G A c).
Proof.
  intros m. unfold Js.on_host. destruct (c (Js.host m)). split; reflexivity.
Qed.

Lemma quiet_call_export {G} (e : Js.Exports G) name :
  quiet (Js.call_export e name).
Proof.
  intros m. unfold Js.call_export.
  destruct (Js.props e !! name) as [[body| |]|]; try (split; reflexivity).
  destruct (Js.run_guest _ _ _) as [[[v g]|ex] h]; split; reflexivity.
Qed.

Lemma quiet_loopOnce {G} (r : Js.Reactor G) : quiet (Js.loopOnce r).
Proof.
  apply quiet_bind; [apply quiet_log; discriminate|].
  intros _. apply quiet_call_export.
Qed.

Lemma quiet_call_onTick {G} (r : Js.Reactor G) : quiet (Js.call_onTick r).
Proof.
  unfold Js.call_onTick. destruct (Js.onTick r).
  - apply quiet_bind; [apply quiet_log; discriminate|].
    intros _. apply quiet_on_host.
  - apply quiet_ret.
Qed.

Lemma quiet_runSync_round {G} (r : Js.Reactor G) : quiet (Js.runSync_round r).
Proof.
  apply quiet_bind; [apply quiet_call_onTick|]. intros _.
  apply quiet_bind; [apply quiet_loopOnce|]. intros result.
  destruct (Z.eqb result (-1)); [apply quiet_ret|].
  apply quiet_bind; [|intros _; apply quiet_ret].
  destruct (Z.ltb 0 result); [apply quiet_log; discriminate|apply quiet_ret].
Qed.

Lemma quiet_runAsync_round {G} (r : Js.Reactor G) wait :
  quiet (Js.runAsync_round r wait).
Proof.
  apply quiet_bind; [apply quiet_call_onTick|]. intros _.
  apply quiet_bind; [apply quiet_loopOnce|]. intros result.
  destruct (Z.eqb result (-1)); [apply quiet_ret|].
  destruct (Z.eqb result 0).
  - apply quiet_bind; [apply quiet_log; discriminate|].
    intros _. apply quiet_ret.
  - apply quiet_bind; [|intros _; apply quiet_ret].
    destruct (Z.ltb 0 result); [|apply quiet_ret].
    apply quiet_bind; [apply quiet_log; discriminate|].
    intros _. apply quiet_on_host.
Qed.

Lemma quiet_while_true {G} (body : Js.JS (Js.Machine G) Js.Round) :
  quiet body ->
  forall fuel m res m',
    Js.while_true fuel body m = Some (res, m') ->
    Js.mainStarted m' = Js.mainStarted m
    /\ Js.occurrences Js.CallStartMain (Js.calls m')
       = Js.occurrences Js.CallStartMain (Js.calls m).
Proof.
  intros Hb. induction fuel as [|fuel IH]; intros m res m' H; [discriminate|].
  simpl in H. specialize (Hb m).
  destruct (body m) as [[[|]|e] m1]; simpl in Hb.
  - injection H as <- <-. exact Hb.
  - destruct (IH _ _ _ H) as [I1 I2]. destruct Hb as [B1 B2].
    split; congruence.
  - injection H as <- <-. exact Hb.
Qed.

(** The state of the guard: [go_start_main] has been invoked at most
    once, and not at all while the flag is unset. *)
Local Abbreviation guarded m :=
  (le (Js.occurrences Js.CallStartMain (Js.calls m)) 1
   /\ (Js.mainStarted m = false ->
       Js.occurrences Js.CallStartMain (Js.calls m) = O)).

Lemma startMain_guarded {G} (r : Js.Reactor G) m :
  (forall m1, Js.completes_normally
                (fst (Js.call_export (Js.exports r) "go_start_main" m1)) = true) ->
  guarded m -> guarded (snd (Js.startMain r m)).
Proof.
  intros Hok [H1 H0]. unfold Js.startMain, Js.bind, Js.get.
  destruct (Js.mainStarted m) eqn:Hs.
  - simpl. rewrite Hs. split; [exact H1|discriminate].
  - unfold Js.log, Js.modify.
    specialize (Hok (Js.logged Js.CallStartMain m)).
    destruct (quiet_call_export (Js.exports r) "go_start_main"
                (Js.logged Js.CallStartMain m)) as [_ Q2].
    destruct (Js.call_export _ _ _) as [[v|e] m1]; [|discriminate Hok].
    simpl in *. split; [|discriminate].
    rewrite Q2. unfold Js.occurrences in *. rewrite filter_app, length_app.
    rewrite (H0 eq_refl).
    rewrite filter_cons_True by reflexivity. reflexivity.
Qed.

(** On the TypeScript harness, whenever [go_start_main] returns:
    whatever operations are performed on a reactor, in any order and
    number, [go_start_main] is invoked at most once. *)
Lemma js_start_main_at_most_once {G} (r : Js.Reactor G) ops :
  (forall m1, Js.completes_normally
                (fst (Js.call_export (Js.exports r) "go_start_main" m1)) = true) ->
  forall m m',
    guarded m ->
    Js.perform_all r ops m = Some m' ->
    (Js.occurrences Js.CallStartMain (Js.calls m') <= 1)%nat.
Proof.
  intros Hok. induction ops as [|op ops IH]; intros m m' Hg H.
  - injection H as <-. apply Hg.
  - simpl in H. destruct (Js.perform r op m) as [m1|] eqn:Hop; [|discriminate].
    apply (IH m1 m'); [|exact H]. clear IH H.
    assert (Hkeep : forall m2 : Js.Machine G,
               Js.mainStarted m2 = Js.mainStarted (snd (Js.startMain r m))
               /\ Js.occurrences Js.CallStartMain (Js.calls m2)
                  = Js.occurrences Js.CallStartMain
                      (Js.calls (snd (Js.startMain r m))) ->
               guarded m2).
    { intros m2 [K1 K2]. rewrite K1, K2. apply startMain_guarded; assumption. }
    destruct op as [| |fuel|wait fuel]; simpl in Hop.
    + injection Hop as <-. apply startMain_guarded; assumption.
    + injection Hop as <-.
      destruct (quiet_loopOnce r m) as [Q1 Q2]. rewrite Q1, Q2. exact Hg.
    + unfold Js.runSync, Js.then_loop in Hop.
      destruct (Js.startMain r m) as [[u|e] ms] eqn:Es.
      * destruct (Js.while_true fuel (Js.runSync_round r) ms)
          as [[res mw]|] eqn:Ew; [|discriminate].
        injection Hop as <-. apply Hkeep.
        eapply quiet_while_true; [apply quiet_runSync_round|exact Ew].
      * injection Hop as <-. apply Hkeep. split; reflexivity.
    + unfold Js.runAsync, Js.then_loop in Hop.
      destruct (Js.startMain r m) as [[u|e] ms] eqn:Es.
      * destruct (Js.while_true fuel (Js.runAsync_round r wait) ms)
          as [[res mw]|] eqn:Ew; [|discriminate].
        injection Hop as <-. apply Hkeep.
        eapply quiet_while_true; [apply quiet_runAsync_round|exact Ew].
      * injection Hop as <-. apply Hkeep. split; reflexivity.
Qed.

(** The Go harness has no such guard: every [StartMain] invokes
    [go_start_main]. *)
Lemma go_StartMain_always_calls {G} (r : Wazero.Reactor G) m :
  Wazero.calls (snd (Wazero.StartMain r m))
  = Wazero.calls m ++ [Wazero.CallStartMain].
Proof.
  unfold Wazero.StartMain, Wazero.Call.
  destruct (Wazero.goStartMain r (Wazero.guest m)) as [[rs err] g]. reflexivity.
Qed.

(** Claim C4 on the Go harness: [StartMain] followed by [Run], the order
    the comment of [StartMain] asks for, invokes [go_start_main] twice;
    so do two [Run]s, and [StartMain] followed by [RunWithCallback]. *)
Theorem go_start_main_invoked_twice :
  let r := Scripted.go_reactor in
  let m0 := Scripted.go_machine [-1]%Z in
  let m1 := snd (Wazero.StartMain r m0) in
  fst (Wazero.StartMain r m0) = None
  /\ Wazero.Run 1 Wazero.Background r m1
     = Some (Wazero.Returns None,
             Wazero.mkMachine [] 1
               [Wazero.CallStartMain; Wazero.CallStartMain; Wazero.CallTick])
  /\ Wazero.occurrences Wazero.CallStartMain
       [Wazero.CallStartMain; Wazero.CallStartMain; Wazero.CallTick] = 2
  /\ Wazero.RunWithCallback 1 Wazero.Background None r m1
     = Some (Wazero.Returns None,
             Wazero.mkMachine [] 1
               [Wazero.CallStartMain; Wazero.CallStartMain; Wazero.CallTick])
  /\ Wazero.Run 1 Wazero.Background r (Scripted.go_machine [-1; -1]%Z)
     = Some (Wazero.Returns None,
             Wazero.mkMachine [-1]%Z 1 [Wazero.CallStartMain; Wazero.CallTick])
  /\ Wazero.Run 1 Wazero.Background r
       (Wazero.mkMachine [-1]%Z 1 [Wazero.CallStartMain; Wazero.CallTick])
     = Some (Wazero.Returns None,
             Wazero.mkMachine [] 2
               [Wazero.CallStartMain; Wazero.CallTick;
                Wazero.CallStartMain; Wazero.CallTick]).
Proof. repeat split; reflexivity. Qed.

(** The same sequence on the TypeScript harness invokes it once. *)
Lemma js_start_main_invoked_once :
  let r := Scripted.js_reactor in
  let m0 := Scripted.js_machine [-1]%Z in
  let m1 := snd (Js.startMain r m0) in
  Js.runAsync r Js.default_wait 1 m1
  = Some (Js.Normal tt,
          Js.mkMachine [] (Scripted.js_host 64) true
            [Js.CallStartMain; Js.CallTick]).
Proof. reflexivity. Qed.

End StartMainOnce.

(* ===================================================================== *)
(** ** [random_get] *)
(* ===================================================================== *)

Section RandomGet.

Import Js.
Local Open Scope Z_scope.

(** [slice] hands out a buffer of its own: writing through the array it
    returns leaves the guest's memory as it is. *)
Lemma u8_slice_memory arr a b (h : Host) :
  memory_buffer (heap (snd (u8_slice arr a b h))) = memory_buffer (heap h).
Proof. reflexivity. Qed.

Lemma u8_slice_fresh arr a b (h : Host) :
  fst (u8_slice arr a b h) = Normal (Scratch (length (scratch (heap h)))).
Proof. reflexivity. Qed.

Lemma getRandomValues_scratch_memory n (h : Host) :
  memory_buffer (heap (snd (getRandomValues (Scratch n) h)))
  = memory_buffer (heap h).
Proof.
  unfold getRandomValues.
  destruct (65536 <? _); reflexivity.
Qed.

(** Claim C5 on the code: [random_get] never changes a byte of the
    guest's memory, whatever the span and whatever the random source
    delivers; the random bytes go to the copy that [slice] made.  On 64
    zero bytes, [random_get(0, 4)] with the random source delivering
    1, 2, 3, 4 returns 0 and the memory still holds zeros. *)
Theorem random_get_leaves_memory_unchanged :
  (forall (h : Host) (buf_ptr buf_len : Z),
      memory_buffer (heap (snd (random_get buf_ptr buf_len h)))
      = memory_buffer (heap h))
  /\ (let h := Scripted.js_host_ready 64 in
      let res := random_get 0 4 h in
      fst res = Normal 0
      /\ memory_buffer (heap (snd res)) = repeat Byte.x00 64
      /\ span 0 4 (memory_buffer (heap (snd res)))
         = [Byte.x00; Byte.x00; Byte.x00; Byte.x00]
      /\ scratch (heap (snd res)) = [[Byte.x01; Byte.x02; Byte.x03; Byte.x04]]
      /\ entropy_pos (snd res) = 4%nat).
Proof.
  split.
  - intros h buf_ptr buf_len. unfold random_get, bind, memory_buffer_of.
    destruct (memory h) as [m|]; [|reflexivity].
    pose proof (u8_slice_memory (buffer m) buf_ptr (buf_ptr + buf_len) h) as Hs.
    pose proof (u8_slice_fresh (buffer m) buf_ptr (buf_ptr + buf_len) h) as Hf.
    destruct (u8_slice _ _ _ h) as [[piece|e] h1]; simpl in *; [|exact Hs].
    injection Hf as ->.
    pose proof (getRandomValues_scratch_memory (length (scratch (heap h))) h1)
      as Hr.
    destruct (getRandomValues _ h1) as [[u|e] h2]; simpl in *; congruence.
  - repeat split; vm_compute; reflexivity.
Qed.

End RandomGet.

(* ===================================================================== *)
(** ** Reading and writing the guest's memory *)
(* ===================================================================== *)

Section Buffers.

Import Js.

Implicit Types (buf bs : Buffer) (off n k : nat).

Lemma length_splice off bs buf :
  off + length bs <= length buf -> length (splice off bs buf) = length buf.
Proof.
  intros H. unfold splice.
  rewrite !length_app, length_take, length_drop. lia.
Qed.

Lemma lookup_splice_in off bs buf k :
  off + length bs <= length buf -> off <= k < off + length bs ->
  splice off bs buf !! k = bs !! (k - off).
Proof.
  intros H Hk. unfold splice.
  rewrite lookup_app_r by (rewrite length_take; lia).
  rewrite length_take, Nat.min_l by lia.
  rewrite lookup_app_l by lia. reflexivity.
Qed.

Lemma lookup_splice_out off bs buf k :
  off + length bs <= length buf -> k < off \/ off + length bs <= k ->
  splice off bs buf !! k = buf !! k.
Proof.
  intros H [Hk|Hk]; unfold splice.
  - rewrite lookup_app_l by (rewrite length_take; lia).
    apply lookup_take_lt. lia.
  - rewrite lookup_app_r by (rewrite length_take; lia).
    rewrite length_take, Nat.min_l by lia.
    rewrite lookup_app_r by lia.
    rewrite lookup_drop. f_equal. lia.
Qed.


Lemma lookup_span off n buf k :
  k < n -> span off n buf !! k = buf !! (off + k).
Proof.
  intros H. unfold span. rewrite lookup_take_lt by lia. apply lookup_drop.
Qed.

Lemma lookup_span_ge off n buf k : n <= k -> span off n buf !! k = None.
Proof. intros H. unfold span. apply lookup_take_ge. lia. Qed.

Lemma span_ext off n buf buf' :
  (forall k, k < n -> buf !! (off + k) = buf' !! (off + k)) ->
  span off n buf = span off n buf'.
Proof.
  intros H. apply list_eq. intros k.
  destruct (decide (k < n)).
  - rewrite !lookup_span by lia. auto.
  - rewrite !lookup_span_ge by lia. reflexivity.
Qed.

(** What was written is read back. *)
Lemma span_splice_same off bs buf :
  off + length bs <= length buf -> span off (length bs) (splice off bs buf) = bs.
Proof.
  intros H. apply list_eq. intros k.
  destruct (decide (k < length bs)).
  - rewrite lookup_span by lia. rewrite lookup_splice_in by lia.
    f_equal. lia.
  - rewrite lookup_span_ge by lia. symmetry. apply lookup_ge_None. lia.
Qed.

(** A write leaves every disjoint range as it was. *)
Lemma span_splice_disjoint a n off bs buf :
  off + length bs <= length buf ->
  a + n <= off \/ off + length bs <= a ->
  span a n (splice off bs buf) = span a n buf.
Proof.
  intros H Hd. apply span_ext. intros k Hk.
  apply lookup_splice_out; lia.
Qed.

Lemma span_app a n m buf :
  span a (n + m) buf = span a n buf ++ span (a + n) m buf.
Proof.
  unfold span. rewrite <- (drop_drop buf n a).
  symmetry. apply take_take_drop.
Qed.

Lemma in_bounds_spec (off width : Z) buf :
  in_bounds off width buf = true
  <-> (0 <= off /\ off + width <= Z.of_nat (length buf))%Z.
Proof.
  unfold in_bounds. rewrite andb_true_iff, Z.leb_le, Z.leb_le. reflexivity.
Qed.

Lemma in_bounds_false (off width : Z) buf :
  in_bounds off width buf = false
  <-> (off < 0 \/ Z.of_nat (length buf) < off + width)%Z.
Proof.
  unfold in_bounds. rewrite andb_false_iff, Z.leb_gt, Z.leb_gt. reflexivity.
Qed.

End Buffers.

(* ===================================================================== *)
(** ** The accessors on the guest's memory *)
(* ===================================================================== *)

Section Accessors.

Import Js.
Local Open Scope Z_scope.

Implicit Types (h : Host) (buf : Buffer).

Lemma memory_buffer_of_set h m :
  memory h = Some m -> memory_buffer_of h = (Normal (buffer m), h).
Proof. intros H. unfold memory_buffer_of. rewrite H. reflexivity. Qed.


Lemma mem_update_same h : mem_update h (memory_buffer (heap h)) = h.
Proof. destruct h as [m [mb sc] o e d p en ep]. reflexivity. Qed.

Lemma mem_update_twice h buf buf' :
  mem_update (mem_update h buf) buf' = mem_update h buf'.
Proof. reflexivity. Qed.

(** All bytes of an integer are written, or none and a RangeError. *)
Lemma view_set_ok n off v h :
  in_bounds off (Z.of_nat n) (memory_buffer (heap h)) = true ->
  view_set n MemoryBuffer off v h
  = (Normal tt,
     mem_update h (splice (Z.to_nat off) (le_split n v) (memory_buffer (heap h)))).
Proof. intros H. unfold view_set. simpl. rewrite H. reflexivity. Qed.

Lemma view_set_out_of_bounds n view off v h :
  in_bounds off (Z.of_nat n) (heap_get (heap h) view) = false ->
  view_set n view off v h = (Throw RangeError, h).
Proof. intros H. unfold view_set. rewrite H. reflexivity. Qed.

Lemma view_get_ok n off h :
  in_bounds off (Z.of_nat n) (memory_buffer (heap h)) = true ->
  view_get n MemoryBuffer off h
  = (Normal (le_combine (span (Z.to_nat off) n (memory_buffer (heap h)))), h).
Proof. intros H. unfold view_get. simpl. rewrite H. reflexivity. Qed.


Lemma u8_set_ok src off h :
  in_bounds off (Z.of_nat (length src)) (memory_buffer (heap h)) = true ->
  u8_set MemoryBuffer src off h
  = (Normal tt, mem_update h (splice (Z.to_nat off) src (memory_buffer (heap h)))).
Proof. intros H. unfold u8_set. simpl. rewrite H. reflexivity. Qed.


Lemma u8_put_ok i v h :
  in_bounds i 1 (memory_buffer (heap h)) = true ->
  u8_put MemoryBuffer i v h
  = (Normal tt,
     mem_update h (splice (Z.to_nat i) [byte.of_Z v] (memory_buffer (heap h)))).
Proof. intros H. unfold u8_put. simpl. rewrite H. reflexivity. Qed.

(** An indexed store outside the array is dropped without an error. *)
Lemma u8_put_out_of_bounds arr i v h :
  in_bounds i 1 (heap_get (heap h) arr) = false ->
  u8_put arr i v h = (Normal tt, h).
Proof. intros H. unfold u8_put. rewrite H. reflexivity. Qed.

(** An integer written at [off] is read back at [off], modulo its width. *)
Lemma u32_at_splice off v buf :
  0 <= off -> off + 4 <= Z.of_nat (length buf) ->
  Layout.u32_at (splice (Z.to_nat off) (le_split 4 v) buf) off = v mod 2 ^ 32.
Proof.
  intros H0 H1. unfold Layout.u32_at.
  pose proof (span_splice_same (Z.to_nat off) (le_split 4 v) buf) as Hs.
  rewrite length_le_split in Hs. rewrite Hs by lia.
  rewrite le_combine_split. reflexivity.
Qed.

End Accessors.

(* ===================================================================== *)
(** ** [args_sizes_get] and [args_get] *)
(* ===================================================================== *)

Section Arguments.

Import Js.
Local Open Scope Z_scope.

Implicit Types (h : Host) (buf : Buffer) (strs : list JsString).

Lemma encoded_size_pos s : 1 <= Layout.encoded_size s.
Proof. unfold Layout.encoded_size. lia. Qed.

Lemma total_size_nonneg strs : 0 <= Layout.total_size strs.
Proof.
  induction strs as [|s strs IH]; simpl; [lia|].
  pose proof (encoded_size_pos s). lia.
Qed.

(** The running sum of [sizes_get] is the total size. *)
Lemma fold_left_sizes strs acc :
  fold_left (fun bufSize arg => bufSize + (Z.of_nat (length (encode arg)) + 1))
            strs acc
  = acc + Layout.total_size strs.
Proof.
  revert acc. induction strs as [|s strs IH]; intros acc; simpl; [lia|].
  rewrite IH. unfold Layout.encoded_size. lia.
Qed.

Lemma strings_get_round_ok ptrs_ptr i off s h :
  let buf := memory_buffer (heap h) in
  0 <= ptrs_ptr + i * 4 -> ptrs_ptr + i * 4 + 4 <= Z.of_nat (length buf) ->
  0 <= off -> off + Layout.encoded_size s <= Z.of_nat (length buf) ->
  strings_get_round MemoryBuffer MemoryBuffer ptrs_ptr (i, off) s h
  = (Normal (i + 1, off + Layout.encoded_size s),
     mem_update h (Layout.round_buffer ptrs_ptr i off s buf)).
Proof.
  intros buf H1 H2 H3 H4. unfold Layout.encoded_size in *.
  unfold strings_get_round, bind, setUint32.
  rewrite view_set_ok by (apply in_bounds_spec; fold buf; lia).
  fold buf. set (buf1 := splice _ (le_split 4 off) buf).
  assert (L1 : length buf1 = length buf).
  { apply length_splice. rewrite length_le_split. lia. }
  rewrite u8_set_ok by (apply in_bounds_spec; simpl; rewrite L1; lia).
  simpl memory_buffer. set (buf2 := splice _ (encode s) buf1).
  assert (L2 : length buf2 = length buf1) by (apply length_splice; lia).
  rewrite u8_put_ok by (apply in_bounds_spec; simpl; rewrite L2, L1; lia).
  reflexivity.
Qed.

Lemma round_buffer_length ptrs_ptr i off s buf :
  0 <= ptrs_ptr + i * 4 -> ptrs_ptr + i * 4 + 4 <= Z.of_nat (length buf) ->
  0 <= off -> off + Layout.encoded_size s <= Z.of_nat (length buf) ->
  length (Layout.round_buffer ptrs_ptr i off s buf) = length buf.
Proof.
  intros H1 H2 H3 H4. unfold Layout.encoded_size in *. unfold Layout.round_buffer.
  rewrite !length_splice; rewrite ?length_splice, ?length_le_split;
    simpl; try lia.
  all: rewrite ?length_splice, ?length_le_split; simpl; lia.
Qed.

Lemma round_buffer_frame ptrs_ptr i off s buf (a n : nat) :
  0 <= ptrs_ptr + i * 4 -> ptrs_ptr + i * 4 + 4 <= Z.of_nat (length buf) ->
  0 <= off -> off + Layout.encoded_size s <= Z.of_nat (length buf) ->
  Z.of_nat a + Z.of_nat n <= ptrs_ptr + i * 4
    \/ ptrs_ptr + i * 4 + 4 <= Z.of_nat a ->
  Z.of_nat a + Z.of_nat n <= off \/ off + Layout.encoded_size s <= Z.of_nat a ->
  span a n (Layout.round_buffer ptrs_ptr i off s buf) = span a n buf.
Proof.
  intros H1 H2 H3 H4 D1 D2. unfold Layout.encoded_size in *.
  unfold Layout.round_buffer.
  set (buf1 := splice _ (le_split 4 off) buf).
  assert (L1 : length buf1 = length buf).
  { apply length_splice. rewrite length_le_split. lia. }
  set (buf2 := splice _ (encode s) buf1).
  assert (L2 : length buf2 = length buf1) by (apply length_splice; lia).
  rewrite span_splice_disjoint by (simpl; lia).
  unfold buf2. rewrite span_splice_disjoint by lia.
  unfold buf1. apply span_splice_disjoint; rewrite length_le_split; lia.
Qed.

Lemma round_buffer_slot ptrs_ptr i off s buf :
  0 <= ptrs_ptr + i * 4 -> ptrs_ptr + i * 4 + 4 <= Z.of_nat (length buf) ->
  0 <= off -> off + Layout.encoded_size s <= Z.of_nat (length buf) ->
  Z.of_nat (length buf) <= 2 ^ 32 ->
  ptrs_ptr + i * 4 + 4 <= off \/ off + Layout.encoded_size s <= ptrs_ptr + i * 4 ->
  Layout.u32_at (Layout.round_buffer ptrs_ptr i off s buf) (ptrs_ptr + i * 4) = off.
Proof.
  intros H1 H2 H3 H4 H5 D. unfold Layout.encoded_size in *.
  unfold Layout.round_buffer, Layout.u32_at.
  set (buf1 := splice _ (le_split 4 off) buf).
  assert (L1 : length buf1 = length buf).
  { apply length_splice. rewrite length_le_split. lia. }
  set (buf2 := splice _ (encode s) buf1).
  assert (L2 : length buf2 = length buf1) by (apply length_splice; lia).
  rewrite span_splice_disjoint by (simpl; lia).
  unfold buf2. rewrite span_splice_disjoint by lia.
  unfold buf1. fold (Layout.u32_at (splice (Z.to_nat (ptrs_ptr + i * 4))
                                      (le_split 4 off) buf) (ptrs_ptr + i * 4)).
  rewrite u32_at_splice by lia. apply Z.mod_small. lia.
Qed.

Lemma round_buffer_string ptrs_ptr i off s buf :
  0 <= ptrs_ptr + i * 4 -> ptrs_ptr + i * 4 + 4 <= Z.of_nat (length buf) ->
  0 <= off -> off + Layout.encoded_size s <= Z.of_nat (length buf) ->
  span (Z.to_nat off) (length (encode s) + 1)
       (Layout.round_buffer ptrs_ptr i off s buf)
  = encode s ++ [Byte.x00].
Proof.
  intros H1 H2 H3 H4. unfold Layout.encoded_size in *.
  unfold Layout.round_buffer.
  set (buf1 := splice _ (le_split 4 off) buf).
  assert (L1 : length buf1 = length buf).
  { apply length_splice. rewrite length_le_split. lia. }
  set (buf2 := splice _ (encode s) buf1).
  assert (L2 : length buf2 = length buf1) by (apply length_splice; lia).
  rewrite span_app. f_equal.
  - rewrite span_splice_disjoint by (simpl; lia).
    apply span_splice_same. lia.
  - replace (Z.to_nat off + length (encode s))%nat
      with (Z.to_nat (off + Z.of_nat (length (encode s)))) by lia.
    apply (span_splice_same _ [Byte.x00]). simpl. lia.
Qed.

Lemma for_of_cons {S A B} (x : A) xs (acc : B) (body : B -> A -> JS S B) :
  for_of (x :: xs) acc body
  = bind (body acc x) (fun acc' => for_of xs acc' body).
Proof. reflexivity. Qed.

(** The loop of [strings_get], started at index [i] and offset [off]:
    it completes, it touches nothing outside the pointer slots and the
    string area, and the [k]-th slot points at the [k]-th string. *)
Lemma strings_get_loop ptrs_ptr strs : forall i off h,
  let buf := memory_buffer (heap h) in
  let n := Z.of_nat (length strs) in
  0 <= i -> 0 <= ptrs_ptr ->
  ptrs_ptr + (i + n) * 4 <= Z.of_nat (length buf) ->
  0 <= off -> off + Layout.total_size strs <= Z.of_nat (length buf) ->
  Z.of_nat (length buf) <= 2 ^ 32 ->
  ptrs_ptr + (i + n) * 4 <= off
    \/ off + Layout.total_size strs <= ptrs_ptr + i * 4 ->
  exists buf',
    for_of strs (i, off) (strings_get_round MemoryBuffer MemoryBuffer ptrs_ptr) h
    = (Normal (i + n, off + Layout.total_size strs), mem_update h buf')
    /\ length buf' = length buf
    /\ (forall a m : nat,
          Z.of_nat a + Z.of_nat m <= ptrs_ptr + i * 4
            \/ ptrs_ptr + (i + n) * 4 <= Z.of_nat a ->
          Z.of_nat a + Z.of_nat m <= off
            \/ off + Layout.total_size strs <= Z.of_nat a ->
          span a m buf' = span a m buf)
    /\ (forall (k : nat) s, strs !! k = Some s ->
          Layout.u32_at buf' (ptrs_ptr + (i + Z.of_nat k) * 4)
          = off + Layout.string_offset strs k
          /\ span (Z.to_nat (off + Layout.string_offset strs k))
                  (length (encode s) + 1) buf'
             = encode s ++ [Byte.x00]).
Proof.
  induction strs as [|s rest IH]; intros i off h buf n Hi Hp Hslots Hoff Hstr H32 D.
  - exists buf. simpl. unfold ret. subst n. simpl.
    rewrite Z.add_0_r, Z.add_0_r. unfold buf. rewrite mem_update_same.
    repeat split; try reflexivity;
      match goal with H : [] !! _ = Some _ |- _ => discriminate H end.
  - assert (Hn : n = 1 + Z.of_nat (length rest))
      by (unfold n; simpl length; lia).
    pose proof (encoded_size_pos s) as Hsz.
    pose proof (total_size_nonneg rest) as Hrest.
    simpl Layout.total_size in *.
    set (sz := Layout.encoded_size s) in *.
    set (b1 := Layout.round_buffer ptrs_ptr i off s buf).
    assert (S1 : 0 <= ptrs_ptr + i * 4) by lia.
    assert (S2 : ptrs_ptr + i * 4 + 4 <= Z.of_nat (length buf)) by lia.
    assert (S4 : off + sz <= Z.of_nat (length buf)) by lia.
    assert (L1 : length b1 = length buf)
      by (apply round_buffer_length; assumption).
    rewrite for_of_cons. unfold bind at 1.
    rewrite (strings_get_round_ok ptrs_ptr i off s h S1 S2 Hoff S4).
    fold buf. fold b1. fold sz.
    destruct (IH (i + 1) (off + sz) (mem_update h b1)) as (buf' & Hrun & Hlen & Hframe & Hread);
      simpl memory_buffer; rewrite ?L1; try lia.
    exists buf'. split; [|split; [|split]].
    + rewrite Hrun. rewrite mem_update_twice. do 2 f_equal; f_equal; lia.
    + simpl memory_buffer in Hlen. lia.
    + intros a m D1 D2. simpl memory_buffer in Hframe.
      rewrite Hframe by lia.
      apply round_buffer_frame; fold sz; lia.
    + intros k s' Hk. simpl memory_buffer in Hframe. destruct k as [|k].
      * injection Hk as <-.
        unfold Layout.string_offset. simpl take. simpl Layout.total_size.
        rewrite Z.add_0_r, Z.add_0_r. split.
        -- unfold Layout.u32_at. rewrite Hframe by lia.
           apply round_buffer_slot; fold sz; lia.
        -- rewrite Hframe by (fold sz in Hsz; unfold Layout.encoded_size in sz; lia).
           apply round_buffer_string; fold sz; lia.
      * simpl in Hk. destruct (Hread k s' Hk) as [R1 R2].
        unfold Layout.string_offset in *. simpl take. simpl Layout.total_size.
        fold sz. split.
        -- replace (ptrs_ptr + (i + Z.of_nat (S k)) * 4)
             with (ptrs_ptr + (i + 1 + Z.of_nat k) * 4) by lia.
           rewrite R1. lia.
        -- replace (off + (sz + Layout.total_size (take k rest)))
             with (off + sz + Layout.total_size (take k rest)) by lia.
           exact R2.
Qed.

Lemma sizes_get_ok strs count_ptr size_ptr h :
  let buf := memory_buffer (heap h) in
  memory h = Some (mkMemory MemoryBuffer) ->
  0 <= count_ptr -> count_ptr + 4 <= Z.of_nat (length buf) ->
  0 <= size_ptr -> size_ptr + 4 <= Z.of_nat (length buf) ->
  sizes_get strs count_ptr size_ptr h
  = (Normal 0,
     mem_update h
       (splice (Z.to_nat size_ptr) (le_split 4 (Layout.total_size strs))
          (splice (Z.to_nat count_ptr)
             (le_split 4 (Z.of_nat (length strs))) buf))).
Proof.
  intros buf Hm H1 H2 H3 H4. unfold sizes_get, bind.
  rewrite (memory_buffer_of_set _ _ Hm). simpl buffer. unfold setUint32.
  rewrite view_set_ok by (apply in_bounds_spec; fold buf; lia).
  fold buf. set (buf1 := splice _ _ buf).
  assert (L1 : length buf1 = length buf).
  { apply length_splice. rewrite length_le_split. lia. }
  rewrite view_set_ok by (apply in_bounds_spec; simpl; rewrite L1; lia).
  rewrite fold_left_sizes. reflexivity.
Qed.

Lemma strings_get_ok strs ptrs_ptr buf_ptr h :
  let buf := memory_buffer (heap h) in
  let n := Z.of_nat (length strs) in
  memory h = Some (mkMemory MemoryBuffer) ->
  0 <= ptrs_ptr -> ptrs_ptr + n * 4 <= Z.of_nat (length buf) ->
  0 <= buf_ptr -> buf_ptr + Layout.total_size strs <= Z.of_nat (length buf) ->
  Z.of_nat (length buf) <= 2 ^ 32 ->
  ptrs_ptr + n * 4 <= buf_ptr
    \/ buf_ptr + Layout.total_size strs <= ptrs_ptr ->
  exists buf',
    strings_get strs ptrs_ptr buf_ptr h = (Normal 0, mem_update h buf')
    /\ length buf' = length buf
    /\ (forall a m : nat,
          Z.of_nat a + Z.of_nat m <= ptrs_ptr
            \/ ptrs_ptr + n * 4 <= Z.of_nat a ->
          Z.of_nat a + Z.of_nat m <= buf_ptr
            \/ buf_ptr + Layout.total_size strs <= Z.of_nat a ->
          span a m buf' = span a m buf)
    /\ (forall (k : nat) s, strs !! k = Some s ->
          Layout.u32_at buf' (ptrs_ptr + Z.of_nat k * 4)
          = buf_ptr + Layout.string_offset strs k
          /\ span (Z.to_nat (buf_ptr + Layout.string_offset strs k))
                  (length (encode s) + 1) buf'
             = encode s ++ [Byte.x00]).
Proof.
  intros buf n Hm H1 H2 H3 H4 H5 D.
  destruct (strings_get_loop ptrs_ptr strs 0 buf_ptr h)
    as (buf' & Hrun & Hlen & Hframe & Hread); fold buf; fold n; try lia.
  exists buf'. split; [|split; [exact Hlen|split]].
  - unfold strings_get, bind.
    repeat (rewrite (memory_buffer_of_set _ _ Hm); cbv beta iota).
    simpl buffer. rewrite Hrun. reflexivity.
  - intros a m D1 D2. apply Hframe; fold n; lia.
  - intros k s Hk. destruct (Hread k s Hk) as [R1 R2]. split; [|exact R2].
    rewrite <- R1. f_equal.
Qed.

(** A byte string followed by a NUL is read back up to the NUL. *)
Lemma until_nul_app bs rest :
  Forall (fun b => b <> Byte.x00) bs ->
  Layout.until_nul (bs ++ Byte.x00 :: rest) = bs.
Proof.
  induction 1 as [|b bs Hb _ IH]; simpl; [reflexivity|].
  destruct (Byte.eqb b Byte.x00) eqn:E.
  - apply Byte.byte_dec_bl in E. contradiction.
  - rewrite IH. reflexivity.
Qed.

Lemma cstring_at_span buf (ptr : Z) bs :
  span (Z.to_nat ptr) (length bs + 1) buf = bs ++ [Byte.x00] ->
  Forall (fun b => b <> Byte.x00) bs ->
  Layout.cstring_at buf ptr = bs.
Proof.
  intros Hs Hnz. unfold Layout.cstring_at.
  rewrite <- (take_drop (length bs + 1) (drop (Z.to_nat ptr) buf)).
  unfold span in Hs. rewrite Hs. rewrite <- app_assoc. simpl.
  apply until_nul_app. exact Hnz.
Qed.

(** UTF-8 has a zero byte only for U+0000. *)
Lemma byte_of_Z_lor_nonzero c y :
  Z.testbit c 7 = true -> byte.of_Z (Z.lor c y) <> Byte.x00.
Proof.
  intros Hc E. apply (f_equal byte.unsigned) in E.
  rewrite byte.unsigned_of_Z in E. unfold byte.wrap in E.
  change (byte.unsigned Byte.x00) with 0 in E.
  assert (Hb : Z.testbit (Z.lor c y mod 2 ^ 8) 7 = true).
  { rewrite Z.mod_pow2_bits_low by lia. rewrite Z.lor_spec, Hc. reflexivity. }
  rewrite E in Hb. discriminate Hb.
Qed.

Lemma utf8_of_scalar_nonzero cp :
  0 < cp -> Forall (fun b => b <> Byte.x00) (utf8_of_scalar cp).
Proof.
  intros Hcp. unfold utf8_of_scalar.
  destruct (Z.ltb_spec cp 0x80).
  - constructor; [|constructor]. intros E.
    apply (f_equal byte.unsigned) in E. rewrite byte.unsigned_of_Z in E.
    unfold byte.wrap in E. change (byte.unsigned Byte.x00) with 0 in E.
    rewrite Z.mod_small in E by lia. lia.
  - destruct (cp <? 0x800); [|destruct (cp <? 0x10000)];
      repeat constructor; apply byte_of_Z_lor_nonzero; reflexivity.
Qed.

Lemma scalar_values_pos_upto (n : nat) : forall s,
  (length s <= n)%nat ->
  Forall (fun c => 0 < c) s -> Forall (fun cp => 0 < cp) (scalar_values s).
Proof.
  induction n as [|n IH]; intros s Hn Hs.
  - destruct s; [constructor|simpl in Hn; lia].
  - destruct s as [|c rest]; [constructor|].
    apply Forall_cons in Hs as [Hc Hrest]. simpl in Hn. simpl.
    destruct (is_high_surrogate c) eqn:Eh.
    + destruct rest as [|d rest']; [repeat constructor; lia|].
      apply Forall_cons in Hrest as [Hd Hrest'].
      destruct (is_low_surrogate d) eqn:El.
      * constructor.
        -- unfold is_high_surrogate, is_low_surrogate in *. lia.
        -- apply IH; [simpl in Hn; lia|exact Hrest'].
      * constructor; [lia|]. apply IH; [lia|]. constructor; assumption.
    + destruct (is_low_surrogate c); (constructor; [lia|apply IH; [lia|assumption]]).
Qed.

Lemma encode_nonzero s :
  Forall (fun c => 0 < c) s -> Forall (fun b => b <> Byte.x00) (encode s).
Proof.
  intros Hs. unfold encode.
  pose proof (scalar_values_pos_upto (length s) s (le_n _) Hs) as Hp.
  induction Hp as [|cp cps Hcp _ IH]; simpl; [constructor|].
  apply Forall_app. split; [apply utf8_of_scalar_nonzero; exact Hcp|exact IH].
Qed.

Lemma map_seq_by_lookup {A B} (f : nat -> B) (g : A -> B) (l : list A) :
  (forall k x, l !! k = Some x -> f k = g x) ->
  map f (seq 0 (length l)) = map g l.
Proof.
  intros H. apply list_eq. intros k.
  change (map f (seq 0 (length l))) with (f <$> seq 0 (length l)).
  change (map g l) with (g <$> l).
  rewrite !list_lookup_fmap.
  destruct (l !! k) as [x|] eqn:E.
  - rewrite lookup_seq_lt by (eapply lookup_lt_Some; eauto).
    simpl. f_equal. apply H. exact E.
  - rewrite lookup_seq_ge by (apply lookup_ge_None; exact E). reflexivity.
Qed.

(** Claim C8, as the code has it.  With the two size slots, the pointer
    array and the string buffer inside the guest's memory and not
    overlapping, [args_sizes_get] writes the number of arguments and the
    sum of (UTF-8 length + 1) over them; a following [args_get] writes
    one pointer per argument, each pointing at that argument's UTF-8
    encoding followed by a NUL, packed from the start of the buffer in
    declaration order; and when no argument contains U+0000, reading
    the NUL-terminated strings back through the pointers yields the
    UTF-8 encodings of the arguments, in declaration order. *)
Theorem args_round_trip (sh : Shim)
    (argc_ptr argv_buf_size_ptr argv_ptr argv_buf_ptr : Z) (h : Host) :
  let A := args sh in
  let n := Z.of_nat (length A) in
  let total := Layout.total_size A in
  let size := Z.of_nat (length (memory_buffer (heap h))) in
  memory h = Some (mkMemory MemoryBuffer) ->
  size <= 2 ^ 32 ->
  0 <= argc_ptr -> argc_ptr + 4 <= size ->
  0 <= argv_buf_size_ptr -> argv_buf_size_ptr + 4 <= size ->
  argc_ptr + 4 <= argv_buf_size_ptr \/ argv_buf_size_ptr + 4 <= argc_ptr ->
  0 <= argv_ptr -> argv_ptr + n * 4 <= size ->
  0 <= argv_buf_ptr -> argv_buf_ptr + total <= size ->
  argv_ptr + n * 4 <= argv_buf_ptr \/ argv_buf_ptr + total <= argv_ptr ->
  exists h1 h2,
    args_sizes_get sh argc_ptr argv_buf_size_ptr h = (Normal 0, h1)
    /\ Layout.u32_at (memory_buffer (heap h1)) argc_ptr = n
    /\ Layout.u32_at (memory_buffer (heap h1)) argv_buf_size_ptr = total
    /\ args_get sh argv_ptr argv_buf_ptr h1 = (Normal 0, h2)
    /\ (forall (k : nat) s, A !! k = Some s ->
          Layout.u32_at (memory_buffer (heap h2)) (argv_ptr + Z.of_nat k * 4)
          = argv_buf_ptr + Layout.string_offset A k
          /\ span (Z.to_nat (argv_buf_ptr + Layout.string_offset A k))
                  (length (encode s) + 1) (memory_buffer (heap h2))
             = encode s ++ [Byte.x00])
    /\ (Forall (Forall (fun c => 0 < c)) A ->
        Layout.read_back (memory_buffer (heap h2)) argv_ptr (length A)
        = map encode A).
Proof.
  intros A n total size Hm H32 C1 C2 S1 S2 Ds P1 P2 B1 B2 Da.
  set (buf := memory_buffer (heap h)) in *.
  assert (Htot : 0 <= total < 2 ^ 32).
  { pose proof (total_size_nonneg A). fold total in H.
    destruct A as [|a A']; [simpl in *; lia|].
    assert (1 <= n) by (unfold n; simpl length; lia). lia. }
  assert (Hn : 0 <= n < 2 ^ 32) by lia.
  set (buf1 := splice (Z.to_nat argc_ptr) (le_split 4 n) buf).
  assert (L1 : length buf1 = length buf).
  { apply length_splice. rewrite length_le_split. lia. }
  set (buf2 := splice (Z.to_nat argv_buf_size_ptr) (le_split 4 total) buf1).
  assert (L2 : length buf2 = length buf).
  { unfold buf2. rewrite length_splice; rewrite ?length_le_split; lia. }
  destruct (strings_get_ok A argv_ptr argv_buf_ptr (mem_update h buf2))
    as (buf' & Hrun & Hlen & Hframe & Hread);
    simpl memory_buffer; rewrite ?L2; fold n; fold total; fold size;
    try assumption; try lia.
  exists (mem_update h buf2), (mem_update h buf').
  split; [|split; [|split; [|split; [|split]]]].
  - apply sizes_get_ok; fold buf; fold size; assumption.
  - simpl memory_buffer. unfold buf2, Layout.u32_at.
    rewrite span_splice_disjoint by (rewrite length_le_split; lia).
    fold (Layout.u32_at buf1 argc_ptr). unfold buf1.
    rewrite u32_at_splice by lia. apply Z.mod_small. lia.
  - simpl memory_buffer. unfold buf2.
    rewrite u32_at_splice by lia. apply Z.mod_small. lia.
  - exact Hrun.
  - exact Hread.
  - intros Hnz. simpl memory_buffer. unfold Layout.read_back.
    apply map_seq_by_lookup. intros k s Hk.
    destruct (Hread k s Hk) as [R1 R2].
    replace (argv_ptr + 4 * Z.of_nat k) with (argv_ptr + Z.of_nat k * 4) by lia.
    rewrite R1. apply cstring_at_span; [exact R2|].
    apply encode_nonzero.
    eapply Forall_lookup_1 in Hnz; eauto.
Qed.

Lemma args_round_trip_witness :
  let sh := Scripted.shim in
  let h := Scripted.js_host_ready 64 in
  (memory h = Some (mkMemory MemoryBuffer)
   /\ Z.of_nat (length (memory_buffer (heap h))) <= 2 ^ 32
   /\ 8 + Z.of_nat (length (args sh)) * 4 <= 16
   /\ 16 + Layout.total_size (args sh) <= 64
   /\ Forall (Forall (fun c => 0 < c)) (args sh))
  /\ exists h1 h2,
      args_sizes_get sh 0 4 h = (Normal 0, h1)
      /\ Layout.u32_at (memory_buffer (heap h1)) 0 = 1
      /\ Layout.u32_at (memory_buffer (heap h1)) 4 = 8
      /\ args_get sh 8 16 h1 = (Normal 0, h2)
      /\ Layout.read_back (memory_buffer (heap h2)) 8 1 = [encode (lit "reactor")].
Proof.
  intros sh h.
  assert (H1 : memory h = Some (mkMemory MemoryBuffer)) by reflexivity.
  assert (H2 : Z.of_nat (length (memory_buffer (heap h))) <= 2 ^ 32)
    by (vm_compute; discriminate).
  assert (H3 : 8 + Z.of_nat (length (args sh)) * 4 <= 16)
    by (vm_compute; discriminate).
  assert (H4 : 16 + Layout.total_size (args sh) <= 64)
    by (vm_compute; discriminate).
  assert (H5 : Forall (Forall (fun c => 0 < c)) (args sh))
    by (repeat constructor).
  split; [repeat split; assumption|].
  destruct (args_round_trip sh 0 4 8 16 h H1 H2)
    as (h1 & h2 & R1 & R2 & R3 & R4 & _ & R6);
    try (vm_compute; discriminate);
    try (left; vm_compute; discriminate).
  exists h1, h2. repeat split; try assumption. exact (R6 H5).
Defined.

(** Claim C8 fails on the code for an argument that contains U+0000:
    for the one-element vector holding "a", U+0000, "b", [args_get]
    succeeds, and the NUL-terminated string read back through the
    pointer is "a", not the argument. *)
Lemma argument_with_nul_is_not_read_back :
  let sh := createMinimalWASI (mkWasiOptions (Some [[97; 0; 98]]) None) in
  let h := Scripted.js_host_ready 64 in
  let res := args_get sh 8 16 h in
  fst res = Normal 0
  /\ Layout.u32_at (memory_buffer (heap (snd res))) 8 = 16
  /\ map encode (args sh) = [[Byte.x61; Byte.x00; Byte.x62]]
  /\ Layout.read_back (memory_buffer (heap (snd res))) 8 1 = [[Byte.x61]]
  /\ Layout.read_back (memory_buffer (heap (snd res))) 8 1 <> map encode (args sh).
Proof. repeat split; try (vm_compute; reflexivity). vm_compute. discriminate. Qed.

End Arguments.

(* ===================================================================== *)
(** ** [fd_write] *)
(* ===================================================================== *)

Section FdWrite.

Import Js.
Local Open Scope Z_scope.

Implicit Types (h : Host) (buf : Buffer).

Lemma same_but_scratch_refl h : same_but_scratch h h.
Proof. destruct h as [m [mb sc] o e d p en ep]. reflexivity. Qed.

Lemma same_but_scratch_memory h h' :
  same_but_scratch h h' ->
  memory h' = memory h
  /\ memory_buffer (heap h') = memory_buffer (heap h)
  /\ stdout h' = stdout h /\ stderr h' = stderr h.
Proof. intros ->. repeat split. Qed.

Lemma same_but_scratch_trans h1 h2 h3 :
  same_but_scratch h1 h2 -> same_but_scratch h2 h3 -> same_but_scratch h1 h3.
Proof.
  destruct h1 as [m1 [mb1 sc1] o1 e1 d1 p1 en1 ep1].
  destruct h2 as [m2 [mb2 sc2] o2 e2 d2 p2 en2 ep2].
  destruct h3 as [m3 [mb3 sc3] o3 e3 d3 p3 en3 ep3].
  unfold same_but_scratch, with_heap. simpl. congruence.
Qed.

(** One iovec whose eight bytes lie in the memory: the loop reads the
    pointer and the length, and decodes what [slice] hands over. *)
Lemma fd_write_iov_ok iovs_ptr written text i h :
  let buf := memory_buffer (heap h) in
  0 <= iovs_ptr + i * 8 -> iovs_ptr + i * 8 + 8 <= Z.of_nat (length buf) ->
  exists h',
    fd_write_iov MemoryBuffer MemoryBuffer iovs_ptr (written, text) i h
    = (Normal (written + Layout.iovec_len buf iovs_ptr i,
               text ++ decode (Layout.iovec_slice buf iovs_ptr i)), h')
    /\ same_but_scratch h h'.
Proof.
  intros buf H1 H2. unfold fd_write_iov, bind, getUint32.
  rewrite view_get_ok by (apply in_bounds_spec; fold buf; lia).
  rewrite view_get_ok by (apply in_bounds_spec; fold buf; lia).
  fold buf. fold (Layout.u32_at buf (iovs_ptr + i * 8)).
  fold (Layout.u32_at buf (iovs_ptr + i * 8 + 4)).
  fold (Layout.iovec_ptr buf iovs_ptr i). fold (Layout.iovec_len buf iovs_ptr i).
  unfold u8_slice, heap_alloc, u8_bytes. simpl.
  rewrite lookup_app_r by lia. rewrite Nat.sub_diag. simpl.
  eexists. split; [reflexivity|].
  destruct h as [m [mb sc] o e d p en ep]. reflexivity.
Qed.

Lemma fd_write_loop iovs_ptr (ix : list Z) : forall written text h,
  let buf := memory_buffer (heap h) in
  (forall i, i ∈ ix ->
     0 <= iovs_ptr + i * 8 /\ iovs_ptr + i * 8 + 8 <= Z.of_nat (length buf)) ->
  exists h',
    for_of ix (written, text) (fd_write_iov MemoryBuffer MemoryBuffer iovs_ptr) h
    = (Normal (written + foldr (fun i acc => Layout.iovec_len buf iovs_ptr i + acc) 0 ix,
               text ++ flat_map (fun i => decode (Layout.iovec_slice buf iovs_ptr i)) ix),
       h')
    /\ same_but_scratch h h'.
Proof.
  induction ix as [|i ix IH]; intros written text h buf Hin.
  - exists h. simpl. rewrite Z.add_0_r, app_nil_r.
    split; [reflexivity|apply same_but_scratch_refl].
  - destruct (Hin i) as [H1 H2]; [constructor|].
    destruct (fd_write_iov_ok iovs_ptr written text i h H1 H2) as (h1 & Hstep & Hs1).
    fold buf in Hstep.
    destruct (same_but_scratch_memory _ _ Hs1) as (_ & Hb & _ & _).
    destruct (IH (written + Layout.iovec_len buf iovs_ptr i)
                 (text ++ decode (Layout.iovec_slice buf iovs_ptr i)) h1)
      as (h' & Hrest & Hs2).
    { rewrite Hb. intros j Hj. apply Hin. constructor. exact Hj. }
    exists h'. split; [|eapply same_but_scratch_trans; eauto].
    rewrite for_of_cons. unfold bind. rewrite Hstep, Hrest. rewrite Hb.
    fold buf. simpl. rewrite <- app_assoc. do 3 f_equal. lia.
Qed.

(** [fd_write] with the iovec array and the count slot inside the
    memory: it returns 0, calls the sink of the descriptor once with the
    text of the slices, and then writes the sum of the lengths. *)
Lemma fd_write_result fd iovs_ptr iovs_len nwritten_ptr h :
  let buf := memory_buffer (heap h) in
  let text := Layout.iovec_text buf iovs_ptr iovs_len in
  memory h = Some (mkMemory MemoryBuffer) ->
  (forall i, 0 <= i < iovs_len ->
     0 <= iovs_ptr + i * 8 /\ iovs_ptr + i * 8 + 8 <= Z.of_nat (length buf)) ->
  0 <= nwritten_ptr -> nwritten_ptr + 4 <= Z.of_nat (length buf) ->
  exists h',
    fd_write fd iovs_ptr iovs_len nwritten_ptr h = (Normal 0, h')
    /\ stdout h' = (if fd =? 1 then stdout h ++ [text] else stdout h)
    /\ stderr h' = (if fd =? 1 then stderr h
                    else if fd =? 2 then stderr h ++ [text] else stderr h)
    /\ memory_buffer (heap h')
       = splice (Z.to_nat nwritten_ptr)
           (le_split 4 (Layout.iovec_total buf iovs_ptr iovs_len)) buf.
Proof.
  intros buf text Hm Hiov N1 N2.
  destruct (fd_write_loop iovs_ptr (seqZ 0 iovs_len) 0 [] h)
    as (h1 & Hloop & Hs).
  { intros i Hi. apply elem_of_seqZ in Hi. apply Hiov. lia. }
  destruct (same_but_scratch_memory _ _ Hs) as (Hm1 & Hb1 & Ho1 & He1).
  fold buf in Hloop, Hb1.
  rewrite Z.add_0_l, app_nil_l in Hloop.
  fold (Layout.iovec_total buf iovs_ptr iovs_len) in Hloop.
  fold (Layout.iovec_text buf iovs_ptr iovs_len) in Hloop. fold text in Hloop.
  unfold fd_write, bind.
  repeat (rewrite (memory_buffer_of_set _ _ Hm); cbv beta iota).
  simpl buffer. rewrite Hloop. cbv beta iota.
  unfold setUint32, call_stdout, call_stderr, modify, ret.
  destruct (fd =? 1) eqn:E1; [|destruct (fd =? 2) eqn:E2];
    (rewrite view_set_ok by (apply in_bounds_spec; simpl; rewrite Hb1; lia));
    (eexists; split; [reflexivity|]);
    unfold mem_update, with_stdout, with_stderr, with_heap; simpl;
    rewrite ?Hb1, ?Ho1, ?He1; repeat split; reflexivity.
Qed.

(** Inside the memory, [slice] hands over the span itself. *)
Lemma slice_bytes_in_bounds (ptr len : Z) buf :
  0 <= ptr -> 0 <= len -> ptr + len <= Z.of_nat (length buf) ->
  slice_bytes ptr (ptr + len) buf = span (Z.to_nat ptr) (Z.to_nat len) buf.
Proof.
  intros H1 H2 H3. unfold slice_bytes, clamp_index.
  destruct (Z.ltb_spec ptr 0); [lia|].
  destruct (Z.ltb_spec (ptr + len) 0); [lia|].
  f_equal; lia.
Qed.

(** On ASCII bytes the decoder yields one code unit per byte. *)
Lemma utf8_decode_ascii bs :
  Forall (fun b => byte.unsigned b < 0x80) bs ->
  utf8_decode bs None = map byte.unsigned bs.
Proof.
  induction 1 as [|b bs Hb _ IH]; simpl; [reflexivity|].
  unfold utf8_lead. destruct (Z.leb_spec (byte.unsigned b) 0x7F); [|lia].
  simpl. rewrite IH. reflexivity.
Qed.

Lemma decode_ascii bs :
  Forall (fun b => byte.unsigned b < 0x80) bs ->
  decode bs = map byte.unsigned bs.
Proof.
  intros H. unfold decode. rewrite (utf8_decode_ascii bs H).
  assert (Hs : strip_bom (map byte.unsigned bs) = map byte.unsigned bs).
  { destruct H as [|b bs Hb _]; simpl; [reflexivity|].
    destruct (Z.eqb_spec (byte.unsigned b) 0xFEFF); [lia|reflexivity]. }
  rewrite Hs. clear Hs.
  induction H as [|b bs Hb _ IH]; simpl; [reflexivity|].
  unfold utf16_of_scalar at 1.
  destruct (Z.ltb_spec (byte.unsigned b) 0x10000); [|lia].
  simpl. rewrite IH. reflexivity.
Qed.

Lemma scalar_values_ascii bs :
  Forall (fun b => byte.unsigned b < 0x80) bs ->
  scalar_values (map byte.unsigned bs) = map byte.unsigned bs.
Proof.
  induction 1 as [|b bs Hb _ IH]; [reflexivity|].
  pose proof (byte.unsigned_range b) as Hr.
  change (map byte.unsigned (b :: bs))
    with (byte.unsigned b :: map byte.unsigned bs).
  set (c := byte.unsigned b) in *. set (rest := map byte.unsigned bs) in *.
  assert (Hh : is_high_surrogate c = false)
    by (unfold is_high_surrogate; lia).
  assert (Hl : is_low_surrogate c = false)
    by (unfold is_low_surrogate; lia).
  change (scalar_values (c :: rest))
    with (if is_high_surrogate c then
            match rest with
            | d :: rest' =>
                if is_low_surrogate d
                then (0x10000 + (c - 0xD800) * 0x400 + (d - 0xDC00))
                       :: scalar_values rest'
                else 0xFFFD :: scalar_values rest
            | [] => [0xFFFD]
            end
          else if is_low_surrogate c then 0xFFFD :: scalar_values rest
          else c :: scalar_values rest).
  rewrite Hh, Hl, IH. reflexivity.
Qed.

Lemma encode_ascii bs :
  Forall (fun b => byte.unsigned b < 0x80) bs ->
  encode (map byte.unsigned bs) = bs.
Proof.
  intros H. unfold encode. rewrite (scalar_values_ascii bs H).
  induction H as [|b bs Hb _ IH]; simpl; [reflexivity|].
  unfold utf8_of_scalar at 1.
  destruct (Z.ltb_spec (byte.unsigned b) 0x80); [|lia].
  simpl. rewrite byte.of_Z_unsigned, IH. reflexivity.
Qed.

Lemma flat_map_agree {A B} (f g : A -> list B) (l : list A) :
  (forall x, x ∈ l -> f x = g x) -> flat_map f l = flat_map g l.
Proof.
  induction l as [|x l IH]; intros H; simpl; [reflexivity|].
  rewrite (H x) by constructor. rewrite IH; [reflexivity|].
  intros y Hy. apply H. constructor. exact Hy.
Qed.

Lemma flat_map_decode_ascii {A} (f : A -> list byte) (l : list A) :
  Forall (fun b => byte.unsigned b < 0x80) (flat_map f l) ->
  flat_map (fun i => decode (f i)) l = map byte.unsigned (flat_map f l).
Proof.
  induction l as [|x l IH]; simpl; [reflexivity|].
  intros H. apply Forall_app in H as [H1 H2].
  rewrite map_app, (decode_ascii _ H1), (IH H2). reflexivity.
Qed.

Lemma iovec_total_nonneg buf iovs_ptr n :
  0 <= Layout.iovec_total buf iovs_ptr n.
Proof.
  unfold Layout.iovec_total.
  induction (seqZ 0 n) as [|i l IH]; simpl; [lia|].
  pose proof (le_combine_bound
                (span (Z.to_nat (iovs_ptr + i * 8 + 4)) 4 buf)) as [Hb _].
  unfold Layout.iovec_len, Layout.u32_at.
  apply Z.add_nonneg_nonneg; assumption.
Qed.

Lemma iovec_fields_nonneg buf iovs_ptr i :
  0 <= Layout.iovec_ptr buf iovs_ptr i /\ 0 <= Layout.iovec_len buf iovs_ptr i.
Proof.
  unfold Layout.iovec_ptr, Layout.iovec_len, Layout.u32_at.
  split; apply le_combine_bound.
Qed.

(** Claim C7, as the code has it.  For [fd_write] on descriptor 1 with
    the iovec array, the spans it refers to and the count slot inside
    the guest's memory, and a total length below 2^32: the call returns
    0; the standard-output sink is called once, with the text made of
    the UTF-8 decoding (replacement mode) of each span, span by span and
    in order; the count written is the total length of the spans.  When the
    bytes of the spans are ASCII, the text holds exactly those bytes,
    one code unit per byte, and its UTF-8 encoding is the concatenation
    of the spans. *)
Theorem fd_write_stdout_text (iovs_ptr iovs_len nwritten_ptr : Z) (h : Host) :
  let buf := memory_buffer (heap h) in
  let size := Z.of_nat (length buf) in
  memory h = Some (mkMemory MemoryBuffer) ->
  (forall i, 0 <= i < iovs_len ->
     0 <= iovs_ptr + i * 8 /\ iovs_ptr + i * 8 + 8 <= size) ->
  (forall i, 0 <= i < iovs_len ->
     Layout.iovec_ptr buf iovs_ptr i + Layout.iovec_len buf iovs_ptr i <= size) ->
  0 <= nwritten_ptr -> nwritten_ptr + 4 <= size ->
  Layout.iovec_total buf iovs_ptr iovs_len < 2 ^ 32 ->
  exists h' text,
    fd_write 1 iovs_ptr iovs_len nwritten_ptr h = (Normal 0, h')
    /\ stdout h' = stdout h ++ [text]
    /\ stderr h' = stderr h
    /\ text = flat_map (fun i => decode (Layout.iovec_span buf iovs_ptr i))
                       (seqZ 0 iovs_len)
    /\ Layout.u32_at (memory_buffer (heap h')) nwritten_ptr
       = Layout.iovec_total buf iovs_ptr iovs_len
    /\ (Forall (fun b => byte.unsigned b < 0x80)
               (Layout.iovec_concat buf iovs_ptr iovs_len) ->
        text = map byte.unsigned (Layout.iovec_concat buf iovs_ptr iovs_len)
        /\ encode text = Layout.iovec_concat buf iovs_ptr iovs_len).
Proof.
  intros buf size Hm Hiov Hspan N1 N2 Htot.
  destruct (fd_write_result 1 iovs_ptr iovs_len nwritten_ptr h Hm Hiov N1 N2)
    as (h' & Hrun & Hout & Herr & Hmem).
  fold buf in Hout, Hmem.
  assert (Htext : Layout.iovec_text buf iovs_ptr iovs_len
                  = flat_map (fun i => decode (Layout.iovec_span buf iovs_ptr i))
                             (seqZ 0 iovs_len)).
  { unfold Layout.iovec_text. apply flat_map_agree. intros i Hi.
    apply elem_of_seqZ in Hi. f_equal.
    unfold Layout.iovec_slice, Layout.iovec_span.
    destruct (iovec_fields_nonneg buf iovs_ptr i).
    apply slice_bytes_in_bounds; try assumption.
    apply Hspan. lia. }
  exists h', (Layout.iovec_text buf iovs_ptr iovs_len).
  split; [exact Hrun|]. split; [exact Hout|]. split; [exact Herr|].
  split; [exact Htext|]. split.
  - rewrite Hmem. rewrite u32_at_splice by assumption.
    apply Z.mod_small. pose proof (iovec_total_nonneg buf iovs_ptr iovs_len). lia.
  - intros Hascii. rewrite Htext.
    unfold Layout.iovec_concat in *.
    rewrite (flat_map_decode_ascii _ _ Hascii).
    split; [reflexivity|]. apply encode_ascii. exact Hascii.
Qed.

Lemma fd_write_stdout_text_witness :
  let h := Scripted.js_host_holding
             [(0%nat, le_split 4 32 ++ le_split 4 2
                      ++ le_split 4 40 ++ le_split 4 3);
              (32%nat, [Byte.x48; Byte.x69]);
              (40%nat, [Byte.x61; Byte.x62; Byte.x63])] 64 in
  let buf := memory_buffer (heap h) in
  (memory h = Some (mkMemory MemoryBuffer)
   /\ (forall i, 0 <= i < 2 ->
         0 <= 0 + i * 8 /\ 0 + i * 8 + 8 <= Z.of_nat (length buf))
   /\ (forall i, 0 <= i < 2 ->
         Layout.iovec_ptr buf 0 i + Layout.iovec_len buf 0 i
         <= Z.of_nat (length buf))
   /\ Layout.iovec_total buf 0 2 < 2 ^ 32
   /\ Forall (fun b => byte.unsigned b < 0x80) (Layout.iovec_concat buf 0 2))
  /\ exists h',
      fd_write 1 0 2 24 h = (Normal 0, h')
      /\ stdout h' = [[72; 105; 97; 98; 99]]
      /\ Layout.u32_at (memory_buffer (heap h')) 24 = 5
      /\ encode [72; 105; 97; 98; 99] = Layout.iovec_concat buf 0 2.
Proof.
  intros h buf.
  assert (Hi : forall i, 0 <= i < 2 -> i = 0 \/ i = 1) by lia.
  assert (H1 : memory h = Some (mkMemory MemoryBuffer)) by reflexivity.
  assert (H2 : forall i, 0 <= i < 2 ->
                 0 <= 0 + i * 8 /\ 0 + i * 8 + 8 <= Z.of_nat (length buf))
    by (intros i [-> | ->]%Hi; split; vm_compute; discriminate).
  assert (H3 : forall i, 0 <= i < 2 ->
                 Layout.iovec_ptr buf 0 i + Layout.iovec_len buf 0 i
                 <= Z.of_nat (length buf))
    by (intros i [-> | ->]%Hi; vm_compute; discriminate).
  assert (H4 : Forall (fun b => byte.unsigned b < 0x80)
                      (Layout.iovec_concat buf 0 2))
    by (vm_compute; repeat constructor).
  assert (H5 : Layout.iovec_total buf 0 2 < 2 ^ 32)
    by (vm_compute; reflexivity).
  split; [repeat split; try assumption; apply H2; assumption|].
  destruct (fd_write_stdout_text 0 2 24 h H1 H2 H3)
    as (h' & text & R1 & R2 & _ & R4 & R5 & R6);
    try (vm_compute; discriminate); try exact H5.
  destruct (R6 H4) as [R7 R8].
  exists h'. split; [exact R1|]. split; [|split].
  - rewrite R2, R7. reflexivity.
  - rewrite R5. reflexivity.
  - unfold buf. rewrite <- R8, R7. reflexivity.
Defined.

(** Claim C7 fails on the code for bytes that are not valid UTF-8: a
    span holding the single byte 0xFF reaches the sink as U+FFFD, whose
    bytes are EF BF BD; a span holding 0xFE reaches it as the same
    text, so the sink cannot tell the two spans apart. *)
Lemma fd_write_replaces_invalid_utf8 :
  let iov := (0%nat, le_split 4 32 ++ le_split 4 1) in
  let h := Scripted.js_host_holding [iov; (32%nat, [Byte.xff])] 64 in
  let h2 := Scripted.js_host_holding [iov; (32%nat, [Byte.xfe])] 64 in
  let res := fd_write 1 0 1 24 h in
  let res2 := fd_write 1 0 1 24 h2 in
  fst res = Normal 0
  /\ Layout.iovec_concat (memory_buffer (heap h)) 0 1 = [Byte.xff]
  /\ stdout (snd res) = [[0xFFFD]]
  /\ encode [0xFFFD] = [Byte.xef; Byte.xbf; Byte.xbd]
  /\ flat_map encode (stdout (snd res))
     <> Layout.iovec_concat (memory_buffer (heap h)) 0 1
  /\ Layout.iovec_concat (memory_buffer (heap h2)) 0 1 = [Byte.xfe]
  /\ stdout (snd res2) = stdout (snd res).
Proof. repeat split; try (vm_compute; reflexivity). vm_compute. discriminate. Qed.

End FdWrite.

(* ===================================================================== *)
(** ** Pointers outside the guest's memory *)
(* ===================================================================== *)

Section OutOfBounds.

Import Js.
Local Open Scope Z_scope.

Implicit Types (h : Host) (buf : Buffer).

Lemma out_of_range off width buf :
  off < 0 \/ Z.of_nat (length buf) < off + width ->
  in_bounds off width buf = false.
Proof. intros H. apply in_bounds_false. exact H. Qed.





End OutOfBounds.

(* ===================================================================== *)
(** ** The handlers before and after [setMemory] *)
(* ===================================================================== *)

Section MemoryReference.

Import Js.
Local Open Scope Z_scope.

Implicit Types (h : Host) (buf : Buffer).







End MemoryReference.

(* ===================================================================== *)
(** ** [proc_exit] *)
(* ===================================================================== *)

Section ProcExit.

Import Js.
Local Open Scope Z_scope.

Lemma string_snoc_inj (s s' : string) (c : ascii) :
  (s +:+ String c "")%string = (s' +:+ String c "")%string -> s = s'.
Proof.
  revert s'. induction s as [|a s IH]; intros [|a' s']; simpl; intros H.
  - reflexivity.
  - injection H as _ H. destruct s'; discriminate H.
  - injection H as _ H. destruct s; discriminate H.
  - injection H as -> H. f_equal. apply IH. exact H.
Qed.

(** The message carries the code: different codes, different messages. *)
Lemma exit_message_inj code code' :
  exit_message code = exit_message code' -> code = code'.
Proof.
  unfold exit_message. intros H.
  apply (inj (String.app "exit(")) in H.
  apply string_snoc_inj in H.
  apply (inj pretty) in H. exact H.
Qed.

(** An import that throws unwinds the guest: the call of the export
    throws the same exception. *)
Lemma run_guest_invokes_exit {R} (sh : Shim) (p : Guest R) h code h' :
  invokes_exit (wasiImports sh) p h code h' ->
  run_guest (wasiImports sh) p h = (Throw (ErrorObj (exit_message code)), h').
Proof.
  induction 1 as [code k h|c k h errno h1 code h' Hc _ IH
                 |off bs k h code h' _ IH|k h code h' _ IH]; simpl.
  - reflexivity.
  - unfold bind. rewrite Hc. exact IH.
  - unfold bind. exact IH.
  - unfold bind, get. exact IH.
Qed.

Lemma loopOnce_throws {G} (r : Reactor G) body m e h' :
  props (exports r) !! "go_tick"%string = Some (FuncExport body) ->
  run_guest (imports (exports r)) (body (guest m)) (host m) = (Throw e, h') ->
  loopOnce r m
  = (Throw e, mkMachine (guest m) h' (mainStarted m) (calls m ++ [CallTick])).
Proof.
  intros Hp Hrun. unfold loopOnce, bind, log, modify, call_export. simpl.
  rewrite Hp, Hrun. reflexivity.
Qed.

(** Claim C9, as the code has it.  [proc_exit(code)] never returns: it
    throws [new Error("exit(<code>)")], a plain [Error] whose message
    determines the code.  Thrown inside a tick, it unwinds the guest and
    leaves [runSync] and [runAsync] at once as that exception: the round
    is not finished, no further round starts, and the log ends with the
    tick that made the call. *)
Theorem proc_exit_ends_run {G : Type} (r : Reactor G)
    (wait : Z -> JS Host unit) (sh : Shim) (body : G -> Guest (Z * G))
    (code : Z) (m m1 : Machine G) (h' : Host) (fuel : nat) :
  imports (exports r) = wasiImports sh ->
  props (exports r) !! "go_tick"%string = Some (FuncExport body) ->
  call_onTick r m = (Normal tt, m1) ->
  invokes_exit (wasiImports sh) (body (guest m1)) (host m1) code h' ->
  let signal := ErrorObj (exit_message code) in
  let m' := mkMachine (guest m1) h' (mainStarted m1) (calls m1 ++ [CallTick]) in
  (forall h, proc_exit code h = (Throw signal, h))
  /\ (forall code', exit_message code = exit_message code' -> code = code')
  /\ is_plain_error signal = true
  /\ while_true (S fuel) (runAsync_round r wait) m = Some (Throw signal, m')
  /\ while_true (S fuel) (runSync_round r) m = Some (Throw signal, m').
Proof.
  intros Himp Hp Hcb Hexit signal m'.
  assert (Htick : loopOnce r m1 = (Throw signal, m')).
  { apply loopOnce_throws with (body := body); [exact Hp|].
    rewrite Himp. apply run_guest_invokes_exit. exact Hexit. }
  split; [reflexivity|]. split; [apply exit_message_inj|].
  split; [reflexivity|]. split.
  - apply while_true_throw. unfold runAsync_round, bind.
    rewrite Hcb, Htick. reflexivity.
  - apply while_true_throw. unfold runSync_round, bind.
    rewrite Hcb, Htick. reflexivity.
Qed.

Lemma proc_exit_ends_run_witness :
  let r := Scripted.js_exiting_reactor in
  let m := Js.mkMachine [] (Scripted.js_host_ready 64) true [CallStartMain] in
  let h' := with_stdout [[]] (mem_update (Scripted.js_host_ready 64)
                                (repeat Byte.x00 64)) in
  (imports (exports r) = wasiImports Scripted.shim
   /\ props (exports r) !! "go_tick"%string
      = Some (FuncExport Scripted.js_exiting_tick)
   /\ call_onTick r m = (Normal tt, m)
   /\ invokes_exit (wasiImports Scripted.shim)
        (Scripted.js_exiting_tick (guest m)) (host m) 3 h')
  /\ while_true 5 (runAsync_round r default_wait) m
     = Some (Throw (ErrorObj "exit(3)"),
             mkMachine [] h' true [CallStartMain; CallTick])
  /\ while_true 5 (runSync_round r) m
     = Some (Throw (ErrorObj "exit(3)"),
             mkMachine [] h' true [CallStartMain; CallTick]).
Proof.
  intros r m h'.
  assert (H1 : imports (exports r) = wasiImports Scripted.shim) by reflexivity.
  assert (H2 : props (exports r) !! "go_tick"%string
               = Some (FuncExport Scripted.js_exiting_tick))
    by (vm_compute; reflexivity).
  assert (H3 : call_onTick r m = (Normal tt, m)) by reflexivity.
  assert (H4 : invokes_exit (wasiImports Scripted.shim)
                 (Scripted.js_exiting_tick (guest m)) (host m) 3 h').
  { eapply invokes_exit_import; [vm_compute; reflexivity|].
    apply invokes_exit_here. }
  destruct (proc_exit_ends_run r default_wait Scripted.shim
              Scripted.js_exiting_tick 3 m m h' 4 H1 H2 H3 H4)
    as (_ & _ & _ & R1 & R2).
  split; [repeat split; assumption|]. split; [exact R1|exact R2].
Defined.

(** Claim C9 fails on the code where it calls the exit distinguishable
    from an error: the run of a guest that calls [proc_exit(3)] ends as
    a thrown plain [Error], the class [createReactor] uses for a missing
    export; and a run in which the per-tick callback fails with
    [new Error("exit(3)")], the guest never ticking, ends with the very
    same completion. *)
Lemma exit_is_an_ordinary_error :
  let m := Js.mkMachine [] (Scripted.js_host_ready 64) false [] in
  let exiting := runAsync Scripted.js_exiting_reactor default_wait 9 m in
  let failing := runAsync Scripted.js_failing_callback_reactor default_wait 9 m in
  option_map fst exiting = Some (Throw (ErrorObj "exit(3)"))
  /\ option_map (fun x => completes_normally (fst x)) exiting = Some false
  /\ is_plain_error (ErrorObj (exit_message 3)) = true
  /\ option_map fst failing = option_map fst exiting
  /\ option_map (fun x => calls (snd x)) failing
     = Some [CallStartMain; CallOnTick]
  /\ fst (createReactor (Contract.js_module_without "go_tick")
            Scripted.js_options m)
     = Throw (ErrorObj
         "Module does not export go_tick (not built with modified Go runtime?)").
Proof. repeat split; vm_compute; reflexivity. Qed.

End ProcExit.

(* ===================================================================== *)
(** ** The two loops of the Go harness *)
(* ===================================================================== *)

Section GoLoops.

Import Wazero.
Local Open Scope Z_scope.

Context {G : Type}.
Variable r : Reactor G.
Variable ctx : Context.

Lemma Run_for_as_callback fuel m :
  RunWithCallback_for fuel ctx None r m = Run_for fuel ctx r m.
Proof.
  revert m. induction fuel as [|fuel IH]; intros m; [reflexivity|].
  cbn [RunWithCallback_for Run_for call_onTick].
  destruct (poll ctx m) as [[] m1]; [reflexivity|].
  destruct (LoopOnce r m1) as [[[v [e|]]|] m2]; try reflexivity.
  destruct (v =? LoopIdle); [reflexivity|].
  destruct (v =? LoopReady); [apply IH|].
  destruct (0 <? v); [|apply IH].
  destruct (wait_timer ctx v m2) as [[e|] m3]; [reflexivity|apply IH].
Qed.

(** X1.  [RunWithCallback] with a [nil] callback is [Run]: the same
    outcome, the same guest state, the same looks at the context and the
    same calls, for every fuel, context, reactor and machine. *)
Theorem RunWithCallback_nil_is_Run fuel m :
  RunWithCallback fuel ctx None r m = Run fuel ctx r m.
Proof.
  unfold RunWithCallback, Run.
  destruct (StartMain r m) as [[e|] m1]; [reflexivity|].
  apply Run_for_as_callback.
Qed.


Lemma LoopOnce_cases m :
  let '(res, g') := goTick r (guest m) in
  LoopOnce r m
  = (match res with
     | (_, Some err) => Returns (LoopIdle, Some err)
     | (rs, None) =>
         match rs with
         | x :: _ => Returns (int32 x, None)
         | [] => Panics
         end
     end, ticked g' m).
Proof.
  unfold LoopOnce, Call, ticked.
  destruct (goTick r (guest m)) as [[rs [e|]] g']; [reflexivity|].
  destruct rs; reflexivity.
Qed.



Lemma go_occurrences_snoc (ev e : Event) l :
  occurrences ev (l ++ [e])
  = (occurrences ev l + (if decide (e = ev) then 1 else 0))%nat.
Proof.
  unfold occurrences. rewrite filter_app, length_app. f_equal.
  destruct (decide (e = ev)) as [He|He].
  - rewrite filter_cons_True by exact He. reflexivity.
  - rewrite filter_cons_False by exact He. reflexivity.
Qed.

Lemma cancelled_loop_ends fuel onTick m n :
  done ctx n = true ->
  (polls m <= n)%nat ->
  (n - polls m < fuel)%nat ->
  exists out m',
    RunWithCallback_for fuel ctx onTick r m = Some (out, m')
    /\ (polls m' <= S n)%nat
    /\ (occurrences CallTick (calls m')
        <= occurrences CallTick (calls m) + (n - polls m))%nat.
Proof.
  intros Hn. revert m. induction fuel as [|fuel IH]; intros m Hle Hfuel; [lia|].
  cbn [RunWithCallback_for]. unfold poll.
  destruct (done ctx (polls m)) eqn:Hd.
  { eexists _, _. split; [reflexivity|]. cbn [polls calls]. split; lia. }
  assert (Hlt : (polls m < n)%nat).
  { destruct (decide (polls m = n)) as [E|E]; [congruence|lia]. }
  fold (polled m).
  set (m1 := call_onTick onTick (polled m)).
  assert (Hp1 : polls m1 = S (polls m)) by (destruct onTick; reflexivity).
  assert (Hc1 : occurrences CallTick (calls m1) = occurrences CallTick (calls m)).
  { unfold m1. destruct onTick; [|reflexivity]. cbn [polls calls guest ticked polled call_onTick log]. rewrite go_occurrences_snoc.
    rewrite decide_False by discriminate. lia. }
  pose proof (LoopOnce_cases m1) as HL.
  destruct (goTick r (guest m1)) as [[rs e] g'] eqn:Hg.
  rewrite HL. clear HL.
  assert (Hc2 : occurrences CallTick (calls (ticked g' m1))
                = S (occurrences CallTick (calls m))).
  { cbn [polls calls guest ticked polled call_onTick log]. rewrite go_occurrences_snoc, decide_True by reflexivity. lia. }
  assert (Hnow : forall out : Outcome (option GoError),
            exists out0 m',
              Some (out, ticked g' m1) = Some (out0, m')
              /\ (polls m' <= S n)%nat
              /\ (occurrences CallTick (calls m')
                  <= occurrences CallTick (calls m) + (n - polls m))%nat).
  { intros out. eexists _, _. split; [reflexivity|]. rewrite Hc2. cbn [polls ticked]. lia. }
  assert (Hlater : forall m2,
            (S (polls m) <= polls m2 <= n)%nat ->
            (occurrences CallTick (calls m2)
             = S (occurrences CallTick (calls m)))%nat ->
            exists out m',
              RunWithCallback_for fuel ctx onTick r m2 = Some (out, m')
              /\ (polls m' <= S n)%nat
              /\ (occurrences CallTick (calls m')
                  <= occurrences CallTick (calls m) + (n - polls m))%nat).
  { intros m2 Hp2 Hc. destruct (IH m2) as (out & m' & Hrun & Hp & Hc'); [lia|lia|].
    exists out, m'. split; [exact Hrun|]. split; [exact Hp|]. lia. }
  destruct e as [e|]; [apply Hnow|].
  destruct rs as [|x rest]; [apply Hnow|].
  destruct (int32 x =? LoopIdle); [apply Hnow|].
  destruct (int32 x =? LoopReady).
  { apply Hlater; [cbn [polls calls guest ticked polled call_onTick log]; lia|exact Hc2]. }
  destruct (0 <? int32 x); [|apply Hlater; [cbn [polls calls guest ticked polled call_onTick log]; lia|exact Hc2]].
  unfold wait_timer, poll. cbn [polls ticked guest calls].
  destruct (done ctx (polls m1)) eqn:Hd1.
  { eexists _, _. split; [reflexivity|]. cbn [polls calls guest ticked polled call_onTick log].
    rewrite go_occurrences_snoc, decide_False by discriminate.
    rewrite go_occurrences_snoc, decide_True by reflexivity. lia. }
  assert (Hlt1 : (polls m1 < n)%nat).
  { destruct (decide (polls m1 = n)) as [E|E]; [congruence|lia]. }
  apply Hlater; [cbn [polls calls guest ticked polled call_onTick log]; lia|].
  cbn [polls calls guest ticked polled call_onTick log]. rewrite go_occurrences_snoc, decide_False by discriminate.
  rewrite go_occurrences_snoc, decide_True by reflexivity. lia.
Qed.

(** X3.  Cancellation ends the run, whatever the guest answers.  If the
    context is done at its [n]-th look, a run with more than [n - polls]
    rounds of fuel returns or panics, looks at the context at most once
    more after the one that found it done, and has made at most
    [n - polls] ticks. *)
Theorem cancelled_context_ends_run fuel onTick m n :
  done ctx n = true ->
  (polls m <= n)%nat ->
  (n - polls m < fuel)%nat ->
  exists out m',
    RunWithCallback fuel ctx onTick r m = Some (out, m')
    /\ (polls m' <= S n)%nat
    /\ (occurrences CallTick (calls m')
        <= occurrences CallTick (calls m) + (n - polls m))%nat.
Proof.
  intros Hn Hle Hfuel. unfold RunWithCallback, StartMain, Call.
  destruct (goStartMain r (guest m)) as [[rs [e|]] g1].
  { eexists _, _. split; [reflexivity|]. cbn [polls calls guest ticked polled call_onTick log].
    rewrite go_occurrences_snoc, decide_False by discriminate. lia. }
  destruct (cancelled_loop_ends fuel onTick
              (mkMachine g1 (polls m) (calls m ++ [CallStartMain])) n Hn Hle Hfuel)
    as (out & m' & Hrun & Hp & Hc).
  exists out, m'. split; [exact Hrun|]. split; [exact Hp|].
  cbn [calls polls] in Hc. rewrite go_occurrences_snoc, decide_False in Hc by discriminate.
  lia.
Qed.

(** X4.  Cancellation during a timer wait.  When a tick returns a
    positive [v] and the context is done at the [select] on the timer,
    [Run] stops the timer and returns [ctx.Err()]: the tick is its last
    call to the guest. *)
Theorem cancelled_during_timer_wait fuel m v g' :
  0 < v ->
  done ctx (polls m) = false ->
  done ctx (S (polls m)) = true ->
  tick_returns r (guest m) v g' ->
  Run_for (S fuel) ctx r m
  = Some (Returns (Some (ctx_err ctx)),
          mkMachine g' (S (S (polls m)))
            (calls m ++ [CallTick; TimerStopped v])).
Proof.
  intros Hv Hd Hd' Ht. simpl. unfold poll. rewrite Hd. fold (polled m).
  rewrite (LoopOnce_returns r (polled m) v g' Ht).
  destruct (Z.eqb_spec v LoopIdle); [unfold LoopIdle in *; lia|].
  destruct (Z.eqb_spec v LoopReady); [unfold LoopReady in *; lia|].
  destruct (Z.ltb_spec 0 v); [|lia].
  unfold wait_timer, poll. simpl. rewrite Hd'. unfold log. simpl.
  rewrite <- app_assoc. reflexivity.
Qed.



(** X6.  [LoopOnce] reads only the low 32 bits of the first result, as a
    signed number: the [LoopResult] lies in the [int32] range and is
    congruent to the stack value modulo [2^32]; further results are
    ignored. *)
Theorem LoopOnce_low_32_bits m x rest g' :
  goTick r (guest m) = ((x :: rest, None), g') ->
  exists v,
    LoopOnce r m = (Returns (v, None), ticked g' m)
    /\ - 2 ^ 31 <= v < 2 ^ 31
    /\ v mod 2 ^ 32 = x mod 2 ^ 32.
Proof.
  intros Hg. exists (int32 x). split.
  - pose proof (LoopOnce_cases m) as HL. rewrite Hg in HL. exact HL.
  - unfold int32.
    pose proof (Z.mod_pos_bound (x + 2 ^ 31) (2 ^ 32) ltac:(lia)) as Hb.
    split; [lia|].
    rewrite Zminus_mod, Zmod_mod, <- Zminus_mod.
    f_equal. lia.
Qed.

Lemma Run_for_follows_answers vs :
  forall fuel m g1 g',
    (forall n, done ctx n = false) ->
    Answers.go_answers r (guest m) vs g1 ->
    Forall (fun v => v <> -1) vs ->
    tick_returns r g1 (-1) g' ->
    (length vs < fuel)%nat ->
    exists m',
      Run_for fuel ctx r m = Some (Returns None, m')
      /\ guest m' = g'
      /\ calls m' = calls m ++ flat_map Answers.go_round_events vs ++ [CallTick].
Proof.
  induction vs as [|v vs IH]; intros fuel m g1 g' Hctx Hans Hall Hlast Hfuel.
  - cbn in Hans. subst g1. destruct fuel as [|fuel]; [cbn in Hfuel; lia|].
    rewrite (Run_for_idle r ctx fuel m g' (Hctx _) Hlast).
    eexists. split; [reflexivity|]. split; reflexivity.
  - destruct Hans as (g2 & Hv & Hans).
    apply Forall_cons in Hall. destruct Hall as [Hne Hall].
    destruct fuel as [|fuel]; [cbn in Hfuel; lia|].
    cbn [length] in Hfuel.
    assert (Hstep : exists m2,
              Run_for (S fuel) ctx r m = Run_for fuel ctx r m2
              /\ guest m2 = g2
              /\ calls m2 = calls m ++ Answers.go_round_events v).
    { unfold Answers.go_round_events.
      destruct (Z.ltb_spec 0 v) as [Hpos|Hnpos].
      - eexists. split; [apply (Run_for_timer r ctx fuel m v g2 Hpos
                                  (Hctx _) (Hctx _) Hv)|].
        split; [reflexivity|]. cbn. rewrite <- app_assoc. reflexivity.
      - destruct (Z.eq_dec v 0) as [->|Hnz].
        + eexists. split; [apply (Run_for_ready r ctx fuel m g2 (Hctx _) Hv)|].
          split; reflexivity.
        + eexists. split; [apply (Run_for_other r ctx fuel m v g2); [lia|exact Hne|apply Hctx|exact Hv]|].
          split; reflexivity. }
    destruct Hstep as (m2 & Hrun & Hg2 & Hc2).
    rewrite <- Hg2 in Hans.
    destruct (IH fuel m2 g1 g' Hctx Hans Hall Hlast ltac:(lia))
      as (m' & Hrun' & Hg' & Hc').
    exists m'. split; [rewrite Hrun; exact Hrun'|]. split; [exact Hg'|].
    rewrite Hc', Hc2. cbn [flat_map]. rewrite <- !app_assoc. reflexivity.
Qed.

(** X7.  [Run] on any finite sequence of answers.  With a context that is
    never done and a [go_start_main] that returns no error, a guest whose
    ticks answer the values [vs], none of them [-1], and then [-1] is run
    to completion: [Run] returns [nil], it makes one tick per answer and
    one for the final [-1], and it waits on exactly one timer after each
    positive answer, of that many milliseconds, and on none after a zero
    or a negative one. *)
Theorem Run_follows_answers fuel m rs g0 vs g1 g' :
  (forall n, done ctx n = false) ->
  goStartMain r (guest m) = ((rs, None), g0) ->
  Answers.go_answers r g0 vs g1 ->
  Forall (fun v => v <> -1) vs ->
  tick_returns r g1 (-1) g' ->
  (length vs < fuel)%nat ->
  exists m',
    Run fuel ctx r m = Some (Returns None, m')
    /\ guest m' = g'
    /\ calls m'
       = calls m ++ CallStartMain
           :: flat_map Answers.go_round_events vs ++ [CallTick].
Proof.
  intros Hctx Hs Hans Hall Hlast Hfuel.
  unfold Run, StartMain, Call. rewrite Hs.
  destruct (Run_for_follows_answers vs fuel
              (mkMachine g0 (polls m) (calls m ++ [CallStartMain])) g1 g'
              Hctx Hans Hall Hlast Hfuel) as (m' & Hrun & Hg & Hc).
  exists m'. split; [exact Hrun|]. split; [exact Hg|].
  rewrite Hc. cbn [calls]. rewrite <- app_assoc. reflexivity.
Qed.

End GoLoops.


Lemma cancelled_context_ends_run_witness :
  let ctx := Wazero.mkContext (fun n => Nat.leb 2 n) Wazero.DeadlineExceeded in
  exists out m',
    Wazero.RunWithCallback 3 ctx None Scripted.go_reactor
      (Scripted.go_machine [0; 0; 0; 0; 0]%Z) = Some (out, m')
    /\ (Wazero.polls m' <= 3)%nat
    /\ (Wazero.occurrences Wazero.CallTick (Wazero.calls m')
        <= Wazero.occurrences Wazero.CallTick [] + (2 - 0))%nat.
Proof.
  exact (cancelled_context_ends_run Scripted.go_reactor
           (Wazero.mkContext (fun n => Nat.leb 2 n) Wazero.DeadlineExceeded)
           3 None (Scripted.go_machine [0; 0; 0; 0; 0]%Z) 2
           eq_refl ltac:(cbn; lia) ltac:(cbn; lia)).
Defined.

Lemma cancelled_during_timer_wait_witness :
  let ctx := Wazero.mkContext (fun n => Nat.leb 1 n) Wazero.Canceled in
  Wazero.Run_for 1 ctx Scripted.go_reactor (Scripted.go_machine [40; -1]%Z)
  = Some (Wazero.Returns (Some Wazero.Canceled),
          Wazero.mkMachine [(-1)%Z] 2
            [Wazero.CallTick; Wazero.TimerStopped 40]).
Proof.
  exact (cancelled_during_timer_wait Scripted.go_reactor
           (Wazero.mkContext (fun n => Nat.leb 1 n) Wazero.Canceled)
           0 (Scripted.go_machine [40; -1]%Z) 40 [(-1)%Z]
           ltac:(lia) eq_refl eq_refl
           (scripted_go_tick_returns 40 [(-1)%Z] ltac:(lia))).
Defined.


Lemma LoopOnce_low_32_bits_witness :
  exists v,
    Wazero.LoopOnce Scripted.go_reactor (Scripted.go_machine [(-1)%Z])
    = (Wazero.Returns (v, None),
       Wazero.ticked [] (Scripted.go_machine [(-1)%Z]))
    /\ (- 2 ^ 31 <= v < 2 ^ 31)%Z
    /\ (v mod 2 ^ 32 = 4294967295 mod 2 ^ 32)%Z.
Proof.
  exact (LoopOnce_low_32_bits Scripted.go_reactor
           (Scripted.go_machine [(-1)%Z]) 4294967295%Z [] [] eq_refl).
Defined.

Lemma Run_follows_answers_witness :
  exists m',
    Wazero.Run 6 Wazero.Background Scripted.go_reactor
      (Scripted.go_machine [3; -2; 0; 7; -1]%Z)
    = Some (Wazero.Returns None, m')
    /\ Wazero.guest m' = []
    /\ Wazero.calls m'
       = [] ++ Wazero.CallStartMain
           :: flat_map Answers.go_round_events [3; -2; 0; 7]%Z
              ++ [Wazero.CallTick].
Proof.
  refine (Run_follows_answers Scripted.go_reactor Wazero.Background 6
            (Scripted.go_machine [3; -2; 0; 7; -1]%Z) [] 
            [3; -2; 0; 7; -1]%Z [3; -2; 0; 7]%Z [(-1)%Z] []
            (fun _ => eq_refl) eq_refl _ _ _ _).
  - cbn. repeat (eexists; split; [apply scripted_go_tick_returns; lia|]).
    reflexivity.
  - repeat (constructor; [lia|]). constructor.
  - apply scripted_go_tick_returns. lia.
  - cbn. lia.
Defined.

(* ===================================================================== *)
(** ** Construction of the Go reactor *)
(* ===================================================================== *)

Section GoConstruction.

Import Wazero.

Context {G : Type}.

(** X8.  What [NewReactor] returns and leaves behind.  Exactly one of the
    reactor and the error is [nil].  A reactor is returned only when the
    three wazero steps succeed, the three entry points are exported (they
    are the reactor's functions) and [_initialize] returns no error; the
    module is then left open and [_initialize] has been called once.  On
    a failure before the module is instantiated no call is made; on every
    failure after it the module is closed last.  No path calls
    [go_start_main] or [go_tick]. *)
Theorem NewReactor_result (wasm : Wasm G) :
  let '((reactor, err), m) := NewReactor wasm in
  (is_Some reactor <-> err = None)
  /\ (forall re, reactor = Some re ->
        wasi_instantiate wasm = None
        /\ compile_module wasm = None
        /\ instantiate_module wasm = None
        /\ exported_functions wasm !! "_initialize"%string = Some (initialize re)
        /\ exported_functions wasm !! "go_start_main"%string
           = Some (goStartMain re)
        /\ exported_functions wasm !! "go_tick"%string = Some (goTick re)
        /\ (exists rs, initialize re (initial wasm) = ((rs, None), guest m))
        /\ calls m = [CallInitialize])
  /\ (reactor = None ->
        if decide (wasi_instantiate wasm = None
                   /\ compile_module wasm = None
                   /\ instantiate_module wasm = None)
        then calls m = [ModClose] \/ calls m = [CallInitialize; ModClose]
        else calls m = [] /\ guest m = initial wasm)
  /\ (CallStartMain ∉ calls m)
  /\ (CallTick ∉ calls m).
Proof.
  unfold NewReactor.
  assert (Hnot : forall ev, ev <> ModClose -> ev <> CallInitialize ->
            (ev ∉ @nil Event) /\ (ev ∉ [ModClose]) /\ (ev ∉ [CallInitialize])
            /\ (ev ∉ [CallInitialize; ModClose])).
  { intros ev H1 H2. repeat split; intros Hin;
      repeat (apply elem_of_cons in Hin; destruct Hin as [Hin|Hin];
              [congruence|]); apply elem_of_nil in Hin; exact Hin. }
  destruct (Hnot CallStartMain) as (S0 & S1 & S2 & S3); [discriminate..|].
  destruct (Hnot CallTick) as (T0 & T1 & T2 & T3); [discriminate..|].
  assert (Hfail : forall e : GoError,
            (is_Some (@None (Reactor G)) <-> Some e = None)).
  { intros e. split; [intros [x Hx]; discriminate|discriminate]. }
  destruct (wasi_instantiate wasm) as [e|] eqn:H1.
  { cbn. repeat split; try apply Hfail; try discriminate; try assumption;
      try (case_decide as D; [destruct D as (C1 & C2 & C3); discriminate
                             |split; reflexivity]). }
  destruct (compile_module wasm) as [e|] eqn:H2.
  { cbn. repeat split; try apply Hfail; try discriminate; try assumption;
      try (case_decide as D; [destruct D as (C1 & C2 & C3); discriminate
                             |split; reflexivity]). }
  destruct (instantiate_module wasm) as [e|] eqn:H3.
  { cbn. repeat split; try apply Hfail; try discriminate; try assumption;
      try (case_decide as D; [destruct D as (C1 & C2 & C3); discriminate
                             |split; reflexivity]). }
  assert (Hok : @None GoError = None /\ @None GoError = None
                /\ @None GoError = None) by (repeat split).
  destruct (exported_functions wasm !! "_initialize"%string) as [fi|] eqn:Hi.
  2:{ cbn. repeat split; try apply Hfail; try discriminate; try assumption;
      try (case_decide as D; [|exfalso; apply D; exact Hok]);
      try (left; reflexivity). }
  destruct (exported_functions wasm !! "go_start_main"%string) as [fs|] eqn:Hs.
  2:{ cbn. repeat split; try apply Hfail; try discriminate; try assumption;
      try (case_decide as D; [|exfalso; apply D; exact Hok]);
      try (left; reflexivity). }
  destruct (exported_functions wasm !! "go_tick"%string) as [ft|] eqn:Ht.
  2:{ cbn. repeat split; try apply Hfail; try discriminate; try assumption;
      try (case_decide as D; [|exfalso; apply D; exact Hok]);
      try (left; reflexivity). }
  unfold Call. cbn [guest polls calls].
  destruct (fi (initial wasm)) as [[rs [e|]] g'] eqn:Hcall.
  { cbn. repeat split; try apply Hfail; try discriminate; try assumption;
      try (case_decide as D; [|exfalso; apply D; exact Hok]);
      try (right; reflexivity). }
  cbn. split; [split; [reflexivity|intros _; eexists; reflexivity]|].
  split.
  { intros re [= <-]. cbn. repeat split. exists rs. exact Hcall. }
  split; [discriminate|]. split; assumption.
Qed.

End GoConstruction.

(* ===================================================================== *)
(** ** The environment [NewReactor] passes to the guest *)
(* ===================================================================== *)

Section GoEnvironment.

Import Setup.
Local Open Scope string_scope.

Lemma append_cons a p r :
  String.append (String a p) r = String a (String.append p r).
Proof. reflexivity. Qed.

Lemma append_empty_r p : String.append p "" = p.
Proof. induction p as [|a p IH]; [reflexivity|]. rewrite append_cons, IH. reflexivity. Qed.

Lemma get_at_length p c r :
  String.get (String.length p) (String.append p (String c r)) = Some c.
Proof. induction p as [|a p IH]; [reflexivity|exact IH]. Qed.

Lemma substring_all r : String.substring 0 (String.length r) r = r.
Proof. induction r as [|a r IH]; cbn; [reflexivity|rewrite IH; reflexivity]. Qed.

Lemma substring_prefix p r :
  String.substring 0 (String.length p) (String.append p r) = p.
Proof.
  induction p as [|a p IH].
  - destruct r; reflexivity.
  - rewrite append_cons. cbn. rewrite IH. reflexivity.
Qed.

Lemma substring_suffix p c r :
  String.substring (String.length p + 1)
    (String.length (String.append p (String c r)) - (String.length p + 1))
    (String.append p (String c r)) = r.
Proof.
  induction p as [|a p IH].
  - change (String.substring 0 (String.length r - 0) r = r).
    rewrite Nat.sub_0_r. apply substring_all.
  - exact IH.
Qed.

Lemma append_snoc p c r :
  String.append p (String c r) = String.append (String.append p (String c "")) r.
Proof.
  induction p as [|a p IH]; [reflexivity|].
  rewrite !append_cons, IH. reflexivity.
Qed.

Lemma length_snoc p c :
  String.length (String.append p (String c "")) = (String.length p + 1)%nat.
Proof.
  induction p as [|a p IH]; [reflexivity|].
  rewrite append_cons. cbn. rewrite IH. reflexivity.
Qed.

Lemma env_scan_spec r :
  forall p k v,
    env_scan (String.append p r) (String.length p) (String.length r) = Some (k, v)
    <-> exists k',
          k = String.append p k'
          /\ r = String.append k' (String "=" v)
          /\ forall i, String.get i k' <> Some "="%char.
Proof.
  induction r as [|c r IH]; intros p k v.
  - cbn [String.length env_scan]. split; [discriminate|].
    intros (k' & _ & H & _). destruct k'; discriminate.
  - cbn [String.length env_scan]. rewrite get_at_length.
    destruct (Ascii.eqb_spec c "="%char) as [->|Hc].
    + rewrite substring_prefix, substring_suffix. split.
      * intros [= <- <-]. exists "". split; [|split].
        -- symmetry. apply append_empty_r.
        -- reflexivity.
        -- intros i. destruct i; discriminate.
      * intros (k' & -> & Hr & Hno). destruct k' as [|a k'].
        -- injection Hr as <-. rewrite append_empty_r. reflexivity.
        -- rewrite append_cons in Hr. injection Hr as <- _.
           exfalso. exact (Hno 0%nat eq_refl).
    + rewrite (append_snoc p c r), <- (length_snoc p c). rewrite IH. split.
      * intros (k' & -> & -> & Hno). exists (String c k'). split; [|split].
        -- symmetry. apply append_snoc.
        -- reflexivity.
        -- intros [|i]; cbn; [congruence|apply Hno].
      * intros (k' & -> & Hr & Hno). destruct k' as [|a k'].
        -- injection Hr as -> _. congruence.
        -- rewrite append_cons in Hr. injection Hr as <- ->.
           exists k'. split; [|split].
           ++ apply append_snoc.
           ++ reflexivity.
           ++ intros i. exact (Hno (S i)).
Qed.

(** X9.  The environment of the guest.  [NewReactor] passes
    [WithEnv(k, v)] exactly for the entries of [cfg.Env] of the form
    [k=v] in which [k] holds no ['=']: an entry is split at its first
    ['='], the value may hold further ones and the key may be empty, and
    an entry without ['='] is dropped without an error.  A [nil] config
    passes none. *)
Theorem module_config_env (cfg : option Config) (k v : string) :
  (k, v) ∈ with_env (module_config cfg)
  <-> exists c env,
        cfg = Some c
        /\ env ∈ Env c
        /\ env = String.append k (String "=" v)
        /\ forall i, String.get i k <> Some "="%char.
Proof.
  unfold module_config. cbn [with_env].
  rewrite list_elem_of_omap.
  assert (Hcall : forall env,
            env_call env = Some (k, v)
            <-> env = String.append k (String "=" v)
                /\ forall i, String.get i k <> Some "="%char).
  { intros env. unfold env_call.
    pose proof (env_scan_spec env "" k v) as H. cbn [String.append String.length] in H.
    rewrite H. split.
    - intros (k' & -> & -> & Hno). split; [reflexivity|exact Hno].
    - intros [-> Hno]. exists k. repeat split. exact Hno. }
  split.
  - intros (env & Hin & Hc). destruct cfg as [c|]; cbn in Hin.
    + exists c, env. apply Hcall in Hc. destruct Hc as [He Hno].
      repeat split; assumption.
    + apply elem_of_nil in Hin. destruct Hin.
  - intros (c & env & -> & Hin & He & Hno). exists env. split; [exact Hin|].
    apply Hcall. split; assumption.
Qed.

End GoEnvironment.

(* ===================================================================== *)
(** ** What the shim stores for the clock and for a descriptor *)
(* ===================================================================== *)

Section Stores.

Import Js.
Local Open Scope Z_scope.
Implicit Types (buf : Buffer) (h : Host).

Lemma view_set_at n off v h buf :
  0 <= off -> off + Z.of_nat n <= Z.of_nat (length buf) ->
  view_set n MemoryBuffer off v (mem_update h buf)
  = (Normal tt, mem_update h (splice (Z.to_nat off) (le_split n v) buf)).
Proof.
  intros H0 H1. rewrite view_set_ok by (apply in_bounds_spec; simpl; lia).
  rewrite mem_update_twice. reflexivity.
Qed.

Lemma length_store n off v buf :
  0 <= off -> off + Z.of_nat n <= Z.of_nat (length buf) ->
  length (splice (Z.to_nat off) (le_split n v) buf) = length buf.
Proof. intros H0 H1. apply length_splice. rewrite length_le_split. lia. Qed.

Lemma uint_at_store n off v buf :
  0 <= off -> off + Z.of_nat n <= Z.of_nat (length buf) ->
  Fields.uint_at n (splice (Z.to_nat off) (le_split n v) buf) off
  = v mod 2 ^ (Z.of_nat n * 8).
Proof.
  intros H0 H1. unfold Fields.uint_at.
  pose proof (span_splice_same (Z.to_nat off) (le_split n v) buf) as Hs.
  rewrite length_le_split in Hs. rewrite Hs by lia.
  apply le_combine_split.
Qed.

Lemma span_store_disjoint (a k : nat) n off v buf :
  0 <= off -> off + Z.of_nat n <= Z.of_nat (length buf) ->
  Z.of_nat a + Z.of_nat k <= off \/ off + Z.of_nat n <= Z.of_nat a ->
  span a k (splice (Z.to_nat off) (le_split n v) buf) = span a k buf.
Proof.
  intros H0 H1 Hd. apply span_splice_disjoint; rewrite length_le_split; lia.
Qed.

Lemma uint_at_store_disjoint k at_ n off v buf :
  0 <= at_ -> 0 <= off -> off + Z.of_nat n <= Z.of_nat (length buf) ->
  at_ + Z.of_nat k <= off \/ off + Z.of_nat n <= at_ ->
  Fields.uint_at k (splice (Z.to_nat off) (le_split n v) buf) at_
  = Fields.uint_at k buf at_.
Proof.
  intros Ha H0 H1 Hd. unfold Fields.uint_at. f_equal.
  apply span_store_disjoint; lia.
Qed.

(** X10.  [clock_time_get] stores the time as a 64-bit little-endian
    number at [time_ptr]: the wall clock in milliseconds times 1000000
    for clock id 0, the monotonic clock for EVERY other id; the precision
    argument plays no part.  The rest of the memory, its size and the
    two sinks are as before. *)
Theorem clock_time_get_stores_time clock_id precision time_ptr h :
  let buf := memory_buffer (heap h) in
  memory h = Some (mkMemory MemoryBuffer) ->
  0 <= time_ptr -> time_ptr + 8 <= Z.of_nat (length buf) ->
  exists buf',
    clock_time_get clock_id precision time_ptr h = (Normal 0, mem_update h buf')
    /\ length buf' = length buf
    /\ Fields.u64_at buf' time_ptr = Fields.clock_value clock_id h mod 2 ^ 64
    /\ (forall a k : nat,
          Z.of_nat a + Z.of_nat k <= time_ptr \/ time_ptr + 8 <= Z.of_nat a ->
          span a k buf' = span a k buf).
Proof.
  intros buf Hm H0 H1.
  exists (splice (Z.to_nat time_ptr)
            (le_split 8 (Fields.clock_value clock_id h)) buf).
  split; [|split; [|split]].
  - unfold clock_time_get, bind, get.
    rewrite (memory_buffer_of_set _ _ Hm). cbv beta iota. cbn [buffer].
    unfold setBigUint64.
    rewrite view_set_ok by (apply in_bounds_spec; fold buf; simpl; lia).
    reflexivity.
  - apply length_store; simpl; lia.
  - apply (uint_at_store 8); simpl; lia.
  - intros a k Hd. apply span_store_disjoint; simpl; lia.
Qed.

(** X11.  [fd_fdstat_get] fills 19 of the 24 bytes of the [fdstat]
    record: the file type is 2 (character device) for every descriptor
    up to 2, the negative ones too, and 6 (regular file) above; the
    flags are 0 and both rights fields have all 64 bits set.  The bytes
    at offsets 1 and 4 to 7 keep what the guest had there, as does the
    memory outside the record. *)
Theorem fd_fdstat_get_layout fd stat_ptr h :
  let buf := memory_buffer (heap h) in
  memory h = Some (mkMemory MemoryBuffer) ->
  0 <= stat_ptr -> stat_ptr + 24 <= Z.of_nat (length buf) ->
  exists buf',
    fd_fdstat_get fd stat_ptr h = (Normal 0, mem_update h buf')
    /\ length buf' = length buf
    /\ Fields.u8_at buf' stat_ptr = (if fd <=? 2 then 2 else 6)
    /\ Fields.u16_at buf' (stat_ptr + 2) = 0
    /\ Fields.u64_at buf' (stat_ptr + 8) = 2 ^ 64 - 1
    /\ Fields.u64_at buf' (stat_ptr + 16) = 2 ^ 64 - 1
    /\ span (Z.to_nat stat_ptr + 1) 1 buf' = span (Z.to_nat stat_ptr + 1) 1 buf
    /\ span (Z.to_nat stat_ptr + 4) 4 buf' = span (Z.to_nat stat_ptr + 4) 4 buf
    /\ (forall a k : nat,
          Z.of_nat a + Z.of_nat k <= stat_ptr \/ stat_ptr + 24 <= Z.of_nat a ->
          span a k buf' = span a k buf).
Proof.
  intros buf Hm H0 H1.
  set (ft := if fd <=? 2 then 2 else 6).
  set (b1 := splice (Z.to_nat stat_ptr) (le_split 1 ft) buf).
  set (b2 := splice (Z.to_nat (stat_ptr + 2)) (le_split 2 0) b1).
  set (b3 := splice (Z.to_nat (stat_ptr + 8))
               (le_split 8 0xFFFFFFFFFFFFFFFF) b2).
  set (b4 := splice (Z.to_nat (stat_ptr + 16))
               (le_split 8 0xFFFFFFFFFFFFFFFF) b3).
  assert (L1 : length b1 = length buf) by (apply length_store; simpl; lia).
  assert (L2 : length b2 = length buf)
    by (unfold b2; rewrite length_store; simpl; lia).
  assert (L3 : length b3 = length buf)
    by (unfold b3; rewrite length_store; simpl; lia).
  assert (L4 : length b4 = length buf)
    by (unfold b4; rewrite length_store; simpl; lia).
  exists b4. split.
  { unfold fd_fdstat_get, bind.
    rewrite (memory_buffer_of_set _ _ Hm). cbv beta iota. cbn [buffer].
    unfold setUint8, setUint16, setBigUint64.
    assert (E1 : (if fd <=? 2 then view_set 1 MemoryBuffer stat_ptr 2
                  else view_set 1 MemoryBuffer stat_ptr 6) h
                 = (Normal tt, mem_update h b1)).
    { unfold b1, ft. destruct (fd <=? 2);
        apply view_set_ok; apply in_bounds_spec; fold buf; simpl; lia. }
    rewrite E1.
    rewrite view_set_at by (simpl; lia). fold b2.
    rewrite view_set_at by (simpl; lia). fold b3.
    rewrite view_set_at by (simpl; lia). fold b4.
    reflexivity. }
  split; [exact L4|].
  assert (Hft : ft mod 2 ^ (Z.of_nat 1 * 8) = ft).
  { unfold ft. destruct (fd <=? 2); reflexivity. }
  split.
  { unfold Fields.u8_at, b4.
    rewrite uint_at_store_disjoint by (simpl; lia). unfold b3.
    rewrite uint_at_store_disjoint by (simpl; lia). unfold b2.
    rewrite uint_at_store_disjoint by (simpl; lia). unfold b1.
    rewrite uint_at_store by (simpl; lia). exact Hft. }
  split.
  { unfold Fields.u16_at, b4.
    rewrite uint_at_store_disjoint by (simpl; lia). unfold b3.
    rewrite uint_at_store_disjoint by (simpl; lia). unfold b2.
    rewrite uint_at_store by (simpl; lia). reflexivity. }
  split.
  { unfold Fields.u64_at, b4.
    rewrite uint_at_store_disjoint by (simpl; lia). unfold b3.
    rewrite uint_at_store by (simpl; lia). reflexivity. }
  split.
  { unfold Fields.u64_at, b4.
    rewrite uint_at_store by (simpl; lia). reflexivity. }
  assert (Hframe : forall a k : nat,
            (Z.of_nat a + Z.of_nat k <= stat_ptr \/ stat_ptr + 24 <= Z.of_nat a)
            \/ (stat_ptr + 1 <= Z.of_nat a /\ Z.of_nat a + Z.of_nat k <= stat_ptr + 2)
            \/ (stat_ptr + 4 <= Z.of_nat a /\ Z.of_nat a + Z.of_nat k <= stat_ptr + 8) ->
            span a k b4 = span a k buf).
  { intros a k Hd. unfold b4.
    rewrite span_store_disjoint by (simpl; lia). unfold b3.
    rewrite span_store_disjoint by (simpl; lia). unfold b2.
    rewrite span_store_disjoint by (simpl; lia). unfold b1.
    rewrite span_store_disjoint by (simpl; lia). reflexivity. }
  split; [apply Hframe; lia|].
  split; [apply Hframe; lia|].
  intros a k Hd. apply Hframe. left. exact Hd.
Qed.

End Stores.

(* ===================================================================== *)
(** ** [fd_write] on the other descriptors, and effects before a fault *)
(* ===================================================================== *)

Section Effects.

Import Js.
Local Open Scope Z_scope.

(** X12.  [fd_write] reports success on every descriptor.  On 2 the text
    goes to the [stderr] sink and not to [stdout]; on any other
    descriptor but 1 (0, a negative one, one never opened) the text is
    dropped, and the number of bytes is still stored at [nwritten_ptr]
    as written. *)
Theorem fd_write_other_descriptors fd iovs_ptr iovs_len nwritten_ptr h :
  let buf := memory_buffer (heap h) in
  let text := Layout.iovec_text buf iovs_ptr iovs_len in
  memory h = Some (mkMemory MemoryBuffer) ->
  (forall i, 0 <= i < iovs_len ->
     0 <= iovs_ptr + i * 8 /\ iovs_ptr + i * 8 + 8 <= Z.of_nat (length buf)) ->
  0 <= nwritten_ptr -> nwritten_ptr + 4 <= Z.of_nat (length buf) ->
  Layout.iovec_total buf iovs_ptr iovs_len < 2 ^ 32 ->
  fd <> 1 ->
  exists h',
    fd_write fd iovs_ptr iovs_len nwritten_ptr h = (Normal 0, h')
    /\ stdout h' = stdout h
    /\ stderr h' = (if fd =? 2 then stderr h ++ [text] else stderr h)
    /\ Layout.u32_at (memory_buffer (heap h')) nwritten_ptr
       = Layout.iovec_total buf iovs_ptr iovs_len.
Proof.
  intros buf text Hm Hiov N1 N2 Htot Hfd.
  destruct (fd_write_result fd iovs_ptr iovs_len nwritten_ptr h Hm Hiov N1 N2)
    as (h' & Hrun & Hout & Herr & Hbuf).
  exists h'. split; [exact Hrun|].
  destruct (Z.eqb_spec fd 1) as [E|_]; [contradiction|].
  split; [exact Hout|]. split; [exact Herr|].
  rewrite Hbuf. rewrite u32_at_splice by (fold buf; lia).
  apply Z.mod_small. split; [apply iovec_total_nonneg|exact Htot].
Qed.

(** X13.  The sink is called before the count is stored: when the
    iovecs can be read and [nwritten_ptr] lies outside the memory,
    [fd_write] throws a RangeError, and the text has by then been handed
    to the sink of descriptor 1 or 2; the guest's memory is unchanged. *)
Theorem fd_write_emits_before_fault fd iovs_ptr iovs_len nwritten_ptr h :
  let buf := memory_buffer (heap h) in
  let text := Layout.iovec_text buf iovs_ptr iovs_len in
  memory h = Some (mkMemory MemoryBuffer) ->
  (forall i, 0 <= i < iovs_len ->
     0 <= iovs_ptr + i * 8 /\ iovs_ptr + i * 8 + 8 <= Z.of_nat (length buf)) ->
  nwritten_ptr < 0 \/ Z.of_nat (length buf) < nwritten_ptr + 4 ->
  exists h',
    fd_write fd iovs_ptr iovs_len nwritten_ptr h = (Throw RangeError, h')
    /\ stdout h' = (if fd =? 1 then stdout h ++ [text] else stdout h)
    /\ stderr h' = (if fd =? 1 then stderr h
                    else if fd =? 2 then stderr h ++ [text] else stderr h)
    /\ memory_buffer (heap h') = buf.
Proof.
  intros buf text Hm Hiov Hout.
  destruct (fd_write_loop iovs_ptr (seqZ 0 iovs_len) 0 [] h)
    as (h1 & Hloop & Hs).
  { intros i Hi. apply elem_of_seqZ in Hi. apply Hiov. lia. }
  destruct (same_but_scratch_memory _ _ Hs) as (Hm1 & Hb1 & Ho1 & He1).
  fold buf in Hloop, Hb1.
  rewrite Z.add_0_l, app_nil_l in Hloop.
  fold (Layout.iovec_total buf iovs_ptr iovs_len) in Hloop.
  fold (Layout.iovec_text buf iovs_ptr iovs_len) in Hloop. fold text in Hloop.
  unfold fd_write, bind.
  repeat (rewrite (memory_buffer_of_set _ _ Hm); cbv beta iota).
  simpl buffer. rewrite Hloop. cbv beta iota.
  unfold setUint32, call_stdout, call_stderr, modify, ret.
  destruct (fd =? 1) eqn:E1; [|destruct (fd =? 2) eqn:E2];
    (rewrite view_set_out_of_bounds
       by (apply out_of_range; simpl; rewrite Hb1; exact Hout));
    (eexists; split; [reflexivity|]);
    unfold with_stdout, with_stderr; simpl;
    rewrite ?Hb1, ?Ho1, ?He1; repeat split; reflexivity.
Qed.

(** X14.  [args_sizes_get] and [environ_sizes_get] store the count before
    they look at the second pointer: when only that one lies outside the
    memory the call throws a RangeError and the count has been stored. *)
Theorem sizes_get_partial_store strs count_ptr buf_size_ptr h :
  let buf := memory_buffer (heap h) in
  memory h = Some (mkMemory MemoryBuffer) ->
  0 <= count_ptr -> count_ptr + 4 <= Z.of_nat (length buf) ->
  buf_size_ptr < 0 \/ Z.of_nat (length buf) < buf_size_ptr + 4 ->
  exists h',
    sizes_get strs count_ptr buf_size_ptr h = (Throw RangeError, h')
    /\ Layout.u32_at (memory_buffer (heap h')) count_ptr
       = Z.of_nat (length strs) mod 2 ^ 32
    /\ length (memory_buffer (heap h')) = length buf.
Proof.
  intros buf Hm H1 H2 Hout. unfold sizes_get, bind.
  rewrite (memory_buffer_of_set _ _ Hm). simpl buffer. unfold setUint32.
  rewrite view_set_ok by (apply in_bounds_spec; fold buf; lia).
  fold buf. set (buf1 := splice _ _ buf).
  assert (L1 : length buf1 = length buf).
  { apply length_splice. rewrite length_le_split. lia. }
  rewrite view_set_out_of_bounds
    by (apply out_of_range; simpl; rewrite L1; exact Hout).
  eexists. split; [reflexivity|]. simpl. split; [|exact L1].
  apply u32_at_splice; lia.
Qed.

End Effects.

Lemma clock_time_get_stores_time_witness :
  let h := Js.mkHost (Some (Js.mkMemory Js.MemoryBuffer))
             (Js.mkHeap (repeat Byte.x01 24) []) [] []
             1700000000000 42 (fun _ => Byte.x00) 0 in
  exists buf',
    Js.clock_time_get 0 1000 8 h = (Js.Normal 0%Z, Js.mem_update h buf')
    /\ length buf' = 24%nat
    /\ Fields.u64_at buf' 8 = 1700000000000000000%Z
    /\ Js.span 0 8 buf' = repeat Byte.x01 8
    /\ Js.span 16 8 buf' = repeat Byte.x01 8.
Proof.
  intros h.
  destruct (clock_time_get_stores_time 0 1000 8 h eq_refl)
    as (buf' & R1 & R2 & R3 & R4); [lia|vm_compute; discriminate|].
  exists buf'. split; [exact R1|]. split; [exact R2|]. split; [exact R3|].
  split; [apply (R4 0%nat 8%nat); lia|apply (R4 16%nat 8%nat); lia].
Defined.

Lemma fd_fdstat_get_layout_witness :
  let h := Js.mkHost (Some (Js.mkMemory Js.MemoryBuffer))
             (Js.mkHeap (repeat Byte.x01 32) []) [] []
             0 0 (fun _ => Byte.x00) 0 in
  exists buf',
    Js.fd_fdstat_get (-4) 8 h = (Js.Normal 0%Z, Js.mem_update h buf')
    /\ Fields.u8_at buf' 8 = 2%Z
    /\ Fields.u16_at buf' 10 = 0%Z
    /\ Fields.u64_at buf' 16 = 18446744073709551615%Z
    /\ Fields.u64_at buf' 24 = 18446744073709551615%Z
    /\ Js.span 9 1 buf' = [Byte.x01]
    /\ Js.span 12 4 buf' = repeat Byte.x01 4.
Proof.
  intros h.
  destruct (fd_fdstat_get_layout (-4) 8 h eq_refl)
    as (buf' & R1 & _ & R3 & R4 & R5 & R6 & R7 & R8 & _);
    [lia|vm_compute; discriminate|].
  exists buf'. repeat (split; [assumption|]). exact R8.
Defined.

Lemma fd_write_other_descriptors_witness :
  let h := Scripted.js_host_holding
             [(0%nat, le_split 4 32 ++ le_split 4 2);
              (32%nat, [Byte.x48; Byte.x69])] 64 in
  (exists h',
     Js.fd_write 2 0 1 24 h = (Js.Normal 0%Z, h')
     /\ Js.stdout h' = []
     /\ Js.stderr h' = [[72; 105]%Z]
     /\ Layout.u32_at (Js.memory_buffer (Js.heap h')) 24 = 2%Z)
  /\ (exists h',
     Js.fd_write 7 0 1 24 h = (Js.Normal 0%Z, h')
     /\ Js.stdout h' = []
     /\ Js.stderr h' = []
     /\ Layout.u32_at (Js.memory_buffer (Js.heap h')) 24 = 2%Z).
Proof.
  intros h.
  assert (Hiov : forall i, (0 <= i < 1)%Z ->
            (0 <= 0 + i * 8
             /\ 0 + i * 8 + 8
                <= Z.of_nat (length (Js.memory_buffer (Js.heap h))))%Z).
  { intros i Hi. assert (i = 0%Z) as -> by lia. split; vm_compute; discriminate. }
  split.
  - destruct (fd_write_other_descriptors 2 0 1 24 h eq_refl Hiov)
      as (h' & R1 & R2 & R3 & R4);
      try (vm_compute; discriminate); try (vm_compute; reflexivity).
    exists h'. split; [exact R1|]. split; [exact R2|]. split; [exact R3|exact R4].
  - destruct (fd_write_other_descriptors 7 0 1 24 h eq_refl Hiov)
      as (h' & R1 & R2 & R3 & R4);
      try (vm_compute; discriminate); try (vm_compute; reflexivity).
    exists h'. split; [exact R1|]. split; [exact R2|]. split; [exact R3|exact R4].
Defined.

Lemma fd_write_emits_before_fault_witness :
  let h := Scripted.js_host_holding
             [(0%nat, le_split 4 32 ++ le_split 4 2);
              (32%nat, [Byte.x48; Byte.x69])] 64 in
  exists h',
    Js.fd_write 1 0 1 61 h = (Js.Throw Js.RangeError, h')
    /\ Js.stdout h' = [[72; 105]%Z]
    /\ Js.memory_buffer (Js.heap h') = Js.memory_buffer (Js.heap h).
Proof.
  intros h.
  assert (Hiov : forall i, (0 <= i < 1)%Z ->
            (0 <= 0 + i * 8
             /\ 0 + i * 8 + 8
                <= Z.of_nat (length (Js.memory_buffer (Js.heap h))))%Z).
  { intros i Hi. assert (i = 0%Z) as -> by lia. split; vm_compute; discriminate. }
  destruct (fd_write_emits_before_fault 1 0 1 61 h eq_refl Hiov)
    as (h' & R1 & R2 & _ & R4); [right; vm_compute; reflexivity|].
  exists h'. split; [exact R1|]. split; [exact R2|exact R4].
Defined.

Lemma sizes_get_partial_store_witness :
  exists h',
    Js.args_sizes_get Scripted.shim 0 62 (Scripted.js_host_ready 64)
    = (Js.Throw Js.RangeError, h')
    /\ Layout.u32_at (Js.memory_buffer (Js.heap h')) 0 = 1%Z.
Proof.
  destruct (sizes_get_partial_store (Js.args Scripted.shim) 0 62
              (Scripted.js_host_ready 64) eq_refl)
    as (h' & R1 & R2 & _);
    [lia|vm_compute; discriminate|right; vm_compute; reflexivity|].
  exists h'. split; [exact R1|exact R2].
Defined.

(* ===================================================================== *)
(** ** How a call of the shim can end *)
(* ===================================================================== *)

Section CallOutcomes.

Import Js.
Import Faults.
Local Open Scope Z_scope.
Local Open Scope js_scope.



Lemma ends_with_weaken {A} e (Q P : A -> Prop) (c : JS Host A) :
  ends_with e Q c -> (forall a, Q a -> P a) -> ends_with e P c.
Proof.
  intros Hc HQP h Hm. destruct (Hc h Hm) as [Hmem Hres].
  split; [exact Hmem|]. destruct (fst (c h)); [apply HQP|]; exact Hres.
Qed.

























End CallOutcomes.

(* ===================================================================== *)
(** ** Construction and start of the TypeScript reactor *)
(* ===================================================================== *)

Section JsConstruction.

Import Js.
Local Open Scope Z_scope.

Context {G : Type}.

(** X16.  [createReactor] on a module that links and exports the three
    entry points, with the shim's [setMemory]: [_initialize] runs once,
    after [setMemory], on a host whose [memory] reference is
    [exports.memory] (unset when the module exports no memory), so the
    imports it calls see the memory.  When it returns, the reactor is
    returned with [mainStarted] false; when it throws, [createReactor]
    throws the same exception and returns no reactor. *)
Theorem createReactor_initializes_after_setMemory
    (wasmModule : Module G) (options : ReactorOptions) (m : Machine G)
    (init start tick : G -> Guest (Z * G)) :
  links wasmModule = true ->
  module_exports wasmModule !! "_initialize"%string = Some (FuncExport init) ->
  module_exports wasmModule !! "go_start_main"%string = Some (FuncExport start) ->
  module_exports wasmModule !! "go_tick"%string = Some (FuncExport tick) ->
  opt_setMemory options = Some setMemory ->
  let exports :=
    mkExports (opt_wasiImports options) (module_exports wasmModule) in
  let h0 := with_memory (exports_memory exports) (host m) in
  let log' := calls m ++ [CallSetMemory; CallInitialize] in
  createReactor wasmModule options m
  = match run_guest (opt_wasiImports options) (init (guest m)) h0 with
    | (Normal (_, g), h') =>
        (Normal (mkReactor exports (opt_debug options) (opt_onTick options)),
         mkMachine g h' false log')
    | (Throw e, h') =>
        (Throw e, mkMachine (guest m) h' (mainStarted m) log')
    end.
Proof.
  intros Hl Hi Hs Ht Hset exports h0 log'.
  unfold createReactor, instantiate. rewrite Hl. unfold bind at 1. unfold ret at 1.
  fold exports.
  unfold is_function. cbn [props exports]. rewrite Hi, Hs, Ht. cbn [negb].
  rewrite Hset.
  unfold bind, log, on_host, setMemory, call_export, set_mainStarted, ret.
  unfold modify.
  cbn [host guest mainStarted calls logged props imports exports].
  rewrite Hi. fold h0.
  destruct (run_guest (opt_wasiImports options) (init (guest m)) h0)
    as [[[v g]|e] h']; unfold log'; rewrite <- app_assoc; reflexivity.
Qed.

Variable r : Reactor G.

Lemma call_export_keeps (name : string) (m : Machine G) :
  mainStarted (snd (call_export (exports r) name m)) = mainStarted m
  /\ calls (snd (call_export (exports r) name m)) = calls m.
Proof.
  unfold call_export.
  destruct (props (exports r) !! name) as [[body| |]|]; try (split; reflexivity).
  destruct (run_guest _ _ _) as [[[v g]|e] h']; split; reflexivity.
Qed.

(** X17.  [mainStarted] is set only after [go_start_main] has returned.
    When the entry point throws, [startMain] throws the same exception
    with the flag still false; [runSync] and [runAsync] then throw it
    before the first tick, whatever their fuel; and the next [startMain]
    calls [go_start_main] again. *)
Theorem startMain_failure_is_retried (m m1 : Machine G) (e : Thrown) :
  mainStarted m = false ->
  call_export (exports r) "go_start_main" (logged CallStartMain m)
  = (Throw e, m1) ->
  startMain r m = (Throw e, m1)
  /\ mainStarted m1 = false
  /\ calls m1 = calls m ++ [CallStartMain]
  /\ (forall fuel, runSync r fuel m = Some (Throw e, m1))
  /\ (forall wait fuel, runAsync r wait fuel m = Some (Throw e, m1))
  /\ calls (snd (startMain r m1)) = calls m1 ++ [CallStartMain].
Proof.
  intros Hflag Hcall.
  assert (Hstart : startMain r m = (Throw e, m1)).
  { unfold startMain, bind, get. rewrite Hflag.
    unfold log, modify. rewrite Hcall. reflexivity. }
  pose proof (call_export_keeps "go_start_main" (logged CallStartMain m))
    as [Hk1 Hk2].
  rewrite Hcall in Hk1, Hk2. cbn [snd logged mainStarted calls] in Hk1, Hk2.
  split; [exact Hstart|]. split; [congruence|]. split; [exact Hk2|].
  split; [|split].
  - intros fuel. unfold runSync, then_loop. rewrite Hstart. reflexivity.
  - intros wait fuel. unfold runAsync, then_loop. rewrite Hstart. reflexivity.
  - unfold startMain, bind, get. rewrite Hk1, Hflag.
    unfold log, modify.
    pose proof (call_export_keeps "go_start_main" (logged CallStartMain m1))
      as [_ Hc].
    destruct (call_export (exports r) "go_start_main" (logged CallStartMain m1))
      as [[v|e'] m2]; cbn [snd] in *.
    + unfold set_mainStarted, modify. cbn. exact Hc.
    + exact Hc.
Qed.

(** X18.  An exception of the per-tick callback ends the run at once:
    the round throws it without calling [go_tick], in [runSync] and in
    [runAsync] alike. *)
Theorem onTick_exception_skips_tick
    (wait : Z -> JS Host unit) (f : JS Host unit) (m : Machine G)
    (e : Thrown) (h' : Host) (fuel : nat) :
  onTick r = Some f ->
  f (host m) = (Throw e, h') ->
  let m' := mkMachine (guest m) h' (mainStarted m) (calls m ++ [CallOnTick]) in
  while_true (S fuel) (runSync_round r) m = Some (Throw e, m')
  /\ while_true (S fuel) (runAsync_round r wait) m = Some (Throw e, m')
  /\ occurrences CallTick (calls m') = occurrences CallTick (calls m).
Proof.
  intros Hon Hf m'.
  assert (Hcb : call_onTick r m = (Throw e, m')).
  { unfold call_onTick. rewrite Hon. unfold bind, log, modify, on_host.
    cbn [logged host guest mainStarted calls]. rewrite Hf. reflexivity. }
  split; [|split].
  - apply while_true_throw. unfold runSync_round, bind. rewrite Hcb. reflexivity.
  - apply while_true_throw. unfold runAsync_round, bind. rewrite Hcb. reflexivity.
  - unfold m'. cbn [calls]. rewrite occurrences_app. 
    unfold occurrences at 2. rewrite filter_cons_False by discriminate.
    cbn. lia.
Qed.

(** X19.  A [wait] that throws (a rejected promise) ends [runAsync] with
    that exception, after the tick that asked for the wait. *)
Theorem wait_rejection_ends_runAsync
    (wait : Z -> JS Host unit) (m m1 : Machine G) (v : Z)
    (e : Thrown) (h' : Host) (fuel : nat) :
  0 < v ->
  tick_answers r m v m1 ->
  wait v (host m1) = (Throw e, h') ->
  while_true (S fuel) (runAsync_round r wait) m
  = Some (Throw e,
          mkMachine (guest m1) h' (mainStarted m1) (calls m1 ++ [CallWait v])).
Proof.
  intros Hv (m0 & Hcb & Htick) Hw.
  apply while_true_throw. unfold runAsync_round, bind.
  rewrite Hcb, Htick.
  destruct (Z.eqb_spec v (-1)); [lia|].
  destruct (Z.eqb_spec v 0); [lia|].
  destruct (Z.ltb_spec 0 v); [|lia].
  unfold log, modify, on_host. cbn [logged host guest mainStarted calls].
  rewrite Hw. reflexivity.
Qed.

Lemma while_true_normal {S} (body : JS S Round) fuel :
  forall s s',
    while_true fuel body s = Some (Normal tt, s') ->
    exists s0, body s0 = (Normal Leave, s').
Proof.
  induction fuel as [|fuel IH]; intros s s'; [discriminate|].
  cbn [while_true]. destruct (body s) as [[[]|e] s1] eqn:Hb.
  - intros [= <-]. exists s. exact Hb.
  - apply IH.
  - discriminate.
Qed.

Lemma runSync_round_leave m m' :
  runSync_round r m = (Normal Leave, m') ->
  exists m0, loopOnce r m0 = (Normal (-1), m').
Proof.
  unfold runSync_round, bind.
  destruct (call_onTick r m) as [[[]|e] m1]; [|discriminate].
  destruct (loopOnce r m1) as [[v|e] m2] eqn:HL; [|discriminate].
  destruct (Z.eqb_spec v (-1)) as [->|_].
  - intros [= <-]. exists m1. exact HL.
  - destruct (0 <? v); discriminate.
Qed.

Lemma runAsync_round_leave wait m m' :
  runAsync_round r wait m = (Normal Leave, m') ->
  exists m0, loopOnce r m0 = (Normal (-1), m').
Proof.
  unfold runAsync_round, bind.
  destruct (call_onTick r m) as [[[]|e] m1]; [|discriminate].
  destruct (loopOnce r m1) as [[v|e] m2] eqn:HL; [|discriminate].
  destruct (Z.eqb_spec v (-1)) as [->|_].
  - intros [= <-]. exists m1. exact HL.
  - destruct (v =? 0); [discriminate|].
    destruct (0 <? v); [|discriminate].
    unfold log, modify.
    destruct (on_host (wait v) (logged (CallWait v) m2)) as [[[]|e] m3];
      discriminate.
Qed.

(** X20.  [runSync] and [runAsync] return normally only right after a
    tick that returned [-1]: every other way out of the loop is an
    exception.  The tick is the last call of the run. *)
Theorem js_run_returns_after_idle_tick
    (wait : Z -> JS Host unit) (fuel : nat) (m m' : Machine G) :
  runSync r fuel m = Some (Normal tt, m')
  \/ runAsync r wait fuel m = Some (Normal tt, m') ->
  exists m0,
    loopOnce r m0 = (Normal (-1), m')
    /\ last (calls m') = Some CallTick.
Proof.
  assert (Hlast : forall m0 v,
            loopOnce r m0 = (Normal v, m') -> last (calls m') = Some CallTick).
  { intros m0 v HL. pose proof (loopOnce_calls r m0) as Hc.
    rewrite HL in Hc. cbn [snd] in Hc. rewrite Hc. apply last_snoc. }
  unfold runSync, runAsync, then_loop.
  destruct (startMain r m) as [[[]|e] m1].
  - intros [H|H]; apply while_true_normal in H; destruct H as (s0 & Hb).
    + apply runSync_round_leave in Hb. destruct Hb as (m0 & HL).
      exists m0. split; [exact HL|exact (Hlast _ _ HL)].
    + apply runAsync_round_leave in Hb. destruct Hb as (m0 & HL).
      exists m0. split; [exact HL|exact (Hlast _ _ HL)].
  - intros [H|H]; discriminate.
Qed.

Lemma runSync_round_again v m m1 :
  v <> -1 ->
  tick_answers r m v m1 ->
  runSync_round r m
  = (Normal Again, if 0 <? v then logged (BusyWait v) m1 else m1).
Proof.
  intros Hv (m0 & Hcb & Htick). unfold runSync_round, bind.
  rewrite Hcb, Htick.
  destruct (Z.eqb_spec v (-1)); [contradiction|].
  destruct (0 <? v); reflexivity.
Qed.

Lemma runSync_loop_follows_answers vs :
  forall fuel m m1 m',
    Answers.sync_answers r m vs m1 ->
    Forall (fun v => v <> -1) vs ->
    tick_answers r m1 (-1) m' ->
    (length vs < fuel)%nat ->
    while_true fuel (runSync_round r) m = Some (Normal tt, m')
    /\ calls m'
       = calls m ++ flat_map (Answers.sync_round_events r) vs
           ++ onTick_events r ++ [CallTick].
Proof.
  induction vs as [|v vs IH]; intros fuel m m1 m' Hans Hall Hlast Hfuel.
  - cbn in Hans. subst m1. destruct fuel as [|fuel]; [cbn in Hfuel; lia|].
    split.
    + apply while_true_leave. apply runSync_round_idle. exact Hlast.
    + cbn [flat_map app]. exact (tick_answers_calls r _ _ _ Hlast).
  - destruct Hans as (m2 & Hv & Hans).
    apply Forall_cons in Hall. destruct Hall as [Hne Hall].
    destruct fuel as [|fuel]; [cbn in Hfuel; lia|]. cbn [length] in Hfuel.
    rewrite (while_true_again _ _ _ _ (runSync_round_again v m m2 Hne Hv)).
    destruct (IH fuel _ m1 m' Hans Hall Hlast ltac:(lia)) as [Hrun Hc].
    split; [exact Hrun|]. rewrite Hc.
    pose proof (tick_answers_calls r m v m2 Hv) as Hc2.
    cbn [flat_map]. unfold Answers.sync_round_events at 2.
    destruct (0 <? v); cbn [logged calls]; rewrite Hc2;
      rewrite <- ?app_assoc; cbn [app]; reflexivity.
Qed.

(** X21.  [runSync] on any finite sequence of answers.  For a reactor
    that is started, a guest whose ticks answer the values [vs], none of
    them [-1], and then [-1] is run to completion: one callback (if any)
    and one tick per answer and for the final [-1], one busy wait of that
    many milliseconds after each positive answer, none after a zero or a
    negative one, and [go_start_main] is not called. *)
Theorem runSync_follows_answers (fuel : nat) (m m1 m' : Machine G)
    (vs : list Z) :
  mainStarted m = true ->
  Answers.sync_answers r m vs m1 ->
  Forall (fun v => v <> -1) vs ->
  tick_answers r m1 (-1) m' ->
  (length vs < fuel)%nat ->
  runSync r fuel m = Some (Normal tt, m')
  /\ calls m'
     = calls m ++ flat_map (Answers.sync_round_events r) vs
         ++ onTick_events r ++ [CallTick].
Proof.
  intros Hflag Hans Hall Hlast Hfuel.
  unfold runSync, then_loop. rewrite (js_startMain_guarded r m Hflag).
  apply (runSync_loop_follows_answers vs fuel m m1 m'); assumption.
Qed.

End JsConstruction.

Lemma createReactor_initializes_after_setMemory_witness :
  Js.createReactor Scripted.js_module Scripted.js_options
    (Scripted.js_machine [0; -1]%Z)
  = (Js.Normal Scripted.js_reactor,
     Js.mkMachine [0; -1]%Z (Scripted.js_host_ready 64) false
       [Js.CallSetMemory; Js.CallInitialize]).
Proof.
  rewrite (createReactor_initializes_after_setMemory
             Scripted.js_module Scripted.js_options
             (Scripted.js_machine [0; -1]%Z)
             Scripted.js_noop Scripted.js_noop Scripted.js_tick
             eq_refl ltac:(vm_compute; reflexivity)
             ltac:(vm_compute; reflexivity) ltac:(vm_compute; reflexivity)
             eq_refl).
  reflexivity.
Defined.

Lemma startMain_failure_is_retried_witness :
  let r := Js.mkReactor
             (Js.mkExports (Js.wasiImports Scripted.shim)
                (<["go_start_main"%string :=
                     Js.FuncExport (fun _ : Scripted.state => Js.Trap)]>
                   Scripted.js_exports))
             false None in
  let m := Scripted.js_machine [(-1)%Z] in
  let m1 := Js.mkMachine [(-1)%Z] (Scripted.js_host 64) false
              [Js.CallStartMain] in
  Js.startMain r m = (Js.Throw Js.RuntimeError, m1)
  /\ Js.runAsync r Js.default_wait 0 m = Some (Js.Throw Js.RuntimeError, m1)
  /\ Js.calls (snd (Js.startMain r m1))
     = [Js.CallStartMain; Js.CallStartMain].
Proof.
  intros r m m1.
  destruct (startMain_failure_is_retried r m m1 Js.RuntimeError eq_refl
              ltac:(vm_compute; reflexivity))
    as (R1 & _ & _ & _ & R5 & R6).
  split; [exact R1|]. split; [exact (R5 Js.default_wait 0%nat)|exact R6].
Defined.

Lemma onTick_exception_skips_tick_witness :
  let r := Scripted.js_failing_callback_reactor in
  let m := Js.mkMachine [(-1)%Z] (Scripted.js_host 64) true
             [Js.CallStartMain] in
  let m' := Js.mkMachine [(-1)%Z] (Scripted.js_host 64) true
              [Js.CallStartMain; Js.CallOnTick] in
  Js.while_true 1 (Js.runSync_round r) m
  = Some (Js.Throw (Js.ErrorObj "exit(3)"), m')
  /\ Js.while_true 1 (Js.runAsync_round r Js.default_wait) m
     = Some (Js.Throw (Js.ErrorObj "exit(3)"), m').
Proof.
  intros r m m'.
  destruct (onTick_exception_skips_tick r Js.default_wait
              (Js.throw (Js.ErrorObj "exit(3)")) m (Js.ErrorObj "exit(3)")
              (Scripted.js_host 64) 0 eq_refl eq_refl)
    as (R1 & R2 & _).
  split; [exact R1|exact R2].
Defined.

Lemma wait_rejection_ends_runAsync_witness :
  Js.while_true 1
    (Js.runAsync_round Scripted.js_reactor (fun _ => Js.throw Js.RangeError))
    (Js.mkMachine [7; -1]%Z (Scripted.js_host 64) true [Js.CallStartMain])
  = Some (Js.Throw Js.RangeError,
          Js.mkMachine [(-1)%Z] (Scripted.js_host 64) true
            ([Js.CallStartMain] ++ [Js.CallTick] ++ [Js.CallWait 7])).
Proof.
  exact (wait_rejection_ends_runAsync Scripted.js_reactor
           (fun _ => Js.throw Js.RangeError) _ _ 7%Z Js.RangeError
           (Scripted.js_host 64) 0 ltac:(lia)
           (scripted_js_tick_answers 7 [(-1)%Z] [Js.CallStartMain]) eq_refl).
Defined.

Lemma js_run_returns_after_idle_tick_witness :
  exists m0,
    Js.loopOnce Scripted.js_reactor m0
    = (Js.Normal (-1)%Z,
       Js.mkMachine [] (Scripted.js_host 64) true
         [Js.CallStartMain; Js.CallTick; Js.BusyWait 3; Js.CallTick])
    /\ last [Js.CallStartMain; Js.CallTick; Js.BusyWait 3; Js.CallTick]
       = Some Js.CallTick.
Proof.
  exact (js_run_returns_after_idle_tick Scripted.js_reactor Js.default_wait 2
           (Scripted.js_machine [3; -1]%Z)
           (Js.mkMachine [] (Scripted.js_host 64) true
              [Js.CallStartMain; Js.CallTick; Js.BusyWait 3; Js.CallTick])
           (or_introl eq_refl)).
Defined.

Lemma runSync_follows_answers_witness :
  let m := Js.mkMachine [4; -3; 0; -1]%Z (Scripted.js_host 64) true [] in
  let m' := Js.mkMachine [] (Scripted.js_host 64) true
              [Js.CallTick; Js.BusyWait 4; Js.CallTick; Js.CallTick;
               Js.CallTick] in
  Js.runSync Scripted.js_reactor 4 m = Some (Js.Normal tt, m').
Proof.
  intros m m'.
  refine (proj1 (runSync_follows_answers Scripted.js_reactor 4 m
                   (Js.mkMachine [(-1)%Z] (Scripted.js_host 64) true
                      [Js.CallTick; Js.BusyWait 4; Js.CallTick; Js.CallTick])
                   m' [4; -3; 0]%Z eq_refl _ _ _ _)).
  - cbn. repeat (eexists; split; [apply scripted_js_tick_answers|]; cbn).
    reflexivity.
  - repeat (constructor; [lia|]). constructor.
  - apply scripted_js_tick_answers.
  - cbn. lia.
Defined.

(* ===================================================================== *)
(** ** [environ_sizes_get] and [environ_get] *)
(* ===================================================================== *)

Section Environment.

Import Js.
Local Open Scope Z_scope.

Lemma scalar_values_equals_upto (n : nat) :
  forall k v,
    (length k <= n)%nat ->
    scalar_values (k ++ 61 :: v) = scalar_values k ++ 61 :: scalar_values v.
Proof.
  induction n as [|n IH]; intros k v Hn.
  - destruct k; [reflexivity|simpl in Hn; lia].
  - destruct k as [|c rest]; [reflexivity|]. simpl in Hn.
    cbn [app scalar_values].
    destruct (is_high_surrogate c).
    + destruct rest as [|d rest']; [reflexivity|].
      cbn [app]. simpl in Hn.
      destruct (is_low_surrogate d).
      * rewrite (IH rest' v) by lia. reflexivity.
      * change (d :: rest' ++ 61 :: v) with ((d :: rest') ++ 61 :: v).
        rewrite (IH (d :: rest') v) by (simpl; lia). reflexivity.
    + destruct (is_low_surrogate c); rewrite (IH rest v) by lia; reflexivity.
Qed.

Lemma encode_entry (k v : JsString) :
  encode (k ++ lit "=" ++ v) = encode k ++ [byte.of_Z 61] ++ encode v.
Proof.
  unfold encode. change (lit "=" ++ v) with (61 :: v).
  rewrite (scalar_values_equals_upto (length k) k v (le_n _)).
  rewrite flat_map_app. reflexivity.
Qed.

(** X22.  The environment round trip.  [createMinimalWASI] turns each
    entry of [env] into [key=value]; [environ_sizes_get] stores their
    number and the bytes they take, and [environ_get] stores, for the
    [k]-th entry, a pointer to the UTF-8 encoding of the key, an ['='],
    the encoding of the value and a NUL, in the order of the entries.
    Without an [env] option the count and the size are 0. *)
Theorem environ_round_trip (options : WasiOptions)
    (count_ptr size_ptr environ_ptr environ_buf_ptr : Z) (h : Host) :
  let sh := createMinimalWASI options in
  let entries := default [] (opt_env options) in
  let E := envArray sh in
  let n := Z.of_nat (length entries) in
  let total := Layout.total_size E in
  let size := Z.of_nat (length (memory_buffer (heap h))) in
  memory h = Some (mkMemory MemoryBuffer) ->
  size <= 2 ^ 32 ->
  0 <= count_ptr -> count_ptr + 4 <= size ->
  0 <= size_ptr -> size_ptr + 4 <= size ->
  count_ptr + 4 <= size_ptr \/ size_ptr + 4 <= count_ptr ->
  0 <= environ_ptr -> environ_ptr + n * 4 <= size ->
  0 <= environ_buf_ptr -> environ_buf_ptr + total <= size ->
  environ_ptr + n * 4 <= environ_buf_ptr
    \/ environ_buf_ptr + total <= environ_ptr ->
  exists h1 h2,
    environ_sizes_get sh count_ptr size_ptr h = (Normal 0, h1)
    /\ Layout.u32_at (memory_buffer (heap h1)) count_ptr = n
    /\ Layout.u32_at (memory_buffer (heap h1)) size_ptr = total
    /\ environ_get sh environ_ptr environ_buf_ptr h1 = (Normal 0, h2)
    /\ (forall (k : nat) key value,
          entries !! k = Some (key, value) ->
          Layout.u32_at (memory_buffer (heap h2)) (environ_ptr + Z.of_nat k * 4)
          = environ_buf_ptr + Layout.string_offset E k
          /\ span (Z.to_nat (environ_buf_ptr + Layout.string_offset E k))
                  (length (encode key) + 1 + length (encode value) + 1)
                  (memory_buffer (heap h2))
             = encode key ++ [byte.of_Z 61] ++ encode value ++ [Byte.x00])
    /\ (opt_env options = None -> n = 0 /\ total = 0).
Proof.
  intros sh entries E n total size Hm H32 C1 C2 S1 S2 Ds P1 P2 B1 B2 Da.
  set (buf := memory_buffer (heap h)) in *.
  assert (HE : E = map (fun '(k, v) => k ++ lit "=" ++ v) entries) by reflexivity.
  assert (HlenE : Z.of_nat (length E) = n).
  { rewrite HE, length_map. reflexivity. }
  assert (Htot : 0 <= total < 2 ^ 32).
  { pose proof (total_size_nonneg E) as H. fold total in H.
    destruct entries as [|a A'] eqn:Hent.
    - unfold total. rewrite HE. simpl. lia.
    - assert (1 <= n) by (unfold n; simpl length; lia). lia. }
  assert (Hn : 0 <= n < 2 ^ 32) by lia.
  set (buf1 := splice (Z.to_nat count_ptr) (le_split 4 (Z.of_nat (length E))) buf).
  assert (L1 : length buf1 = length buf).
  { apply length_splice. rewrite length_le_split. lia. }
  set (buf2 := splice (Z.to_nat size_ptr) (le_split 4 total) buf1).
  assert (L2 : length buf2 = length buf).
  { unfold buf2. rewrite length_splice; rewrite ?length_le_split; lia. }
  destruct (strings_get_ok E environ_ptr environ_buf_ptr (mem_update h buf2))
    as (buf' & Hrun & Hlen & Hframe & Hread);
    simpl memory_buffer; rewrite ?L2, ?HlenE; fold total; fold size;
    try assumption; try lia.
  exists (mem_update h buf2), (mem_update h buf').
  split; [|split; [|split; [|split; [|split]]]].
  - apply sizes_get_ok; fold buf; fold size; assumption.
  - simpl memory_buffer. unfold buf2, Layout.u32_at.
    rewrite span_splice_disjoint by (rewrite length_le_split; lia).
    fold (Layout.u32_at buf1 count_ptr). unfold buf1.
    rewrite u32_at_splice by lia. rewrite HlenE. apply Z.mod_small. lia.
  - simpl memory_buffer. unfold buf2.
    rewrite u32_at_splice by lia. apply Z.mod_small. lia.
  - exact Hrun.
  - intros k key value Hk. simpl memory_buffer.
    assert (HEk : E !! k = Some (key ++ lit "=" ++ value)).
    { rewrite HE, list_lookup_fmap, Hk. reflexivity. }
    destruct (Hread k _ HEk) as [R1 R2]. split; [exact R1|].
    rewrite encode_entry in R2.
    rewrite !length_app in R2. cbn [length] in R2.
    match type of R2 with
    | span _ ?len _ = _ =>
        replace (length (encode key) + 1 + length (encode value) + 1)%nat
          with len by lia
    end.
    rewrite R2. rewrite <- !app_assoc. reflexivity.
  - intros Hnone. unfold n, total. rewrite HE. unfold entries.
    rewrite Hnone. split; reflexivity.
Qed.

End Environment.

Lemma environ_round_trip_witness :
  exists h1 h2,
    Js.environ_sizes_get
      (Js.createMinimalWASI
         (Js.mkWasiOptions None (Some [(Js.lit "TZ", Js.lit "UTC")])))
      0 4 (Scripted.js_host_ready 64) = (Js.Normal 0%Z, h1)
    /\ Layout.u32_at (Js.memory_buffer (Js.heap h1)) 0 = 1%Z
    /\ Layout.u32_at (Js.memory_buffer (Js.heap h1)) 4 = 7%Z
    /\ Js.environ_get
         (Js.createMinimalWASI
            (Js.mkWasiOptions None (Some [(Js.lit "TZ", Js.lit "UTC")])))
         8 16 h1 = (Js.Normal 0%Z, h2)
    /\ Layout.u32_at (Js.memory_buffer (Js.heap h2)) 8 = 16%Z
    /\ Js.span 16 7 (Js.memory_buffer (Js.heap h2))
       = map byte.of_Z [84; 90; 61; 85; 84; 67; 0]%Z.
Proof.
  destruct (environ_round_trip
              (Js.mkWasiOptions None (Some [(Js.lit "TZ", Js.lit "UTC")]))
              0 4 8 16 (Scripted.js_host_ready 64))
    as (h1 & h2 & H1 & H2 & H3 & H4 & H5 & _);
    try reflexivity; try (vm_compute; intuition congruence);
    try (left; vm_compute; congruence).
  exists h1, h2. repeat (split; [assumption|]).
  destruct (H5 0%nat (Js.lit "TZ") (Js.lit "UTC") eq_refl) as [R1 R2].
  split; [exact R1|exact R2].
Defined.

(* ===================================================================== *)
(** ** [runAsync] on a sequence of answers, and the memory reference *)
(* ===================================================================== *)

Section JsRuns.

Import Js.
Local Open Scope Z_scope.

Context {G : Type}.
Variable r : Reactor G.
Variable wait : Z -> JS Host unit.

Lemma runAsync_round_again v m m1 m2 :
  v <> -1 ->
  tick_answers r m v m1 ->
  (if v =? 0 then m2 = logged AwaitResolved m1
   else if 0 <? v
   then on_host (wait v) (logged (CallWait v) m1) = (Normal tt, m2)
   else m2 = m1) ->
  runAsync_round r wait m = (Normal Again, m2)
  /\ calls m2
     = calls m1 ++ (if v =? 0 then [AwaitResolved]
                    else if 0 <? v then [CallWait v] else []).
Proof.
  intros Hne Hv Hafter.
  destruct (Z.eqb_spec v 0) as [->|Hnz].
  - subst m2. split; [apply runAsync_round_ready; exact Hv|reflexivity].
  - destruct (Z.ltb_spec 0 v) as [Hpos|Hneg].
    + split; [exact (runAsync_round_timer r wait v m m1 m2 Hpos Hv Hafter)|].
      pose proof (on_host_calls (wait v) (logged (CallWait v) m1)) as Hc.
      rewrite Hafter in Hc. exact Hc.
    + subst m2. split; [apply (runAsync_round_other r wait v); [lia|exact Hne|exact Hv]|].
      rewrite app_nil_r. reflexivity.
Qed.

Lemma runAsync_loop_follows_answers vs :
  forall fuel m m1 m',
    Answers.async_answers r wait m vs m1 ->
    Forall (fun v => v <> -1) vs ->
    tick_answers r m1 (-1) m' ->
    (length vs < fuel)%nat ->
    while_true fuel (runAsync_round r wait) m = Some (Normal tt, m')
    /\ calls m'
       = calls m ++ flat_map (Answers.async_round_events r) vs
           ++ onTick_events r ++ [CallTick].
Proof.
  induction vs as [|v vs IH]; intros fuel m m1 m' Hans Hall Hlast Hfuel.
  - cbn in Hans. subst m1. destruct fuel as [|fuel]; [cbn in Hfuel; lia|].
    split.
    + apply while_true_leave. apply runAsync_round_idle. exact Hlast.
    + cbn [flat_map app]. exact (tick_answers_calls r _ _ _ Hlast).
  - destruct Hans as (m2 & m3 & Hv & Hafter & Hans).
    apply Forall_cons in Hall. destruct Hall as [Hne Hall].
    destruct fuel as [|fuel]; [cbn in Hfuel; lia|]. cbn [length] in Hfuel.
    destruct (runAsync_round_again v m m2 m3 Hne Hv Hafter) as [Hround Hc3].
    rewrite (while_true_again _ _ _ _ Hround).
    destruct (IH fuel m3 m1 m' Hans Hall Hlast ltac:(lia)) as [Hrun Hc].
    split; [exact Hrun|]. rewrite Hc, Hc3.
    rewrite (tick_answers_calls r m v m2 Hv).
    cbn [flat_map]. unfold Answers.async_round_events at 2.
    rewrite <- !app_assoc. cbn [app]. reflexivity.
Qed.

(** X23.  [runAsync] on any finite sequence of answers.  For a reactor
    that is started, a guest whose ticks answer the values [vs], none of
    them [-1], and then [-1] is run to completion when every [wait]
    resolves: one callback (if any) and one tick per answer and for the
    final [-1]; after each 0 one [await Promise.resolve()], after each
    positive answer one call of [wait] with that number, after a
    negative one nothing. *)
Theorem runAsync_follows_answers (fuel : nat) (m m1 m' : Machine G)
    (vs : list Z) :
  mainStarted m = true ->
  Answers.async_answers r wait m vs m1 ->
  Forall (fun v => v <> -1) vs ->
  tick_answers r m1 (-1) m' ->
  (length vs < fuel)%nat ->
  runAsync r wait fuel m = Some (Normal tt, m')
  /\ calls m'
     = calls m ++ flat_map (Answers.async_round_events r) vs
         ++ onTick_events r ++ [CallTick].
Proof.
  intros Hflag Hans Hall Hlast Hfuel.
  unfold runAsync, then_loop. rewrite (js_startMain_guarded r m Hflag).
  apply (runAsync_loop_follows_answers vs fuel m m1 m'); assumption.
Qed.

Local Abbreviation keeps c :=
  (forall m : Machine G, memory (host (snd (c m))) = memory (host m)).







End JsRuns.

Lemma runAsync_follows_answers_witness :
  let m := Js.mkMachine [0; 6; -2; -1]%Z (Scripted.js_host 64) true [] in
  let m' := Js.mkMachine [] (Scripted.js_host 64) true
              [Js.CallTick; Js.AwaitResolved; Js.CallTick; Js.CallWait 6;
               Js.CallTick; Js.CallTick] in
  Js.runAsync Scripted.js_reactor Js.default_wait 4 m = Some (Js.Normal tt, m').
Proof.
  intros m m'.
  refine (proj1 (runAsync_follows_answers Scripted.js_reactor Js.default_wait
                   4 m
                   (Js.mkMachine [(-1)%Z] (Scripted.js_host 64) true
                      [Js.CallTick; Js.AwaitResolved; Js.CallTick;
                       Js.CallWait 6; Js.CallTick])
                   m' [0; 6; -2]%Z eq_refl _ _ _ _)).
  - cbn.
    repeat (eexists; eexists;
            split; [apply scripted_js_tick_answers|]; split; [reflexivity|]).
    reflexivity.
  - repeat (constructor; [lia|]). constructor.
  - apply scripted_js_tick_answers.
  - cbn. lia.
Defined.


(* ===================================================================== *)
(** ** The order of the calls under wazero *)
(* ===================================================================== *)

Section GoOrder.

Import Wazero.
Local Open Scope Z_scope.

Context {G : Type}.
Variable r : Reactor G.
Variable ctx : Context.

Local Abbreviation loop_event ev :=
  (ev <> CallInitialize /\ ev <> CallStartMain /\ ev <> ModClose).

Lemma loop_events_only fuel onTick :
  forall m out m',
    RunWithCallback_for fuel ctx onTick r m = Some (out, m') ->
    exists suffix,
      calls m' = calls m ++ suffix
      /\ Forall (fun ev => loop_event ev) suffix.
Proof.
  induction fuel as [|fuel IH]; intros m out m'; [discriminate|].
  cbn [RunWithCallback_for]. unfold poll.
  destruct (done ctx (polls m)).
  { intros [= <- <-]. exists []. split; [cbn; rewrite app_nil_r; reflexivity|constructor]. }
  fold (polled m).
  set (m1 := call_onTick onTick (polled m)).
  assert (H1 : exists s1, calls m1 = calls m ++ s1
                          /\ Forall (fun ev => loop_event ev) s1).
  { unfold m1. destruct onTick as [f|].
    - exists [CallOnTick]. split; [reflexivity|].
      constructor; [repeat split; discriminate|constructor].
    - exists []. split; [cbn; rewrite app_nil_r; reflexivity|constructor]. }
  destruct H1 as (s1 & Hc1 & Hs1).
  pose proof (LoopOnce_cases r m1) as HL.
  destruct (goTick r (guest m1)) as [[rs e] g'].
  rewrite HL. clear HL.
  assert (Hnow : forall o : Outcome (option GoError),
            Some (o, ticked g' m1) = Some (out, m') ->
            exists suffix,
              calls m' = calls m ++ suffix
              /\ Forall (fun ev => loop_event ev) suffix).
  { intros o [= <- <-]. exists (s1 ++ [CallTick]). split.
    - cbn [ticked calls]. rewrite Hc1, <- app_assoc. reflexivity.
    - apply Forall_app. split; [exact Hs1|].
      constructor; [repeat split; discriminate|constructor]. }
  assert (Hlater : forall m2 tail,
            calls m2 = calls m ++ s1 ++ CallTick :: tail ->
            Forall (fun ev => loop_event ev) tail ->
            RunWithCallback_for fuel ctx onTick r m2 = Some (out, m') ->
            exists suffix,
              calls m' = calls m ++ suffix
              /\ Forall (fun ev => loop_event ev) suffix).
  { intros m2 tail Hc2 Htail H. destruct (IH _ _ _ H) as (s2 & Hc & Hs2).
    exists (s1 ++ CallTick :: tail ++ s2). split.
    - rewrite Hc, Hc2. rewrite <- !app_assoc. reflexivity.
    - apply Forall_app. split; [exact Hs1|].
      constructor; [repeat split; discriminate|].
      apply Forall_app. split; assumption. }
  assert (Hc2 : calls (ticked g' m1) = calls m ++ s1 ++ [CallTick]).
  { cbn [ticked calls]. rewrite Hc1, <- app_assoc. reflexivity. }
  destruct e as [e|]; [apply Hnow|].
  destruct rs as [|x rest]; [apply Hnow|].
  destruct (int32 x =? LoopIdle); [apply Hnow|].
  destruct (int32 x =? LoopReady); [apply (Hlater _ []); [exact Hc2|constructor]|].
  destruct (0 <? int32 x); [|apply (Hlater _ []); [exact Hc2|constructor]].
  unfold wait_timer, poll.
  destruct (done ctx (polls (ticked g' m1))).
  - intros [= <- <-]. exists (s1 ++ [CallTick; TimerStopped (int32 x)]). split.
    + cbn [log calls ticked polls guest]. rewrite Hc1, <- !app_assoc. reflexivity.
    + apply Forall_app. split; [exact Hs1|].
      repeat (constructor; [repeat split; discriminate|]). constructor.
  - apply (Hlater _ [TimerFired (int32 x)]).
    + cbn [log calls ticked polls guest]. rewrite Hc1, <- !app_assoc. reflexivity.
    + constructor; [repeat split; discriminate|constructor].
Qed.

End GoOrder.

Lemma NewReactor_calls {G : Type} (wasm : Wazero.Wasm G) :
  match Wazero.NewReactor wasm with
  | ((Some _, _), m) => Wazero.calls m = [Wazero.CallInitialize]
  | ((None, _), _) => True
  end.
Proof.
  unfold Wazero.NewReactor.
  destruct (Wazero.wasi_instantiate wasm); [exact I|].
  destruct (Wazero.compile_module wasm); [exact I|].
  destruct (Wazero.instantiate_module wasm); [exact I|].
  destruct (Wazero.exported_functions wasm !! "_initialize"%string) as [fi|];
    [|exact I].
  destruct (Wazero.exported_functions wasm !! "go_start_main"%string);
    [|exact I].
  destruct (Wazero.exported_functions wasm !! "go_tick"%string); [|exact I].
  unfold Wazero.Call. cbn [Wazero.guest Wazero.polls Wazero.calls].
  destruct (fi (Wazero.initial wasm)) as [[rs [e|]] g']; [exact I|reflexivity].
Qed.

(** X25.  The order of the calls from construction to the end of a run.
    On the machine [NewReactor] leaves behind with a reactor, a run of
    [RunWithCallback] (of [Run], with a [nil] callback) that comes back
    has called [_initialize] once, then [go_start_main] once, and after
    that only the callback, ticks and timers: the run never calls
    [_initialize] or [go_start_main] again and never closes the module,
    however it ends. *)
Theorem go_calls_in_order {G : Type} (wasm : Wazero.Wasm G)
    (ctx : Wazero.Context) (onTick : option (G -> G)) (fuel : nat)
    (re : Wazero.Reactor G) (err : option Wazero.GoError)
    (m0 m' : Wazero.Machine G) (out : Wazero.Outcome (option Wazero.GoError)) :
  Wazero.NewReactor wasm = ((Some re, err), m0) ->
  Wazero.RunWithCallback fuel ctx onTick re m0 = Some (out, m') ->
  exists suffix,
    Wazero.calls m'
    = Wazero.CallInitialize :: Wazero.CallStartMain :: suffix
    /\ Forall (fun ev => ev <> Wazero.CallInitialize
                         /\ ev <> Wazero.CallStartMain
                         /\ ev <> Wazero.ModClose) suffix.
Proof.
  intros Hnew Hrun.
  assert (Hc0 : Wazero.calls m0 = [Wazero.CallInitialize]).
  { pose proof (NewReactor_calls wasm) as H. rewrite Hnew in H. exact H. }
  unfold Wazero.RunWithCallback, Wazero.StartMain, Wazero.Call in Hrun.
  destruct (Wazero.goStartMain re (Wazero.guest m0)) as [[rs [e|]] g1].
  - injection Hrun as <- <-. exists []. split; [|constructor].
    cbn [Wazero.calls]. rewrite Hc0. reflexivity.
  - apply loop_events_only in Hrun. destruct Hrun as (suffix & Hc & Hs).
    exists suffix. split; [|exact Hs].
    rewrite Hc. cbn [Wazero.calls]. rewrite Hc0. reflexivity.
Qed.

Lemma go_calls_in_order_witness :
  exists suffix,
    [Wazero.CallInitialize; Wazero.CallStartMain; Wazero.CallTick;
     Wazero.TimerFired 9; Wazero.CallTick]
    = Wazero.CallInitialize :: Wazero.CallStartMain :: suffix
    /\ Forall (fun ev => ev <> Wazero.CallInitialize
                         /\ ev <> Wazero.CallStartMain
                         /\ ev <> Wazero.ModClose) suffix.
Proof.
  exact (go_calls_in_order (Scripted.go_wasm [9; -1]%Z) Wazero.Background
           None 3 Scripted.go_reactor None
           (Wazero.mkMachine [9; -1]%Z 0 [Wazero.CallInitialize])
           (Wazero.mkMachine [] 3
              [Wazero.CallInitialize; Wazero.CallStartMain; Wazero.CallTick;
               Wazero.TimerFired 9; Wazero.CallTick])
           (Wazero.Returns None)
           eq_refl eq_refl).
Defined.

(* ===================================================================== *)
(** ** The per-tick callback of the TypeScript harness *)
(* ===================================================================== *)

Section JsCallback.

Import Js.
Local Open Scope Z_scope.

Context {G : Type}.
Variable r : Reactor G.
Variable wait : Z -> JS Host unit.

Lemma js_occurrences_snoc (ev e : Event) l :
  occurrences ev (l ++ [e])
  = (occurrences ev l + (if decide (e = ev) then 1 else 0))%nat.
Proof.
  unfold occurrences. rewrite filter_app, length_app. f_equal.
  destruct (decide (e = ev)) as [He|He].
  - rewrite filter_cons_True by exact He. reflexivity.
  - rewrite filter_cons_False by exact He. reflexivity.
Qed.

(** What one round adds to the two counts: the callback (if there is
    one) once, and the tick once unless the callback threw. *)
Local Abbreviation round_counts body :=
  (forall m : Machine G,
     occurrences CallOnTick (calls (snd (body m)))
     = (occurrences CallOnTick (calls m) + length (onTick_events r))%nat
     /\ (occurrences CallTick (calls (snd (body m)))
         = S (occurrences CallTick (calls m))
         \/ occurrences CallTick (calls (snd (body m)))
            = occurrences CallTick (calls m)
            /\ exists e, fst (body m) = Throw e)).

Lemma callback_counts m :
  occurrences CallOnTick (calls (snd (call_onTick r m)))
  = (occurrences CallOnTick (calls m) + length (onTick_events r))%nat
  /\ occurrences CallTick (calls (snd (call_onTick r m)))
     = occurrences CallTick (calls m).
Proof.
  rewrite call_onTick_calls. unfold onTick_events.
  destruct (onTick r).
  - rewrite !js_occurrences_snoc. rewrite decide_True by reflexivity.
    rewrite decide_False by discriminate. cbn [length]. lia.
  - rewrite app_nil_r. cbn [length]. lia.
Qed.

Lemma tick_counts m :
  occurrences CallOnTick (calls (snd (loopOnce r m)))
  = occurrences CallOnTick (calls m)
  /\ occurrences CallTick (calls (snd (loopOnce r m)))
     = S (occurrences CallTick (calls m)).
Proof.
  rewrite loopOnce_calls. rewrite !js_occurrences_snoc.
  rewrite decide_False by discriminate. rewrite decide_True by reflexivity. lia.
Qed.

Lemma runSync_round_counts : round_counts (runSync_round r).
Proof.
  intros m. unfold runSync_round, bind.
  destruct (callback_counts m) as [O1 T1].
  destruct (call_onTick r m) as [[[]|e] m1]; cbn [fst snd] in *.
  2:{ split; [exact O1|]. right. split; [exact T1|]. exists e. reflexivity. }
  destruct (tick_counts m1) as [O2 T2].
  destruct (loopOnce r m1) as [[v|e] m2]; cbn [fst snd] in *.
  2:{ split; [congruence|]. left. congruence. }
  destruct (v =? -1); unfold ret; cbn [fst snd].
  { split; [congruence|]. left. congruence. }
  destruct (0 <? v); unfold log, modify, ret; cbn [fst snd logged calls].
  - rewrite !js_occurrences_snoc, !decide_False by discriminate.
    split; [lia|]. left. lia.
  - split; [congruence|]. left. congruence.
Qed.

Lemma runAsync_round_counts : round_counts (runAsync_round r wait).
Proof.
  intros m. unfold runAsync_round, bind.
  destruct (callback_counts m) as [O1 T1].
  destruct (call_onTick r m) as [[[]|e] m1]; cbn [fst snd] in *.
  2:{ split; [exact O1|]. right. split; [exact T1|]. exists e. reflexivity. }
  destruct (tick_counts m1) as [O2 T2].
  destruct (loopOnce r m1) as [[v|e] m2]; cbn [fst snd] in *.
  2:{ split; [congruence|]. left. congruence. }
  destruct (v =? -1); unfold ret; cbn [fst snd].
  { split; [congruence|]. left. congruence. }
  destruct (v =? 0); unfold log, modify, ret; cbn [fst snd logged calls].
  { rewrite !js_occurrences_snoc, !decide_False by discriminate.
    split; [lia|]. left. lia. }
  destruct (0 <? v); cbn [fst snd].
  - pose proof (on_host_calls (wait v) (logged (CallWait v) m2)) as Hc.
    destruct (on_host (wait v) (logged (CallWait v) m2)) as [[[]|e] m3];
      cbn [fst snd logged calls] in *; rewrite Hc;
      rewrite !js_occurrences_snoc, !decide_False by discriminate;
      (split; [lia|]; left; lia).
  - split; [congruence|]. left. congruence.
Qed.

Lemma loop_counts (body : JS (Machine G) Round) :
  round_counts body ->
  forall fuel m c m',
    while_true fuel body m = Some (c, m') ->
    exists rounds : nat,
      occurrences CallOnTick (calls m')
      = (occurrences CallOnTick (calls m)
         + rounds * length (onTick_events r))%nat
      /\ (occurrences CallTick (calls m')
          = (occurrences CallTick (calls m) + rounds)%nat
          \/ (S (occurrences CallTick (calls m'))
              = (occurrences CallTick (calls m) + rounds)%nat
              /\ (0 < rounds)%nat
              /\ exists e, c = Throw e)).
Proof.
  intros Hbody. induction fuel as [|fuel IH]; intros m c m'; [discriminate|].
  cbn [while_true]. destruct (Hbody m) as [HO HT].
  destruct (body m) as [[[]|e] m1]; cbn [fst snd] in *.
  - intros [= <- <-]. exists 1%nat. split; [lia|].
    destruct HT as [HT|[_ [e He]]]; [left; lia|discriminate].
  - intros H. destruct (IH _ _ _ H) as (k & HO' & HT').
    exists (S k). split; [lia|].
    destruct HT as [HT|[_ [e He]]]; [|discriminate].
    destruct HT' as [HT'|[HT' [Hk Hc]]];
      [left; lia|right; split; [lia|split; [lia|exact Hc]]].
  - intros [= <- <-]. exists 1%nat. split; [lia|].
    destruct HT as [HT|[HT _]]; [left; lia|].
    right. split; [lia|]. split; [lia|]. exists e. reflexivity.
Qed.

Lemma startMain_counts ev m :
  ev <> CallStartMain ->
  occurrences ev (calls (snd (startMain r m))) = occurrences ev (calls m).
Proof.
  intros Hev. unfold startMain, bind, get.
  destruct (mainStarted m); [reflexivity|].
  unfold log, modify.
  pose proof (call_export_calls (exports r) "go_start_main"
                (logged CallStartMain m)) as Hc.
  destruct (call_export (exports r) "go_start_main" (logged CallStartMain m))
    as [[v|e] m1]; cbn [snd] in *.
  - unfold set_mainStarted, modify. cbn [snd calls]. rewrite Hc.
    cbn [logged calls]. rewrite js_occurrences_snoc.
    rewrite decide_False by congruence. lia.
  - rewrite Hc. cbn [logged calls]. rewrite js_occurrences_snoc.
    rewrite decide_False by congruence. lia.
Qed.

(** X26.  The callback comes before every tick.  In a run of [runSync]
    or [runAsync] with an [onTick] callback, the number of callbacks
    made is the number of ticks made, or one more; it is one more only
    when the run ends with an exception (the callback of the last round
    threw before the tick).  Without a callback none is made. *)
Theorem js_callback_before_every_tick (fuel : nat) (m m' : Machine G)
    (c : Completion unit) :
  runSync r fuel m = Some (c, m') \/ runAsync r wait fuel m = Some (c, m') ->
  let callbacks := (occurrences CallOnTick (calls m')
                    - occurrences CallOnTick (calls m))%nat in
  let ticks := (occurrences CallTick (calls m')
                - occurrences CallTick (calls m))%nat in
  match onTick r with
  | Some _ =>
      callbacks = ticks
      \/ (callbacks = S ticks /\ exists e, c = Throw e)
  | None => callbacks = 0%nat
  end.
Proof.
  intros Hrun callbacks ticks.
  assert (Hloops : exists (m1 : Machine G) (rounds : nat),
            occurrences CallOnTick (calls m1) = occurrences CallOnTick (calls m)
            /\ occurrences CallTick (calls m1) = occurrences CallTick (calls m)
            /\ occurrences CallOnTick (calls m')
               = (occurrences CallOnTick (calls m1)
                  + rounds * length (onTick_events r))%nat
            /\ (occurrences CallTick (calls m')
                = (occurrences CallTick (calls m1) + rounds)%nat
                \/ (S (occurrences CallTick (calls m'))
                    = (occurrences CallTick (calls m1) + rounds)%nat
                    /\ (0 < rounds)%nat
                    /\ exists e, c = Throw e))).
  { pose proof (startMain_counts CallOnTick m ltac:(discriminate)) as SO.
    pose proof (startMain_counts CallTick m ltac:(discriminate)) as ST.
    unfold runSync, runAsync, then_loop in Hrun.
    destruct (startMain r m) as [[[]|e] m1]; cbn [snd] in *.
    - destruct Hrun as [H|H].
      + destruct (loop_counts _ runSync_round_counts _ _ _ _ H) as (k & HO & HT).
        exists m1, k. repeat split; assumption.
      + destruct (loop_counts _ runAsync_round_counts _ _ _ _ H) as (k & HO & HT).
        exists m1, k. repeat split; assumption.
    - assert (Hm : c = Throw e /\ m' = m1)
        by (destruct Hrun as [H|H]; injection H as <- <-; split; reflexivity).
      destruct Hm as [-> ->]. exists m1, 0%nat.
      split; [exact SO|]. split; [exact ST|]. split; [lia|]. left. lia. }
  destruct Hloops as (m1 & k & SO & ST & HO & HT).
  unfold callbacks, ticks, onTick_events in *.
  destruct (onTick r); cbn [length] in HO.
  - destruct HT as [HT|[HT [Hk Hc]]]; [left; lia|right; split; [lia|exact Hc]].
  - lia.
Qed.

End JsCallback.

Lemma js_callback_before_every_tick_witness :
  let c0 := Js.occurrences Js.CallOnTick [Js.CallStartMain] in
  let t0 := Js.occurrences Js.CallTick [Js.CallStartMain] in
  let c1 := Js.occurrences Js.CallOnTick [Js.CallStartMain; Js.CallOnTick] in
  let t1 := Js.occurrences Js.CallTick [Js.CallStartMain; Js.CallOnTick] in
  (c1 - c0 = t1 - t0
   \/ c1 - c0 = S (t1 - t0)
      /\ exists e, @Js.Throw unit (Js.ErrorObj "exit(3)") = Js.Throw e)%nat.
Proof.
  exact (js_callback_before_every_tick Scripted.js_failing_callback_reactor
           Js.default_wait 1
           (Js.mkMachine [(-1)%Z] (Scripted.js_host 64) true [Js.CallStartMain])
           (Js.mkMachine [(-1)%Z] (Scripted.js_host 64) true
              [Js.CallStartMain; Js.CallOnTick])
           (Js.Throw (Js.ErrorObj "exit(3)"))
           (or_introl eq_refl)).
Defined.
